(** * e2ee-chat: the end-to-end encryption core and the room's event handlers

  A shallow embedding of [src/lib/crypto.ts] and of the key-exchange,
  receive and send handlers of [src/app/room/[id]/page.tsx], with the
  room token of [POST /api/rooms] and the join form of [src/app/page.tsx].

  The cryptographic primitives of the browser (X25519, AES-GCM, SHA-256)
  are the fields of a class, and the random source is a tape in the state.
  What the Web Cryptography API and the Encoding standard fix around them
  is written out: key handles with their type, algorithm, [extractable]
  flag and usages; [deriveKey] as [deriveBits] followed by a raw import;
  the UTF-8 encoder and decoder behind [TextEncoder] and [TextDecoder].

  A promise is the value it settles to, [Ok] or [Throw]; each handler of
  the room runs to its end before the next event is taken, and the room
  has the handlers of one channel: it is joined once at most.  The console
  lines of [crypto.ts] are left out, those of the room's handlers are kept
  (they carry the reason a message was dropped). *)

From Stdlib Require Import String Ascii.
From Stdlib Require Import List NArith ZArith Lia Bool.
From Stdlib Require Import Strings.Byte.
Import ListNotations.

Set Implicit Arguments.
Local Open Scope N_scope.

(* ================================================================== *)
(** * Bytes and typed arrays *)

Module Bytes.

Definition bytes := list byte.

(** Storing a number into a [Uint8Array] element keeps it modulo 256. *)
Definition byte_of_N (n : N) : byte :=
  match Byte.of_N (n mod 256) with
  | Some b => b
  | None => x00
  end.

(** [Array.from(new Uint8Array(buf))]: the bytes as a [number[]]. *)
Definition Array_from (bs : bytes) : list N := map Byte.to_N bs.

(** [new Uint8Array(numbers)]. *)
Definition Uint8Array_of (ns : list N) : bytes := map byte_of_N ns.

End Bytes.
Import Bytes.

(* ================================================================== *)
(** * JavaScript strings, [TextEncoder] and [TextDecoder] *)

Module Encoding.

(** A JavaScript string is a sequence of 16-bit code units. *)
Definition jsstring := list N.

Definition is_code_unit (u : N) : bool := u <? 0x10000.
Definition is_lead (u : N) : bool := (0xD800 <=? u) && (u <=? 0xDBFF).
Definition is_trail (u : N) : bool := (0xDC00 <=? u) && (u <=? 0xDFFF).
Definition is_surrogate (u : N) : bool := (0xD800 <=? u) && (u <=? 0xDFFF).

(** A Unicode scalar value: a code point that is not a surrogate. *)
Definition is_scalar (c : N) : bool := (c <? 0x110000) && negb (is_surrogate c).

(** Conversion of a string to scalar values (what [TextEncoder.encode]
    does to its argument first): a surrogate pair is one code point, a
    lone surrogate becomes U+FFFD. *)
Fixpoint to_scalar_values (s : jsstring) : list N :=
  match s with
  | [] => []
  | u :: rest =>
      if is_lead u then
        match rest with
        | v :: rest' =>
            if is_trail v
            then (0x10000 + N.shiftl (u - 0xD800) 10 + (v - 0xDC00))
                   :: to_scalar_values rest'
            else 0xFFFD :: to_scalar_values rest
        | [] => [0xFFFD]
        end
      else if is_trail u then 0xFFFD :: to_scalar_values rest
      else u :: to_scalar_values rest
  end.

(** [String.prototype.isWellFormed]: no lone surrogate (and, for the
    model, every element is a 16-bit code unit). *)
Fixpoint isWellFormed (s : jsstring) : bool :=
  match s with
  | [] => true
  | u :: rest =>
      is_code_unit u &&
      if is_lead u then
        match rest with
        | v :: rest' => is_trail v && isWellFormed rest'
        | [] => false
        end
      else negb (is_trail u) && isWellFormed rest
  end.

(** The code units of one code point. *)
Definition code_units_of (c : N) : jsstring :=
  if c <? 0x10000 then [c]
  else [0xD800 + N.shiftr (c - 0x10000) 10;
        0xDC00 + N.land (c - 0x10000) 0x3FF].

Definition of_code_points (cs : list N) : jsstring := flat_map code_units_of cs.

(** ** The UTF-8 encoder *)

Fixpoint utf8_trail (c : N) (count : nat) : bytes :=
  match count with
  | O => []
  | S k =>
      byte_of_N (N.lor 0x80 (N.land (N.shiftr c (6 * N.of_nat k)) 0x3F))
        :: utf8_trail c k
  end.

Definition utf8_encode_code_point (c : N) : bytes :=
  if c <=? 0x7F then [byte_of_N c]
  else
    let '(count, offset) :=
      if c <=? 0x7FF then (1%nat, 0xC0)
      else if c <=? 0xFFFF then (2%nat, 0xE0)
      else (3%nat, 0xF0) in
    byte_of_N (N.shiftr c (6 * N.of_nat count) + offset) :: utf8_trail c count.

(** [new TextEncoder().encode(s)]. *)
Definition TextEncoder_encode (s : jsstring) : bytes :=
  flat_map utf8_encode_code_point (to_scalar_values s).

(** ** The UTF-8 decoder, in replacement mode *)

Record Utf8State := {
  code_point : N;
  bytes_seen : N;
  bytes_needed : N;
  lower_boundary : N;
  upper_boundary : N
}.

Definition utf8_init : Utf8State :=
  {| code_point := 0; bytes_seen := 0; bytes_needed := 0;
     lower_boundary := 0x80; upper_boundary := 0xBF |}.

(** The handler when no bytes are needed: returns the next state and the
    code points emitted. *)
Definition utf8_lead (b : N) : Utf8State * list N :=
  if b <=? 0x7F then (utf8_init, [b])
  else if (0xC2 <=? b) && (b <=? 0xDF) then
    ({| code_point := N.land b 0x1F; bytes_seen := 0; bytes_needed := 1;
        lower_boundary := 0x80; upper_boundary := 0xBF |}, [])
  else if (0xE0 <=? b) && (b <=? 0xEF) then
    ({| code_point := N.land b 0xF; bytes_seen := 0; bytes_needed := 2;
        lower_boundary := if b =? 0xE0 then 0xA0 else 0x80;
        upper_boundary := if b =? 0xED then 0x9F else 0xBF |}, [])
  else if (0xF0 <=? b) && (b <=? 0xF4) then
    ({| code_point := N.land b 0x7; bytes_seen := 0; bytes_needed := 3;
        lower_boundary := if b =? 0xF0 then 0x90 else 0x80;
        upper_boundary := if b =? 0xF4 then 0x8F else 0xBF |}, [])
  else (utf8_init, [0xFFFD]).

(** One byte through the decoder.  A byte outside the boundaries in the
    middle of a sequence is an error and is then read again as a lead. *)
Definition utf8_handler (st : Utf8State) (b : N) : Utf8State * list N :=
  if bytes_needed st =? 0 then utf8_lead b
  else if negb ((lower_boundary st <=? b) && (b <=? upper_boundary st)) then
    let '(st', out) := utf8_lead b in (st', 0xFFFD :: out)
  else
    let cp := N.lor (N.shiftl (code_point st) 6) (N.land b 0x3F) in
    if bytes_seen st + 1 =? bytes_needed st then (utf8_init, [cp])
    else ({| code_point := cp; bytes_seen := bytes_seen st + 1;
             bytes_needed := bytes_needed st;
             lower_boundary := 0x80; upper_boundary := 0xBF |}, []).

Fixpoint utf8_decode_from (st : Utf8State) (bs : bytes) : list N :=
  match bs with
  | [] => if bytes_needed st =? 0 then [] else [0xFFFD]
  | b :: bs' =>
      let '(st', out) := utf8_handler st (Byte.to_N b) in
      out ++ utf8_decode_from st' bs'
  end.

Definition utf8_decode (bs : bytes) : list N := utf8_decode_from utf8_init bs.

(** [new TextDecoder()] has [ignoreBOM] false: a leading U+FEFF is not
    part of the output. *)
Definition strip_bom (cs : list N) : list N :=
  match cs with
  | c :: rest => if c =? 0xFEFF then rest else cs
  | [] => []
  end.

(** [new TextDecoder().decode(bytes)]. *)
Definition TextDecoder_decode (bs : bytes) : jsstring :=
  of_code_points (strip_bom (utf8_decode bs)).

(** A string literal of the model: the code units of an ASCII string. *)
Fixpoint js (s : string) : jsstring :=
  match s with
  | EmptyString => []
  | String a rest => N_of_ascii a :: js rest
  end.

(** [a === b] on strings. *)
Fixpoint str_eqb (a b : jsstring) : bool :=
  match a, b with
  | [], [] => true
  | x :: a', y :: b' => (x =? y) && str_eqb a' b'
  | _, _ => false
  end.

(** White space and line terminators, as [String.prototype.trim] reads
    them. *)
Definition is_js_space (u : N) : bool :=
  ((0x09 <=? u) && (u <=? 0x0D)) || (u =? 0x20) || (u =? 0xA0) ||
  (u =? 0x1680) || ((0x2000 <=? u) && (u <=? 0x200A)) ||
  (u =? 0x2028) || (u =? 0x2029) || (u =? 0x202F) || (u =? 0x205F) ||
  (u =? 0x3000) || (u =? 0xFEFF).

Fixpoint trimStart (s : jsstring) : jsstring :=
  match s with
  | u :: rest => if is_js_space u then trimStart rest else s
  | [] => []
  end.

Definition trim (s : jsstring) : jsstring :=
  rev (trimStart (rev (trimStart s))).

(** [n.toString(16)] for a non-negative integer below 256. *)
Definition hex_digit (d : N) : N := if d <? 10 then 48 + d else 87 + d.

Definition toString16 (n : N) : jsstring :=
  if n <? 16 then [hex_digit n] else [hex_digit (n / 16); hex_digit (n mod 16)].

(** [s.padStart(2, '0')]. *)
Definition padStart2 (s : jsstring) : jsstring :=
  match s with
  | [] => [48; 48]
  | [d] => [48; d]
  | _ => s
  end.

(** [s.substring(0, n)]. *)
Definition substring0 (n : nat) (s : jsstring) : jsstring := firstn n s.

(** [s.toUpperCase()] on the letters a to z; the strings it is applied to
    here hold hexadecimal digits only. *)
Definition toUpperCase (s : jsstring) : jsstring :=
  map (fun u => if (97 <=? u) && (u <=? 122) then u - 32 else u) s.

End Encoding.
Import Encoding.

(* ================================================================== *)
(** * [Map<string, V>]: keys in insertion order *)

Module JsMap.

Definition t (V : Type) := list (jsstring * V).

Definition empty {V} : t V := [].

Fixpoint get {V} (k : jsstring) (m : t V) : option V :=
  match m with
  | [] => None
  | (k', v) :: rest => if str_eqb k k' then Some v else get k rest
  end.

(** [m.set(k, v)]: a present key keeps its place and takes the new value,
    a new key goes to the end. *)
Fixpoint set {V} (k : jsstring) (v : V) (m : t V) : t V :=
  match m with
  | [] => [(k, v)]
  | (k', v') :: rest =>
      if str_eqb k k' then (k', v) :: rest else (k', v') :: set k v rest
  end.

Definition entries {V} (m : t V) : list (jsstring * V) := m.

Definition keys {V} (m : t V) : list jsstring := map fst m.

Definition size {V} (m : t V) : nat := length m.

End JsMap.

(* ================================================================== *)
(** * Exceptions and the random source *)

Inductive DOMException :=
| InvalidAccessError | OperationError | DataError | SyntaxError.

(** What the functions of [crypto.ts] throw from their [catch] blocks. *)
Inductive JsError :=
| DOM (e : DOMException)
| KeyGenerationFailed   (* generateKeyPair *)
| PublicKeyExportFailed (* exportPublicKey *)
| PublicKeyImportFailed (* importPublicKey *)
| KeyDerivationFailed   (* deriveSharedKey *)
| EncryptionFailed      (* encryptMessage *)
| DecryptionFailed.     (* decryptMessage *)

(** A promise once settled: fulfilled with a value or rejected. *)
Inductive Exn (A : Type) :=
| Ok (a : A)
| Throw (e : JsError).
Arguments Ok {A} a.
Arguments Throw {A} e.

Definition bind {A B} (x : Exn A) (k : A -> Exn B) : Exn B :=
  match x with
  | Ok a => k a
  | Throw e => Throw e
  end.

Notation "x <- e1 ;; e2" := (bind e1 (fun x => e2))
  (at level 61, e1 at next level, right associativity).

(** [try { body } catch (error) { throw new Error(...) }]. *)
Definition rethrow_as {A} (e : JsError) (body : Exn A) : Exn A :=
  match body with
  | Ok a => Ok a
  | Throw _ => Throw e
  end.

(** The bytes the platform's random generator will hand out, in order, the
    number already handed out, and the clock. *)
Record World := {
  entropy : nat -> byte;
  consumed : nat;
  clock : N
}.

(** [crypto.getRandomValues(new Uint8Array(n))]. *)
Definition getRandomValues (n : nat) (w : World) : bytes * World :=
  (map (entropy w) (seq (consumed w) n),
   {| entropy := entropy w; consumed := consumed w + n; clock := clock w |}).

(** [Date.now()]. *)
Definition Date_now (w : World) : N := clock w.

Definition hex2 (b : byte) : jsstring := padStart2 (toString16 (Byte.to_N b)).

(** [crypto.randomUUID()]: sixteen random bytes with the version and
    variant bits of a version 4 UUID, as hexadecimal groups of
    8-4-4-4-12 digits. *)
Definition randomUUID (w : World) : jsstring * World :=
  let '(bs, w') := getRandomValues 16 w in
  let fix_bits i b :=
    if Nat.eqb i 6 then byte_of_N (N.lor (N.land (Byte.to_N b) 0x0F) 0x40)
    else if Nat.eqb i 8 then byte_of_N (N.lor (N.land (Byte.to_N b) 0x3F) 0x80)
    else b in
  let digits i b :=
    (if Nat.eqb i 4 || Nat.eqb i 6 || Nat.eqb i 8 || Nat.eqb i 10
     then [45] else []) ++ hex2 (fix_bits i b) in
  (concat (map (fun ib => digits (fst ib) (snd ib)) (combine (seq 0 16) bs)), w').


(* ================================================================== *)
(** * The Web Cryptography API, as far as [crypto.ts] calls it *)

(** The cryptographic primitives of the platform.  [X25519 k u] is the
    function of RFC 7748 on a scalar and a u-coordinate; [AES_GCM_encrypt
    key iv plaintext] is the ciphertext followed by the 128-bit tag, with
    no additional data; [AES_GCM_decrypt] is [None] when the tag does not
    verify. *)
Class Primitives := {
  X25519 : bytes -> bytes -> bytes;
  AES_GCM_encrypt : bytes -> bytes -> bytes -> bytes;
  AES_GCM_decrypt : bytes -> bytes -> bytes -> option bytes;
  SHA256 : bytes -> bytes
}.

Module WebCrypto.

Inductive KeyType := Public | Private | Secret.

Inductive KeyAlgorithm :=
| Alg_X25519
| Alg_AES_GCM (length : N).

Inductive KeyUsage :=
| encrypt | decrypt | deriveKey | deriveBits | wrapKey | unwrapKey.

(** A [CryptoKey]: the attributes scripts can read and the key material
    behind the handle. *)
Record CryptoKey := {
  type : KeyType;
  algorithm : KeyAlgorithm;
  extractable : bool;
  usages : list KeyUsage;
  key_data : bytes
}.

Definition usage_eqb (a b : KeyUsage) : bool :=
  match a, b with
  | encrypt, encrypt | decrypt, decrypt | deriveKey, deriveKey
  | deriveBits, deriveBits | wrapKey, wrapKey | unwrapKey, unwrapKey => true
  | _, _ => false
  end.

Definition has_usage (u : KeyUsage) (us : list KeyUsage) : bool :=
  existsb (usage_eqb u) us.

Definition only_usages (allowed us : list KeyUsage) : bool :=
  forallb (fun u => has_usage u allowed) us.

Definition is_X25519 (k : CryptoKey) : bool :=
  match algorithm k with Alg_X25519 => true | _ => false end.

Definition is_AES_GCM (k : CryptoKey) : bool :=
  match algorithm k with Alg_AES_GCM _ => true | _ => false end.

Definition is_type (t : KeyType) (k : CryptoKey) : bool :=
  match t, type k with
  | Public, Public | Private, Private | Secret, Secret => true
  | _, _ => false
  end.

Definition is_zero (b : byte) : bool := Byte.to_N b =? 0.

(** The u-coordinate 9 of the base point, in 32 little-endian bytes. *)
Definition base_point : bytes := x09 :: repeat x00 31.

Record CryptoKeyPair := {
  pair_publicKey : CryptoKey;
  pair_privateKey : CryptoKey
}.

Section Subtle.
Context {P : Primitives}.

(** [generateKey({name: 'X25519'}, extractable, usages)]: the private key
    is 32 random bytes, the public key its X25519 image of the base point
    and always extractable. *)
Definition generateKey_X25519 (extractable : bool) (usages : list KeyUsage)
  (w : World) : Exn CryptoKeyPair * World :=
  if negb (only_usages [deriveKey; deriveBits] usages) then (Throw (DOM SyntaxError), w)
  else
    let '(scalar, w') := getRandomValues 32 w in
    match usages with
    | [] => (Throw (DOM SyntaxError), w')
    | _ =>
        (Ok {| pair_publicKey :=
                 {| type := Public; algorithm := Alg_X25519; extractable := true;
                    usages := []; key_data := X25519 scalar base_point |};
               pair_privateKey :=
                 {| type := Private; algorithm := Alg_X25519;
                    extractable := extractable; usages := usages;
                    key_data := scalar |} |}, w')
    end.

(** [exportKey('raw', key)]: refused for a handle that is not extractable,
    and for a key that is not public. *)
Definition exportKey_raw (key : CryptoKey) : Exn bytes :=
  if negb (extractable key) then Throw (DOM InvalidAccessError)
  else if negb (is_type Public key) then Throw (DOM InvalidAccessError)
  else Ok (key_data key).

(** [importKey('raw', keyData, {name: 'X25519'}, extractable, usages)]: a
    public key of 32 bytes, with the [extractable] flag as given. *)
Definition importKey_raw_X25519 (keyData : bytes) (extractable : bool)
  (usages : list KeyUsage) : Exn CryptoKey :=
  match usages with
  | _ :: _ => Throw (DOM SyntaxError)
  | [] =>
      if negb (Nat.eqb (length keyData) 32) then Throw (DOM DataError)
      else Ok {| type := Public; algorithm := Alg_X25519;
                 extractable := extractable; usages := [];
                 key_data := keyData |}
  end.

(** [importKey('raw', keyData, {name: 'AES-GCM'}, extractable, usages)]. *)
Definition importKey_raw_AES_GCM (keyData : bytes) (extractable : bool)
  (usages : list KeyUsage) : Exn CryptoKey :=
  if negb (only_usages [encrypt; decrypt; wrapKey; unwrapKey] usages)
  then Throw (DOM SyntaxError)
  else
    let bits := 8 * N.of_nat (length keyData) in
    if negb ((bits =? 128) || (bits =? 192) || (bits =? 256))
    then Throw (DOM DataError)
    else
      match usages with
      | [] => Throw (DOM SyntaxError)
      | _ => Ok {| type := Secret; algorithm := Alg_AES_GCM bits;
                   extractable := extractable; usages := usages;
                   key_data := keyData |}
      end.

(** The derive-bits operation of X25519: the shared secret, refused when
    it is all zero, cut to [length] bits. *)
Definition deriveBits_X25519 (key publicKey : CryptoKey) (length : N)
  : Exn bytes :=
  if negb (is_type Private key) then Throw (DOM InvalidAccessError)
  else if negb (is_type Public publicKey) then Throw (DOM InvalidAccessError)
  else if negb (is_X25519 publicKey) then Throw (DOM InvalidAccessError)
  else
    let secret := X25519 (key_data key) (key_data publicKey) in
    if forallb is_zero secret then Throw (DOM OperationError)
    else if 8 * N.of_nat (List.length secret) <? length
    then Throw (DOM OperationError)
    else Ok (firstn (N.to_nat (length / 8)) secret).

(** [deriveKey({name: 'X25519', public}, baseKey, {name: 'AES-GCM', length},
    extractable, usages)]: the derived bits are imported as the raw key. *)
Definition deriveKey_X25519_AES_GCM (publicKey baseKey : CryptoKey)
  (length : N) (extractable : bool) (usages : list KeyUsage) : Exn CryptoKey :=
  if negb (is_X25519 baseKey) then Throw (DOM InvalidAccessError)
  else if negb (has_usage deriveKey (WebCrypto.usages baseKey))
  then Throw (DOM InvalidAccessError)
  else
    secret <- deriveBits_X25519 baseKey publicKey length ;;
    importKey_raw_AES_GCM secret extractable usages.

(** [encrypt({name: 'AES-GCM', iv, tagLength: 128}, key, data)].  The
    limit of 2^39 - 256 bytes on the plaintext is left out: the plaintext is
    the UTF-8 encoding of a JavaScript string, which is shorter. *)
Definition encrypt_AES_GCM (iv : bytes) (key : CryptoKey) (data : bytes)
  : Exn bytes :=
  if negb (is_AES_GCM key) then Throw (DOM InvalidAccessError)
  else if negb (has_usage encrypt (usages key)) then Throw (DOM InvalidAccessError)
  else Ok (AES_GCM_encrypt (key_data key) iv data).

(** [decrypt({name: 'AES-GCM', iv, tagLength: 128}, key, data)]: data
    shorter than the tag and data whose tag does not verify are refused
    alike. *)
Definition decrypt_AES_GCM (iv : bytes) (key : CryptoKey) (data : bytes)
  : Exn bytes :=
  if negb (is_AES_GCM key) then Throw (DOM InvalidAccessError)
  else if negb (has_usage decrypt (usages key)) then Throw (DOM InvalidAccessError)
  else if Nat.ltb (length data) 16 then Throw (DOM OperationError)
  else
    match AES_GCM_decrypt (key_data key) iv data with
    | Some plaintext => Ok plaintext
    | None => Throw (DOM OperationError)
    end.

(** [digest('SHA-256', data)]. *)
Definition digest_SHA256 (data : bytes) : bytes := SHA256 data.

End Subtle.

End WebCrypto.
Import WebCrypto.

(* ================================================================== *)
(** * [src/lib/crypto.ts] *)

Record KeyPair := {
  publicKey : CryptoKey;
  privateKey : CryptoKey
}.

Record EncryptedMessage := {
  ciphertext : list N;
  iv : list N
}.

Record SerializablePublicKey := {
  key : list N
}.

Section CryptoTs.
Context {P : Primitives}.

Definition generateKeyPair (w : World) : Exn KeyPair * World :=
  let '(r, w') := generateKey_X25519 true [deriveKey; deriveBits] w in
  (rethrow_as KeyGenerationFailed
     (keyPair <- r ;;
      Ok {| publicKey := pair_publicKey keyPair;
            privateKey := pair_privateKey keyPair |}), w').

Definition exportPublicKey (publicKey : CryptoKey) : Exn SerializablePublicKey :=
  rethrow_as PublicKeyExportFailed
    (exported <- exportKey_raw publicKey ;;
     Ok {| key := Array_from exported |}).

Definition importPublicKey (serializedKey : SerializablePublicKey) : Exn CryptoKey :=
  rethrow_as PublicKeyImportFailed
    (let keyBuffer := Uint8Array_of (key serializedKey) in
     importKey_raw_X25519 keyBuffer false []).

Definition deriveSharedKey (myPrivateKey theirPublicKey : CryptoKey) : Exn CryptoKey :=
  rethrow_as KeyDerivationFailed
    (sharedKey <- deriveKey_X25519_AES_GCM theirPublicKey myPrivateKey 256
                    false [encrypt; decrypt] ;;
     Ok sharedKey).

Definition encryptMessage (message : jsstring) (key : CryptoKey) (w : World)
  : Exn EncryptedMessage * World :=
  let '(iv, w') := getRandomValues 12 w in
  (rethrow_as EncryptionFailed
     (let messageBytes := TextEncoder_encode message in
      ciphertext <- encrypt_AES_GCM iv key messageBytes ;;
      Ok {| ciphertext := Array_from ciphertext; iv := Array_from iv |}), w').

Definition decryptMessage (encryptedMessage : EncryptedMessage) (key : CryptoKey)
  : Exn jsstring :=
  rethrow_as DecryptionFailed
    (let ciphertext := Uint8Array_of (ciphertext encryptedMessage) in
     let iv := Uint8Array_of (iv encryptedMessage) in
     decryptedBytes <- decrypt_AES_GCM iv key ciphertext ;;
     Ok (TextDecoder_decode decryptedBytes)).

Definition generateUserId (w : World) : jsstring * World := randomUUID w.

(** The [catch] block returns the empty string. *)
Definition getPublicKeyFingerprint (publicKey : CryptoKey) : jsstring :=
  match exportKey_raw publicKey with
  | Throw _ => []
  | Ok exported =>
      let hashBuffer := digest_SHA256 exported in
      let hashArray := Array_from hashBuffer in
      let hashHex := concat (map (fun b => padStart2 (toString16 b)) hashArray) in
      toUpperCase (substring0 16 hashHex)
  end.

End CryptoTs.

(* ================================================================== *)
(** * [btoa] and [atob], and the base64 helpers of [crypto.ts] *)

Module Base64.

(** The character of a 6-bit value: A-Z, a-z, 0-9, [+], [/]. *)
Definition alphabet_char (i : N) : N :=
  if i <? 26 then 65 + i
  else if i <? 52 then 97 + (i - 26)
  else if i <? 62 then 48 + (i - 52)
  else if i =? 62 then 43
  else 47.

(** The 6-bit value of a character of the alphabet. *)
Definition alphabet_index (c : N) : option N :=
  if (65 <=? c) && (c <=? 90) then Some (c - 65)
  else if (97 <=? c) && (c <=? 122) then Some (c - 97 + 26)
  else if (48 <=? c) && (c <=? 57) then Some (c - 48 + 52)
  else if c =? 43 then Some 62
  else if c =? 47 then Some 63
  else None.

(** The encoder: three bytes are four characters; one or two bytes left at
    the end are two or three characters, padded with [=] to four. *)
Fixpoint base64_encode (data : list N) : jsstring :=
  match data with
  | [] => []
  | [a] =>
      [alphabet_char (N.shiftr a 2);
       alphabet_char (N.shiftl (N.land a 0x3) 4); 61; 61]
  | [a; b] =>
      [alphabet_char (N.shiftr a 2);
       alphabet_char (N.lor (N.shiftl (N.land a 0x3) 4) (N.shiftr b 4));
       alphabet_char (N.shiftl (N.land b 0xF) 2); 61]
  | a :: b :: c :: rest =>
      alphabet_char (N.shiftr a 2)
        :: alphabet_char (N.lor (N.shiftl (N.land a 0x3) 4) (N.shiftr b 4))
        :: alphabet_char (N.lor (N.shiftl (N.land b 0xF) 2) (N.shiftr c 6))
        :: alphabet_char (N.land c 0x3F)
        :: base64_encode rest
  end.

(** [btoa(data)]: [None] is the [InvalidCharacterError] thrown when a code
    unit is above U+00FF. *)
Definition btoa (data : jsstring) : option jsstring :=
  if forallb (fun u => u <=? 0xFF) data then Some (base64_encode data) else None.

Definition is_ascii_whitespace (c : N) : bool :=
  (c =? 0x09) || (c =? 0x0A) || (c =? 0x0C) || (c =? 0x0D) || (c =? 0x20).

(** When the length is a multiple of four, one or two [=] at the end are
    removed. *)
Definition remove_padding (data : jsstring) : jsstring :=
  if Nat.eqb (Nat.modulo (length data) 4) 0 then
    match rev data with
    | c1 :: c2 :: rest =>
        if c1 =? 61 then if c2 =? 61 then rev rest else rev (c2 :: rest)
        else data
    | _ => data
    end
  else data.

(** The 6-bit values of the characters, when all are of the alphabet. *)
Fixpoint sextets (data : jsstring) : option (list N) :=
  match data with
  | [] => Some []
  | c :: rest =>
      match alphabet_index c, sextets rest with
      | Some i, Some l => Some (i :: l)
      | _, _ => None
      end
  end.

(** Four 6-bit values are three bytes; of 18 bits left at the end the last
    two are dropped, of 12 bits the last four. *)
Fixpoint decode_sextets (l : list N) : list N :=
  match l with
  | a :: b :: c :: d :: rest =>
      let buffer := N.lor (N.shiftl (N.lor (N.shiftl (N.lor (N.shiftl a 6) b) 6) c) 6) d in
      N.shiftr buffer 16 :: N.land (N.shiftr buffer 8) 0xFF :: N.land buffer 0xFF
        :: decode_sextets rest
  | [a; b; c] =>
      let buffer := N.shiftr (N.lor (N.shiftl (N.lor (N.shiftl a 6) b) 6) c) 2 in
      [N.shiftr buffer 8; N.land buffer 0xFF]
  | [a; b] => [N.shiftr (N.lor (N.shiftl a 6) b) 4]
  | _ => []
  end.

(** [atob(data)], the forgiving decoder: [None] is the
    [InvalidCharacterError]. *)
Definition atob (data : jsstring) : option jsstring :=
  let data := filter (fun c => negb (is_ascii_whitespace c)) data in
  let data := remove_padding data in
  if Nat.eqb (Nat.modulo (length data) 4) 1 then None
  else
    match sextets data with
    | None => None
    | Some l => Some (decode_sextets l)
    end.

(** [String.fromCharCode(n)] and [s.charCodeAt(i)] for an index inside the
    string. *)
Definition fromCharCode (n : N) : jsstring := [n mod 0x10000].

Definition charCodeAt (s : jsstring) (i : nat) : N := nth i s 0.

(** [a[i] = v] on a typed array; a write past the end does nothing. *)
Fixpoint store {A} (i : nat) (v : A) (a : list A) : list A :=
  match a, i with
  | [], _ => []
  | _ :: rest, O => v :: rest
  | x :: rest, S j => x :: store j v rest
  end.

End Base64.
Import Base64.

(** The loop appends one character for each byte; [btoa] is not caught. *)
Definition arrayBufferToBase64 (buffer : bytes) : option jsstring :=
  let bytes := buffer in
  let binary :=
    fold_left (fun binary i => binary ++ fromCharCode (Byte.to_N (nth i bytes x00)))
              (seq 0 (length bytes)) [] in
  btoa binary.

(** [atob] is not caught; the loop fills a fresh array of the length of
    the decoded string. *)
Definition base64ToArrayBuffer (base64 : jsstring) : option bytes :=
  match atob base64 with
  | None => None
  | Some binary =>
      let bytes := repeat x00 (length binary) in
      Some (fold_left (fun bytes i => store i (byte_of_N (charCodeAt binary i)) bytes)
                      (seq 0 (length binary)) bytes)
  end.

(* ================================================================== *)
(** * [src/app/room/[id]/page.tsx]: the chat room *)

(** [Message] of the types file: a line of the displayed conversation. *)
Record Message := {
  id : jsstring;
  senderId : jsstring;
  senderNickname : jsstring;
  content : jsstring;
  timestamp : N;
  isOwn : bool
}.

(** The payload of a [public-key] broadcast. *)
Record PublicKeyBroadcast := {
  pk_userId : jsstring;
  pk_nickname : jsstring;
  pk_publicKey : SerializablePublicKey;
  pk_timestamp : N
}.

(** One element of [encryptedMessages]. *)
Record RecipientCiphertext := {
  recipientId : jsstring;
  encrypted : EncryptedMessage
}.

(** The payload of a [message] broadcast, typed [any] in the handler: the
    current format carries [encryptedMessages], the old one a single
    [encrypted]. *)
Record MessagePayload := {
  p_messageId : jsstring;
  p_senderId : jsstring;
  p_senderNickname : jsstring;
  p_encryptedMessages : option (list RecipientCiphertext);
  p_encrypted : option EncryptedMessage;
  p_timestamp : N
}.

Inductive Broadcast :=
| PublicKeyEvent (payload : PublicKeyBroadcast)
| MessageEvent (payload : MessagePayload).

(** What the handlers write to the console. *)
Inductive LogEntry :=
| log_keypair_generated (fingerprint : jsstring)
| log_connected
| log_public_key_received (nickname : jsstring)
| err_keypair_uninitialised
| log_channel_established (nickname : jsstring)
| log_shared_key_count (n : nat)
| log_reply_public_key (nickname : jsstring)
| err_key_exchange_failed (e : JsError)
| warn_no_ciphertext_for_me
| warn_key_not_found (nickname : jsstring)
| log_message_received (nickname : jsstring)
| log_message_received_old_format (nickname : jsstring)
| err_decrypt_failed (e : JsError)
| warn_no_recipients
| log_message_sent (recipients : nat)
| err_send_failed (e : JsError)
| err_join_failed (e : JsError).

Inductive ErrorBanner :=
| nickname_required | nickname_too_long | join_failed | send_failed.

(** The channel made by a call of [handleJoinRoom], with the handlers that
    call registers on it; they close over the exported public key of that
    call. *)
Record Channel := {
  closure_publicKey : SerializablePublicKey
}.

(** The state of the component: React state, refs, and what it has done
    to the outside (broadcasts sent, console lines). *)
Record Room := {
  userId : jsstring;
  nicknameRef : jsstring;
  hasJoined : bool;
  error : option ErrorBanner;
  keyPairRef : option KeyPair;
  sharedKeysRef : JsMap.t CryptoKey;
  sharedKeysVersion : N;
  messages : list Message;
  messageInput : jsstring;
  isSending : bool;
  channelRef : option Channel;
  sent : list Broadcast;
  console : list LogEntry;
  world : World
}.

Definition set_nicknameRef (v : jsstring) (r : Room) : Room :=
  {| userId := userId r; nicknameRef := v; hasJoined := hasJoined r;
     error := error r; keyPairRef := keyPairRef r;
     sharedKeysRef := sharedKeysRef r; sharedKeysVersion := sharedKeysVersion r;
     messages := messages r; messageInput := messageInput r;
     isSending := isSending r; channelRef := channelRef r; sent := sent r;
     console := console r; world := world r |}.

Definition setHasJoined (v : bool) (r : Room) : Room :=
  {| userId := userId r; nicknameRef := nicknameRef r; hasJoined := v;
     error := error r; keyPairRef := keyPairRef r;
     sharedKeysRef := sharedKeysRef r; sharedKeysVersion := sharedKeysVersion r;
     messages := messages r; messageInput := messageInput r;
     isSending := isSending r; channelRef := channelRef r; sent := sent r;
     console := console r; world := world r |}.

Definition setError (v : ErrorBanner) (r : Room) : Room :=
  {| userId := userId r; nicknameRef := nicknameRef r; hasJoined := hasJoined r;
     error := Some v; keyPairRef := keyPairRef r;
     sharedKeysRef := sharedKeysRef r; sharedKeysVersion := sharedKeysVersion r;
     messages := messages r; messageInput := messageInput r;
     isSending := isSending r; channelRef := channelRef r; sent := sent r;
     console := console r; world := world r |}.

Definition set_keyPairRef (v : KeyPair) (r : Room) : Room :=
  {| userId := userId r; nicknameRef := nicknameRef r; hasJoined := hasJoined r;
     error := error r; keyPairRef := Some v;
     sharedKeysRef := sharedKeysRef r; sharedKeysVersion := sharedKeysVersion r;
     messages := messages r; messageInput := messageInput r;
     isSending := isSending r; channelRef := channelRef r; sent := sent r;
     console := console r; world := world r |}.

(** [sharedKeysRef.current.set(k, v); setSharedKeysVersion(v => v + 1)]. *)
Definition sharedKeys_set (k : jsstring) (v : CryptoKey) (r : Room) : Room :=
  {| userId := userId r; nicknameRef := nicknameRef r; hasJoined := hasJoined r;
     error := error r; keyPairRef := keyPairRef r;
     sharedKeysRef := JsMap.set k v (sharedKeysRef r);
     sharedKeysVersion := sharedKeysVersion r + 1;
     messages := messages r; messageInput := messageInput r;
     isSending := isSending r; channelRef := channelRef r; sent := sent r;
     console := console r; world := world r |}.

(** [setMessages((prev) => [...prev, message])]. *)
Definition appendMessage (m : Message) (r : Room) : Room :=
  {| userId := userId r; nicknameRef := nicknameRef r; hasJoined := hasJoined r;
     error := error r; keyPairRef := keyPairRef r;
     sharedKeysRef := sharedKeysRef r; sharedKeysVersion := sharedKeysVersion r;
     messages := messages r ++ [m]; messageInput := messageInput r;
     isSending := isSending r; channelRef := channelRef r; sent := sent r;
     console := console r; world := world r |}.

Definition setMessageInput (v : jsstring) (r : Room) : Room :=
  {| userId := userId r; nicknameRef := nicknameRef r; hasJoined := hasJoined r;
     error := error r; keyPairRef := keyPairRef r;
     sharedKeysRef := sharedKeysRef r; sharedKeysVersion := sharedKeysVersion r;
     messages := messages r; messageInput := v;
     isSending := isSending r; channelRef := channelRef r; sent := sent r;
     console := console r; world := world r |}.

Definition setIsSending (v : bool) (r : Room) : Room :=
  {| userId := userId r; nicknameRef := nicknameRef r; hasJoined := hasJoined r;
     error := error r; keyPairRef := keyPairRef r;
     sharedKeysRef := sharedKeysRef r; sharedKeysVersion := sharedKeysVersion r;
     messages := messages r; messageInput := messageInput r;
     isSending := v; channelRef := channelRef r; sent := sent r;
     console := console r; world := world r |}.

Definition set_channelRef (v : Channel) (r : Room) : Room :=
  {| userId := userId r; nicknameRef := nicknameRef r; hasJoined := hasJoined r;
     error := error r; keyPairRef := keyPairRef r;
     sharedKeysRef := sharedKeysRef r; sharedKeysVersion := sharedKeysVersion r;
     messages := messages r; messageInput := messageInput r;
     isSending := isSending r; channelRef := Some v; sent := sent r;
     console := console r; world := world r |}.

(** [channel.send({type: 'broadcast', ...})]. *)
Definition channel_send (b : Broadcast) (r : Room) : Room :=
  {| userId := userId r; nicknameRef := nicknameRef r; hasJoined := hasJoined r;
     error := error r; keyPairRef := keyPairRef r;
     sharedKeysRef := sharedKeysRef r; sharedKeysVersion := sharedKeysVersion r;
     messages := messages r; messageInput := messageInput r;
     isSending := isSending r; channelRef := channelRef r; sent := sent r ++ [b];
     console := console r; world := world r |}.

Definition console_log (l : LogEntry) (r : Room) : Room :=
  {| userId := userId r; nicknameRef := nicknameRef r; hasJoined := hasJoined r;
     error := error r; keyPairRef := keyPairRef r;
     sharedKeysRef := sharedKeysRef r; sharedKeysVersion := sharedKeysVersion r;
     messages := messages r; messageInput := messageInput r;
     isSending := isSending r; channelRef := channelRef r; sent := sent r;
     console := console r ++ [l]; world := world r |}.

Definition set_world (w : World) (r : Room) : Room :=
  {| userId := userId r; nicknameRef := nicknameRef r; hasJoined := hasJoined r;
     error := error r; keyPairRef := keyPairRef r;
     sharedKeysRef := sharedKeysRef r; sharedKeysVersion := sharedKeysVersion r;
     messages := messages r; messageInput := messageInput r;
     isSending := isSending r; channelRef := channelRef r; sent := sent r;
     console := console r; world := w |}.

(** The component when it mounts: [useState(() => generateUserId())], an
    empty key table, no messages. *)
Definition mount (w : World) : Room :=
  let '(uid, w') := generateUserId w in
  {| userId := uid; nicknameRef := []; hasJoined := false; error := None;
     keyPairRef := None; sharedKeysRef := JsMap.empty; sharedKeysVersion := 0;
     messages := []; messageInput := []; isSending := false;
     channelRef := None; sent := []; console := []; world := w' |}.

Section Handlers.
Context {P : Primitives}.

(** The broadcast of this participant's public key, as sent on subscribing
    and in reply to a first contact. *)
Definition announce (publicKey : SerializablePublicKey) (r : Room) : Room :=
  channel_send
    (PublicKeyEvent {| pk_userId := userId r; pk_nickname := nicknameRef r;
                       pk_publicKey := publicKey;
                       pk_timestamp := Date_now (world r) |}) r.

(** The handler of [public-key] broadcasts; [publicKey] is the constant of
    the enclosing [handleJoinRoom]. *)
Definition on_public_key (publicKey : SerializablePublicKey)
  (payload : PublicKeyBroadcast) (r : Room) : Room :=
  if str_eqb (pk_userId payload) (userId r) then r
  else
    let existingKey := JsMap.get (pk_userId payload) (sharedKeysRef r) in
    let r := console_log (log_public_key_received (pk_nickname payload)) r in
    match importPublicKey (pk_publicKey payload) with
    | Throw e => console_log (err_key_exchange_failed e) r
    | Ok theirPublicKey =>
        match keyPairRef r with
        | None => console_log err_keypair_uninitialised r
        | Some keyPair =>
            match deriveSharedKey (privateKey keyPair) theirPublicKey with
            | Throw e => console_log (err_key_exchange_failed e) r
            | Ok sharedKey =>
                let r := sharedKeys_set (pk_userId payload) sharedKey r in
                let r := console_log (log_channel_established (pk_nickname payload)) r in
                let r := console_log (log_shared_key_count (JsMap.size (sharedKeysRef r))) r in
                match existingKey with
                | None =>
                    let r := console_log (log_reply_public_key (pk_nickname payload)) r in
                    announce publicKey r
                | Some _ => r
                end
            end
        end
    end.

Definition received (payload : MessagePayload) (decryptedContent : jsstring)
  : Message :=
  {| id := p_messageId payload; senderId := p_senderId payload;
     senderNickname := p_senderNickname payload; content := decryptedContent;
     timestamp := p_timestamp payload; isOwn := false |}.

(** The handler of [message] broadcasts. *)
Definition on_message (payload : MessagePayload) (r : Room) : Room :=
  let isOwnMessage := str_eqb (p_senderId payload) (userId r) in
  if isOwnMessage then r
  else
    match p_encryptedMessages payload with
    | Some encryptedMessages =>
        match find (fun msg => str_eqb (recipientId msg) (userId r))
                   encryptedMessages with
        | None => console_log warn_no_ciphertext_for_me r
        | Some myEncryptedMessage =>
            match JsMap.get (p_senderId payload) (sharedKeysRef r) with
            | None => console_log (warn_key_not_found (p_senderNickname payload)) r
            | Some sharedKey =>
                match decryptMessage (encrypted myEncryptedMessage) sharedKey with
                | Throw e => console_log (err_decrypt_failed e) r
                | Ok decryptedContent =>
                    console_log (log_message_received (p_senderNickname payload))
                      (appendMessage (received payload decryptedContent) r)
                end
            end
        end
    | None =>
        match p_encrypted payload with
        | Some encrypted =>
            match JsMap.get (p_senderId payload) (sharedKeysRef r) with
            | None => console_log (warn_key_not_found (p_senderNickname payload)) r
            | Some sharedKey =>
                match decryptMessage encrypted sharedKey with
                | Throw e => console_log (err_decrypt_failed e) r
                | Ok decryptedContent =>
                    console_log
                      (log_message_received_old_format (p_senderNickname payload))
                      (appendMessage (received payload decryptedContent) r)
                end
            end
        | None => r
        end
    end.

(** The loop of [handleSendMessage] over the entries of the key table. *)
Fixpoint encrypt_for_each (messageContent : jsstring)
  (recipientKeys : list (jsstring * CryptoKey)) (w : World)
  : Exn (list RecipientCiphertext) * World :=
  match recipientKeys with
  | [] => (Ok [], w)
  | (recipientId, sharedKey) :: rest =>
      match encryptMessage messageContent sharedKey w with
      | (Throw e, w') => (Throw e, w')
      | (Ok encrypted, w') =>
          match encrypt_for_each messageContent rest w' with
          | (Throw e, w'') => (Throw e, w'')
          | (Ok encryptedMessages, w'') =>
              (Ok ({| recipientId := recipientId; encrypted := encrypted |}
                     :: encryptedMessages), w'')
          end
      end
  end.

Definition handleSendMessage (r : Room) : Room :=
  match trim (messageInput r), channelRef r, isSending r with
  | [], _, _ | _, None, _ | _, _, true => r
  | messageContent, Some _, false =>
      let r := setIsSending true r in
      let r := setMessageInput [] r in
      let '(messageId, w) := randomUUID (world r) in
      let r := set_world w r in
      let timestamp := Date_now (world r) in
      let recipientKeys := JsMap.entries (sharedKeysRef r) in
      let ownMessage :=
        {| id := messageId; senderId := userId r;
           senderNickname := nicknameRef r; content := messageContent;
           timestamp := timestamp; isOwn := true |} in
      let r := appendMessage ownMessage r in
      match recipientKeys with
      | [] => setIsSending false (setIsSending false (console_log warn_no_recipients r))
      | _ =>
          match encrypt_for_each messageContent recipientKeys (world r) with
          | (Throw e, w) =>
              setIsSending false
                (setError send_failed (console_log (err_send_failed e) (set_world w r)))
          | (Ok encryptedMessages, w) =>
              let r := set_world w r in
              let r :=
                channel_send
                  (MessageEvent
                     {| p_messageId := messageId; p_senderId := userId r;
                        p_senderNickname := nicknameRef r;
                        p_encryptedMessages := Some encryptedMessages;
                        p_encrypted := None; p_timestamp := timestamp |}) r in
              setIsSending false
                (console_log (log_message_sent (length recipientKeys)) r)
          end
      end
  end.

(** [handleJoinRoom], up to the call of [channel.subscribe].  The state
    keeps the channel of this call, in [channelRef], and with it the one
    set of handlers [step] runs.  The component removes no handler before
    it unmounts, and the form stays in use until [SUBSCRIBED]: a call made
    after one that came this far would put a second set of handlers beside
    the first, which this state has no place for.  The model is of the
    component joined at most once, [at_most_one_join] below. *)
Definition handleJoinRoom (nickname : jsstring) (r : Room) : Room :=
  match trim nickname with
  | [] => setError nickname_required r
  | trimmed =>
      if Nat.ltb 20 (length trimmed) then setError nickname_too_long r
      else
        let r := set_nicknameRef trimmed r in
        match generateKeyPair (world r) with
        | (Throw e, w) =>
            setError join_failed (console_log (err_join_failed e) (set_world w r))
        | (Ok keys, w) =>
            let r := set_keyPairRef keys (set_world w r) in
            match exportPublicKey (publicKey keys),
                  getPublicKeyFingerprint (publicKey keys) with
            | Throw e, _ => setError join_failed (console_log (err_join_failed e) r)
            | Ok publicKey, fingerprint =>
                let r := console_log (log_keypair_generated fingerprint) r in
                set_channelRef {| closure_publicKey := publicKey |} r
            end
        end
  end.

(** The callback of [channel.subscribe] on status [SUBSCRIBED]. *)
Definition on_subscribed (channel : Channel) (r : Room) : Room :=
  let r := console_log log_connected r in
  let r := announce (closure_publicKey channel) r in
  setHasJoined true r.

(** The events the component reacts to.  A broadcast that comes in runs
    the handlers of the channel in [channelRef], each handler to its end
    before the next event. *)
Inductive Event :=
| Join (nickname : jsstring)
| Subscribed
| Incoming (b : Broadcast)
| Typed (text : jsstring)
| Send.

Definition step (ev : Event) (r : Room) : Room :=
  match ev with
  | Join nickname => handleJoinRoom nickname r
  | Typed text => setMessageInput text r
  | Send => handleSendMessage r
  | Subscribed =>
      match channelRef r with
      | Some channel => on_subscribed channel r
      | None => r
      end
  | Incoming b =>
      match channelRef r with
      | Some channel =>
          match b with
          | PublicKeyEvent payload =>
              on_public_key (closure_publicKey channel) payload r
          | MessageEvent payload => on_message payload r
          end
      | None => r
      end
  end.

Definition run (evs : list Event) (r : Room) : Room :=
  fold_left (fun r ev => step ev r) evs r.

End Handlers.

Definition is_join (ev : Event) : bool :=
  match ev with Join _ => true | _ => false end.

(** The sequences of events with one set of handlers at most: those in
    which [handleJoinRoom] is called once or not at all. *)
Definition at_most_one_join (evs : list Event) : bool :=
  Nat.leb (length (filter is_join evs)) 1.

(* ================================================================== *)
(** * [POST /api/rooms]: the room token *)

(** [s.replace(/c/g, d)] for a single character [c]. *)
Definition replace_all (from to : N) (s : jsstring) : jsstring :=
  map (fun u => if u =? from then to else u) s.

Fixpoint drop_leading (c : N) (s : jsstring) : jsstring :=
  match s with
  | u :: rest => if u =? c then drop_leading c rest else s
  | [] => []
  end.

(** [s.replace(/c+$/, '')]: the run of [c] at the end is removed. *)
Definition strip_trailing (c : N) (s : jsstring) : jsstring :=
  rev (drop_leading c (rev s)).

(** [buffer.toString('base64')] of a Node [Buffer]: base64 with padding. *)
Definition Buffer_toString_base64 (buffer : bytes) : jsstring :=
  base64_encode (Array_from buffer).

(** [randomBytes(n)] of Node's [crypto]: the next bytes of the tape. *)
Definition randomBytes (n : nat) (w : World) : bytes * World := getRandomValues n w.

(** The [roomId] of the handler: the token in base64, made safe for a URL,
    the padding removed. *)
Definition roomId_of (token : bytes) : jsstring :=
  strip_trailing 61
    (replace_all 47 95 (replace_all 43 45 (Buffer_toString_base64 token))).

Definition new_roomId (w : World) : jsstring * World :=
  let '(token, w') := randomBytes 32 w in (roomId_of token, w').

(* ================================================================== *)
(** * [src/app/page.tsx]: joining a room from the home page *)

Module Home.

Inductive ErrorText :=
| no_error           (* '' *)
| create_failed
| room_id_required.

(** The state of the page, and the routes pushed to the router. *)
Record State := {
  isCreating : bool;
  roomId : jsstring;
  error : ErrorText;
  pushed : list jsstring
}.

Definition setError (v : ErrorText) (s : State) : State :=
  {| isCreating := isCreating s; roomId := roomId s; error := v;
     pushed := pushed s |}.

Definition router_push (route : jsstring) (s : State) : State :=
  {| isCreating := isCreating s; roomId := roomId s; error := error s;
     pushed := pushed s ++ [route] |}.

(** The handler of the form: the id typed, trimmed, is the last segment of
    the route. *)
Definition handleJoinRoom (s : State) : State :=
  let s := setError no_error s in
  match trim (roomId s) with
  | [] => setError room_id_required s
  | _ => router_push (js "/room/" ++ trim (roomId s)) s
  end.

End Home.

(* ================================================================== *)
(** * What is assumed of the primitives *)

Section Laws.
Context {P : Primitives}.

(** Diffie-Hellman on Curve25519: both sides compute the same point. *)
Definition X25519_commutes : Prop :=
  forall a b : bytes,
    X25519 a (X25519 b base_point) = X25519 b (X25519 a base_point).

(** The output of X25519 is a 32-byte u-coordinate. *)
Definition X25519_length : Prop :=
  forall k u : bytes, length (X25519 k u) = 32%nat.

(** AES-GCM opens what it sealed, under the same key and nonce. *)
Definition AES_GCM_correct : Prop :=
  forall key iv plaintext : bytes,
    AES_GCM_decrypt key iv (AES_GCM_encrypt key iv plaintext) = Some plaintext.

(** The ciphertext is the plaintext's length plus the 16-byte tag. *)
Definition AES_GCM_tag_length : Prop :=
  forall key iv plaintext : bytes,
    length (AES_GCM_encrypt key iv plaintext) = (length plaintext + 16)%nat.

(** A SHA-256 digest has 32 bytes. *)
Definition SHA256_length : Prop :=
  forall data : bytes, length (SHA256 data) = 32%nat.

End Laws.

(** A key pair as [generateKeyPair] makes them. *)
Definition valid_key_pair {P : Primitives} (kp : KeyPair) : Prop :=
  exists w w', generateKeyPair w = (Ok kp, w').

(** The key pair of a private scalar: the public key is the X25519 image
    of the base point. *)
Definition key_pair_of_scalar {P : Primitives} (scalar : bytes) : KeyPair :=
  {| publicKey :=
       {| type := Public; algorithm := Alg_X25519; extractable := true;
          usages := []; key_data := X25519 scalar base_point |};
     privateKey :=
       {| type := Private; algorithm := Alg_X25519; extractable := true;
          usages := [deriveKey; deriveBits]; key_data := scalar |} |}.

(** [decryptMessage(await encryptMessage(message, key), key)]. *)
Definition round_trip {P : Primitives} (message : jsstring) (key : CryptoKey)
  (w : World) : Exn jsstring :=
  encrypted <- fst (encryptMessage message key w) ;;
  decryptMessage encrypted key.

(** A public key as the peer holds it: the handle [importPublicKey] makes
    of the exported key, not extractable. *)
Definition as_imported (publicKey : CryptoKey) : CryptoKey :=
  {| type := Public; algorithm := Alg_X25519; extractable := false;
     usages := []; key_data := key_data publicKey |}.

(** A key as [deriveSharedKey] makes them. *)
Definition derived_key {P : Primitives} (k : CryptoKey) : Prop :=
  exists myPrivateKey theirPublicKey,
    deriveSharedKey myPrivateKey theirPublicKey = Ok k.

(** The AES-256-GCM handle whose key material is the first 32 bytes of the
    X25519 shared secret. *)
Definition raw_secret_key {P : Primitives} (myPrivateKey theirPublicKey : CryptoKey)
  : CryptoKey :=
  {| type := Secret; algorithm := Alg_AES_GCM 256; extractable := false;
     usages := [encrypt; decrypt];
     key_data :=
       firstn 32 (X25519 (key_data myPrivateKey) (key_data theirPublicKey)) |}.

(** The fingerprint as the specification words it: the first 8 bytes of
    the SHA-256 hash of the raw public key, two upper-case hexadecimal
    digits each. *)
Definition upper_hex_digit (d : N) : N := if d <? 10 then 48 + d else 55 + d.

Definition upper_hex_byte (b : byte) : jsstring :=
  [upper_hex_digit (Byte.to_N b / 16); upper_hex_digit (Byte.to_N b mod 16)].

Definition fingerprint_spec {P : Primitives} (raw : bytes) : jsstring :=
  concat (map upper_hex_byte (firstn 8 (SHA256 raw))).

Definition is_upper_hex (u : N) : bool :=
  ((48 <=? u) && (u <=? 57)) || ((65 <=? u) && (u <=? 70)).

(** The key handles [deriveSharedKey] returns: AES-GCM secrets for
    encryption and decryption. *)
Definition usable_key (k : CryptoKey) : bool :=
  is_AES_GCM k && has_usage encrypt (usages k) && has_usage decrypt (usages k).

(** The invariant of the key table: one entry per peer, none for the
    participant itself, every key usable. *)
Definition table_ok (r : Room) : Prop :=
  NoDup (JsMap.keys (sharedKeysRef r)) /\
  ~ In (userId r) (JsMap.keys (sharedKeysRef r)) /\
  Forall (fun e => usable_key (snd e) = true) (JsMap.entries (sharedKeysRef r)).

(** What a dropped event leaves as it was: the displayed messages, the key
    table, and the broadcasts sent. *)
Definition unchanged (r r' : Room) : Prop :=
  messages r' = messages r /\ sharedKeysRef r' = sharedKeysRef r /\
  sent r' = sent r.

(** What [on_public_key] leaves in the key table: the table as it was, or
    one [set] of the derived key. *)
Definition rekeyed {P : Primitives} (payload : PublicKeyBroadcast) (r : Room)
  : JsMap.t CryptoKey :=
  if str_eqb (pk_userId payload) (userId r) then sharedKeysRef r
  else
    match importPublicKey (pk_publicKey payload), keyPairRef r with
    | Ok theirPublicKey, Some keyPair =>
        match deriveSharedKey (privateKey keyPair) theirPublicKey with
        | Ok sharedKey => JsMap.set (pk_userId payload) sharedKey (sharedKeysRef r)
        | Throw _ => sharedKeysRef r
        end
    | _, _ => sharedKeysRef r
    end.

(** The broadcast that carries this participant's public key. *)
Definition own_announcement (channel : Channel) (r : Room) : Broadcast :=
  PublicKeyEvent
    {| pk_userId := userId r; pk_nickname := nicknameRef r;
       pk_publicKey := closure_publicKey channel;
       pk_timestamp := clock (world r) |}.

(** The sender's own line for the text in the input box, and the broadcast
    that carries its ciphertexts; both bear the id drawn for this send. *)
Definition own_message (r : Room) : Message :=
  {| id := fst (randomUUID (world r)); senderId := userId r;
     senderNickname := nicknameRef r; content := trim (messageInput r);
     timestamp := clock (world r); isOwn := true |}.

Definition outgoing_message (r : Room) (encryptedMessages : list RecipientCiphertext)
  : Broadcast :=
  MessageEvent
    {| p_messageId := fst (randomUUID (world r)); p_senderId := userId r;
       p_senderNickname := nicknameRef r;
       p_encryptedMessages := Some encryptedMessages;
       p_encrypted := None; p_timestamp := clock (world r) |}.

(** The element of [encryptedMessages] for one entry of the key table: the
    entry's peer as recipient, and the content sealed under the entry's key
    with a 12-byte nonce. *)
Definition sealed_for {P : Primitives} (messageContent : jsstring)
  (entry : jsstring * CryptoKey) (msg : RecipientCiphertext) : Prop :=
  recipientId msg = fst entry /\
  exists nonce : bytes,
    length nonce = 12%nat /\
    encrypted msg =
      {| ciphertext :=
           Array_from (AES_GCM_encrypt (key_data (snd entry)) nonce
                         (TextEncoder_encode messageContent));
         iv := Array_from nonce |}.

(* ================================================================== *)
(** * Notions the further properties are stated with *)

(** [s.toWellFormed()]: every lone surrogate replaced by U+FFFD. *)
Definition toWellFormed (s : jsstring) : jsstring :=
  of_code_points (to_scalar_values s).

(** The characters of base64 and of its URL-safe form. *)
Definition is_base64_char (c : N) : bool :=
  match alphabet_index c with Some _ => true | None => false end.

Definition is_url_safe_char (c : N) : bool :=
  ((65 <=? c) && (c <=? 90)) || ((97 <=? c) && (c <=? 122)) ||
  ((48 <=? c) && (c <=? 57)) || (c =? 45) || (c =? 95).

(** A lower-case hexadecimal digit. *)
Definition is_lower_hex (u : N) : bool :=
  ((48 <=? u) && (u <=? 57)) || ((97 <=? u) && (u <=? 102)).

(** The states the UTF-8 decoder is in between two bytes: with no byte
    pending, or with a code point begun whose remaining bytes can only
    complete it to a scalar value of the length announced. *)
Definition utf8_state_ok (st : Utf8State) : Prop :=
  bytes_needed st = 0 \/
  (bytes_needed st = 1 /\ bytes_seen st = 0 /\ 2 <= code_point st <= 31 /\
   lower_boundary st = 0x80 /\ upper_boundary st = 0xBF) \/
  (bytes_needed st = 2 /\ bytes_seen st = 0 /\ code_point st <= 15 /\
   lower_boundary st = (if code_point st =? 0 then 0xA0 else 0x80) /\
   upper_boundary st = (if code_point st =? 13 then 0x9F else 0xBF)) \/
  (bytes_needed st = 2 /\ bytes_seen st = 1 /\ 32 <= code_point st <= 1023 /\
   ~ (864 <= code_point st <= 895) /\
   lower_boundary st = 0x80 /\ upper_boundary st = 0xBF) \/
  (bytes_needed st = 3 /\ bytes_seen st = 0 /\ code_point st <= 4 /\
   lower_boundary st = (if code_point st =? 0 then 0x90 else 0x80) /\
   upper_boundary st = (if code_point st =? 4 then 0x8F else 0xBF)) \/
  (bytes_needed st = 3 /\ bytes_seen st = 1 /\ 16 <= code_point st <= 271 /\
   lower_boundary st = 0x80 /\ upper_boundary st = 0xBF) \/
  (bytes_needed st = 3 /\ bytes_seen st = 2 /\ 1024 <= code_point st <= 17407 /\
   lower_boundary st = 0x80 /\ upper_boundary st = 0xBF).

(** Everything [from] has broadcast so far reaches [to], in order. *)
Definition deliver {P : Primitives} (from to : Room) : Room :=
  run (map Incoming (sent from)) to.

(** A broadcast as a participant [uid] may send it: a key announcement
    under its own id, or a message in the current format under its own id,
    with at least one ciphertext, one per recipient and none for [uid]. *)
Definition addressed_to_peers (uid : jsstring) (b : Broadcast) : Prop :=
  match b with
  | PublicKeyEvent payload => pk_userId payload = uid
  | MessageEvent payload =>
      p_senderId payload = uid /\ p_encrypted payload = None /\
      exists encryptedMessages,
        p_encryptedMessages payload = Some encryptedMessages /\
        encryptedMessages <> [] /\
        NoDup (map recipientId encryptedMessages) /\
        ~ In uid (map recipientId encryptedMessages)
  end.

(** A key announcement of [uid] under [nickname] that carries the public
    key of [keyPair]. *)
Definition announces (uid nickname : jsstring) (keyPair : KeyPair) (b : Broadcast)
  : Prop :=
  match b with
  | PublicKeyEvent payload =>
      pk_userId payload = uid /\ pk_nickname payload = nickname /\
      pk_publicKey payload = {| key := Array_from (key_data (publicKey keyPair)) |}
  | MessageEvent _ => True
  end.

(** The participant after [handleJoinRoom] and the [SUBSCRIBED] callback. *)
Definition joined {P : Primitives} (nickname : jsstring) (w : World) : Room :=
  run [Join nickname; Subscribed] (mount w).

(** A nickname [handleJoinRoom] accepts: not blank, and at most 20 code
    units once trimmed. *)
Definition nickname_ok (nickname : jsstring) : Prop :=
  trim nickname <> [] /\ (length (trim nickname) <= 20)%nat.

(* ================================================================== *)
(** * A model of the primitives

    Small stand-ins with the laws above, to run the handlers on concrete
    inputs: scalar multiplication modulo 2^255 - 19 in place of the curve,
    a keyed tag appended to the plaintext in place of AES-GCM, padding in
    place of SHA-256.  They protect nothing. *)

Module Model.

Fixpoint le_decode (bs : bytes) : N :=
  match bs with
  | [] => 0
  | b :: rest => Byte.to_N b + 256 * le_decode rest
  end.

Fixpoint le_encode (n : nat) (x : N) : bytes :=
  match n with
  | O => []
  | S k => byte_of_N x :: le_encode k (x / 256)
  end.

Definition p25519 : N := 2 ^ 255 - 19.

Definition x25519 (k u : bytes) : bytes :=
  le_encode 32 ((le_decode k * le_decode u) mod p25519).

Fixpoint bytes_eqb (a b : bytes) : bool :=
  match a, b with
  | [], [] => true
  | x :: a', y :: b' => Byte.eqb x y && bytes_eqb a' b'
  | _, _ => false
  end.

Definition tag (key iv : bytes) : bytes :=
  firstn 16 (iv ++ key ++ repeat x00 16).

Definition seal (key iv plaintext : bytes) : bytes :=
  plaintext ++ tag key iv.

Definition open (key iv data : bytes) : option bytes :=
  let n := (length data - 16)%nat in
  if bytes_eqb (skipn n data) (tag key iv) then Some (firstn n data) else None.

Definition sha256 (data : bytes) : bytes :=
  firstn 32 (data ++ repeat x00 32).

#[export] Instance primitives : Primitives := {|
  X25519 := x25519;
  AES_GCM_encrypt := seal;
  AES_GCM_decrypt := open;
  SHA256 := sha256
|}.

(** A random tape: byte [i] is [7 i + 3] modulo 256. *)
Definition tape (i : nat) : byte := byte_of_N (7 * N.of_nat i + 3).

Definition w0 : World := {| entropy := tape; consumed := 0; clock := 1700000000000 |}.

(** A second tape, shifted. *)
Definition w1 : World :=
  {| entropy := fun i => tape (i + 100); consumed := 0; clock := 1700000000500 |}.

(** Two participants; each draws a user id on mounting and then a private
    scalar on joining. *)
Definition alice : KeyPair :=
  key_pair_of_scalar (fst (getRandomValues 32 (snd (randomUUID w0)))).
Definition bob : KeyPair :=
  key_pair_of_scalar (fst (getRandomValues 32 (snd (randomUUID w1)))).

(** The key they share. *)
Definition shared : CryptoKey := raw_secret_key (privateKey alice) (publicKey bob).

(** Bob's public key as Alice holds it after [importPublicKey]. *)
Definition bob_imported : CryptoKey := as_imported (publicKey bob).

(** Both have joined and announced their keys. *)
Definition alice_joined : Room := run [Join (js "Alice"); Subscribed] (mount w0).
Definition bob_joined : Room := run [Join (js " Bob "); Subscribed] (mount w1).

(** The relay hands every broadcast of [from] to [to]. *)
Definition relay (from to : Room) : Room := run (map Incoming (sent from)) to.

(** Alice hears Bob's announcement and answers; Bob hears Alice. *)
Definition alice_keyed : Room := relay bob_joined alice_joined.
Definition bob_keyed : Room := relay alice_keyed bob_joined.

(** Bob types and sends; the relay delivers. *)
Definition bob_sent : Room := run [Typed (js "  hi there "); Send] bob_keyed.
Definition alice_received : Room := relay bob_sent alice_keyed.

(** Bob has typed and not yet sent. *)
Definition bob_typing : Room := run [Typed (js "  hi there ")] bob_keyed.

(** The channels their handlers close over. *)
Definition alice_channel : Channel :=
  {| closure_publicKey := {| key := Array_from (key_data (publicKey alice)) |} |}.
Definition bob_channel : Channel :=
  {| closure_publicKey := {| key := Array_from (key_data (publicKey bob)) |} |}.

(** Bob's announcement and Bob's message, as payloads. *)
Definition bob_announcement : PublicKeyBroadcast :=
  {| pk_userId := userId bob_joined; pk_nickname := js "Bob";
     pk_publicKey := {| key := Array_from (key_data (publicKey bob)) |};
     pk_timestamp := clock w1 |}.

Definition bob_message : MessagePayload :=
  match last (sent bob_sent) (PublicKeyEvent bob_announcement) with
  | MessageEvent payload => payload
  | PublicKeyEvent _ =>
      {| p_messageId := []; p_senderId := []; p_senderNickname := [];
         p_encryptedMessages := None; p_encrypted := None; p_timestamp := 0 |}
  end.

(** Its ciphertexts, and the one for Alice. *)
Definition bob_ciphertexts : list RecipientCiphertext :=
  match p_encryptedMessages bob_message with
  | Some encryptedMessages => encryptedMessages
  | None => []
  end.

Definition bob_ciphertext_for_alice : RecipientCiphertext :=
  hd {| recipientId := []; encrypted := {| ciphertext := []; iv := [] |} |}
     bob_ciphertexts.


(** The message with every byte of each ciphertext changed. *)
Definition tamper (e : EncryptedMessage) : EncryptedMessage :=
  {| ciphertext := map (fun n => (n + 1) mod 256) (ciphertext e); iv := iv e |}.

(** The message with no ciphertext for anyone. *)
Definition bob_message_to_nobody : MessagePayload :=
  {| p_messageId := p_messageId bob_message; p_senderId := p_senderId bob_message;
     p_senderNickname := p_senderNickname bob_message;
     p_encryptedMessages := Some [];
     p_encrypted := None; p_timestamp := p_timestamp bob_message |}.

Definition bob_ciphertext_tampered : RecipientCiphertext :=
  {| recipientId := recipientId bob_ciphertext_for_alice;
     encrypted := tamper (encrypted bob_ciphertext_for_alice) |}.

Definition bob_message_tampered : MessagePayload :=
  {| p_messageId := p_messageId bob_message; p_senderId := p_senderId bob_message;
     p_senderNickname := p_senderNickname bob_message;
     p_encryptedMessages := Some [bob_ciphertext_tampered];
     p_encrypted := None; p_timestamp := p_timestamp bob_message |}.

End Model.

(* ================================================================== *)
(** * Tactics *)

(** [lia] over [N] with division and remainder by constants. *)
Ltac lia_div := zify; Z.to_euclidean_division_equations; lia.

(** The fields of a state after a chain of updates. *)
Ltac room_fields :=
  cbn [userId nicknameRef hasJoined error keyPairRef sharedKeysRef
       sharedKeysVersion messages messageInput isSending channelRef sent
       console world
       set_nicknameRef setHasJoined setError set_keyPairRef sharedKeys_set
       appendMessage setMessageInput setIsSending set_channelRef channel_send
       console_log set_world announce].

(** Case analysis on the comparisons of the goal. *)
Ltac leb_cases :=
  repeat match goal with
  | |- context [?a <=? ?b] => destruct (N.leb_spec a b); try lia
  | |- context [?a <? ?b] => destruct (N.ltb_spec a b); try lia
  | |- context [?a =? ?b] => destruct (N.eqb_spec a b); try lia
  end.

(* ================================================================== *)
(** * Bytes *)

Lemma to_N_lt_256 (b : byte) : Byte.to_N b < 256.
Proof. pose proof (Byte.to_N_bounded b). lia. Qed.

Lemma to_N_byte_of_N (n : N) : n < 256 -> Byte.to_N (byte_of_N n) = n.
Proof.
  intros Hn. unfold byte_of_N. rewrite N.mod_small by exact Hn.
  destruct (Byte.of_N n) as [b|] eqn:E.
  - now apply Byte.to_of_N.
  - apply Byte.of_N_None_iff in E. lia.
Qed.

Lemma byte_of_N_to_N (b : byte) : byte_of_N (Byte.to_N b) = b.
Proof.
  unfold byte_of_N. rewrite N.mod_small by apply to_N_lt_256.
  now rewrite Byte.of_to_N.
Qed.

Lemma Uint8Array_of_Array_from (bs : bytes) : Uint8Array_of (Array_from bs) = bs.
Proof.
  unfold Uint8Array_of, Array_from. rewrite map_map.
  rewrite <- (map_id bs) at 2. apply map_ext. intros; apply byte_of_N_to_N.
Qed.

Lemma lor_disjoint_add (a y n : N) : y < 2 ^ n -> N.lor (N.shiftl a n) y = a * 2 ^ n + y.
Proof.
  intros Hy.
  assert (Hland : N.land (N.shiftl a n) y = 0).
  { apply N.bits_inj. intros m. rewrite N.land_spec, N.bits_0.
    destruct (N.ltb_spec m n).
    - rewrite N.shiftl_spec_low by assumption. reflexivity.
    - rewrite <- (N.mod_small y (2 ^ n)) by assumption.
      rewrite N.mod_pow2_bits_high by assumption. apply andb_false_r. }
  rewrite <- N.lxor_lor by assumption.
  rewrite <- N.add_nocarry_lxor by assumption.
  now rewrite N.shiftl_mul_pow2.
Qed.

(* ================================================================== *)
(** * The UTF-8 decoder undoes the encoder *)

Lemma land_low (x n : N) : N.land x (N.ones n) = x mod 2 ^ n.
Proof. apply N.land_ones. Qed.

Lemma land_0x3F x : N.land x 0x3F = x mod 64.
Proof. exact (land_low x 6). Qed.
Lemma land_0x1F x : N.land x 0x1F = x mod 32.
Proof. exact (land_low x 5). Qed.
Lemma land_0xF x : N.land x 0xF = x mod 16.
Proof. exact (land_low x 4). Qed.
Lemma land_0x7 x : N.land x 0x7 = x mod 8.
Proof. exact (land_low x 3). Qed.
Lemma land_0x3FF x : N.land x 0x3FF = x mod 1024.
Proof. exact (land_low x 10). Qed.

Lemma lor_0x80 y : y < 64 -> N.lor 0x80 y = 128 + y.
Proof.
  intros Hy. change 0x80 with (N.shiftl 2 6).
  rewrite lor_disjoint_add by exact Hy. reflexivity.
Qed.

Lemma utf8_lead_1 b : b <= 0x7F -> utf8_lead b = (utf8_init, [b]).
Proof. intros H. unfold utf8_lead. apply N.leb_le in H. now rewrite H. Qed.

Lemma utf8_lead_2 b :
  0xC2 <= b <= 0xDF ->
  utf8_lead b =
    ({| code_point := b - 0xC0; bytes_seen := 0; bytes_needed := 1;
        lower_boundary := 0x80; upper_boundary := 0xBF |}, []).
Proof.
  intros H. unfold utf8_lead. rewrite land_0x1F.
  replace (b mod 32) with (b - 0xC0) by lia_div.
  leb_cases; reflexivity.
Qed.

Lemma utf8_lead_3 b :
  0xE0 <= b <= 0xEF ->
  utf8_lead b =
    ({| code_point := b - 0xE0; bytes_seen := 0; bytes_needed := 2;
        lower_boundary := if b =? 0xE0 then 0xA0 else 0x80;
        upper_boundary := if b =? 0xED then 0x9F else 0xBF |}, []).
Proof.
  intros H. unfold utf8_lead. rewrite land_0xF.
  replace (b mod 16) with (b - 0xE0) by lia_div.
  destruct (N.leb_spec b 0x7F); try lia.
  destruct (N.leb_spec 0xC2 b); try lia.
  destruct (N.leb_spec b 0xDF); try lia.
  destruct (N.leb_spec 0xE0 b); try lia.
  destruct (N.leb_spec b 0xEF); try lia.
  reflexivity.
Qed.

Lemma utf8_lead_4 b :
  0xF0 <= b <= 0xF4 ->
  utf8_lead b =
    ({| code_point := b - 0xF0; bytes_seen := 0; bytes_needed := 3;
        lower_boundary := if b =? 0xF0 then 0x90 else 0x80;
        upper_boundary := if b =? 0xF4 then 0x8F else 0xBF |}, []).
Proof.
  intros H. unfold utf8_lead. rewrite land_0x7.
  replace (b mod 8) with (b - 0xF0) by lia_div.
  destruct (N.leb_spec b 0x7F); try lia.
  destruct (N.leb_spec 0xC2 b); try lia.
  destruct (N.leb_spec b 0xDF); try lia.
  destruct (N.leb_spec 0xE0 b); try lia.
  destruct (N.leb_spec b 0xEF); try lia.
  destruct (N.leb_spec 0xF0 b); try lia.
  destruct (N.leb_spec b 0xF4); try lia.
  reflexivity.
Qed.

Lemma utf8_continue cp seen needed lo hi b :
  needed <> 0 -> lo <= b <= hi ->
  utf8_handler {| code_point := cp; bytes_seen := seen; bytes_needed := needed;
                  lower_boundary := lo; upper_boundary := hi |} b =
    if seen + 1 =? needed then (utf8_init, [cp * 64 + b mod 64])
    else ({| code_point := cp * 64 + b mod 64; bytes_seen := seen + 1;
             bytes_needed := needed;
             lower_boundary := 0x80; upper_boundary := 0xBF |}, []).
Proof.
  intros Hn Hb. unfold utf8_handler. cbn [bytes_needed lower_boundary upper_boundary code_point bytes_seen].
  destruct (N.eqb_spec needed 0); [contradiction|].
  destruct (N.leb_spec lo b); [|lia].
  destruct (N.leb_spec b hi); [|lia].
  cbn [andb negb].
  rewrite land_0x3F, lor_disjoint_add by (apply N.mod_lt; discriminate).
  reflexivity.
Qed.

Lemma utf8_trail_byte c k :
  Byte.to_N (byte_of_N (N.lor 0x80 (N.land (N.shiftr c k) 0x3F))) =
  128 + (c / 2 ^ k) mod 64.
Proof.
  rewrite land_0x3F, N.shiftr_div_pow2.
  assert ((c / 2 ^ k) mod 64 < 64) by (apply N.mod_lt; discriminate).
  rewrite lor_0x80 by assumption. apply to_N_byte_of_N. lia.
Qed.

Lemma utf8_encode_1 c : c <= 0x7F -> utf8_encode_code_point c = [byte_of_N c].
Proof. intros H. unfold utf8_encode_code_point. leb_cases. reflexivity. Qed.

Lemma utf8_encode_2 c :
  0x7F < c <= 0x7FF ->
  utf8_encode_code_point c =
    [byte_of_N (N.shiftr c 6 + 0xC0);
     byte_of_N (N.lor 0x80 (N.land (N.shiftr c 0) 0x3F))].
Proof. intros H. unfold utf8_encode_code_point. leb_cases. reflexivity. Qed.

Lemma utf8_encode_3 c :
  0x7FF < c <= 0xFFFF ->
  utf8_encode_code_point c =
    [byte_of_N (N.shiftr c 12 + 0xE0);
     byte_of_N (N.lor 0x80 (N.land (N.shiftr c 6) 0x3F));
     byte_of_N (N.lor 0x80 (N.land (N.shiftr c 0) 0x3F))].
Proof. intros H. unfold utf8_encode_code_point. leb_cases. reflexivity. Qed.

Lemma utf8_encode_4 c :
  0xFFFF < c ->
  utf8_encode_code_point c =
    [byte_of_N (N.shiftr c 18 + 0xF0);
     byte_of_N (N.lor 0x80 (N.land (N.shiftr c 12) 0x3F));
     byte_of_N (N.lor 0x80 (N.land (N.shiftr c 6) 0x3F));
     byte_of_N (N.lor 0x80 (N.land (N.shiftr c 0) 0x3F))].
Proof. intros H. unfold utf8_encode_code_point. leb_cases. reflexivity. Qed.

Lemma utf8_decode_lead b bs :
  utf8_decode_from utf8_init (b :: bs) =
  (let '(st, out) := utf8_lead (Byte.to_N b) in out ++ utf8_decode_from st bs).
Proof. reflexivity. Qed.

Lemma utf8_decode_cons st b bs :
  utf8_decode_from st (b :: bs) =
  (let '(st', out) := utf8_handler st (Byte.to_N b) in out ++ utf8_decode_from st' bs).
Proof. reflexivity. Qed.

Lemma decode_encoded_code_point c rest :
  is_scalar c = true ->
  utf8_decode_from utf8_init (utf8_encode_code_point c ++ rest) =
  c :: utf8_decode_from utf8_init rest.
Proof.
  unfold is_scalar, is_surrogate. intros Hc.
  apply andb_true_iff in Hc. destruct Hc as [Hlt Hns].
  apply N.ltb_lt in Hlt. apply negb_true_iff in Hns.
  assert (Hsur : c < 0xD800 \/ 0xDFFF < c).
  { destruct (N.leb_spec 0xD800 c); destruct (N.leb_spec c 0xDFFF);
      cbn in Hns; try discriminate; lia. }
  clear Hns.
  destruct (N.leb_spec c 0x7F) as [H1|H1]; [|
  destruct (N.leb_spec c 0x7FF) as [H2|H2]; [|
  destruct (N.leb_spec c 0xFFFF) as [H3|H3]]].
  - rewrite utf8_encode_1 by assumption. cbn [app].
    rewrite utf8_decode_lead, to_N_byte_of_N by lia.
    rewrite utf8_lead_1 by assumption. reflexivity.
  - rewrite utf8_encode_2 by lia. cbn [app].
    rewrite utf8_decode_lead, N.shiftr_div_pow2. change (2 ^ 6) with 64.
    rewrite to_N_byte_of_N by lia_div.
    rewrite utf8_lead_2 by lia_div. cbn [app].
    rewrite utf8_decode_cons, utf8_trail_byte.
    change (2 ^ 0) with 1. rewrite N.div_1_r.
    rewrite utf8_continue by (try discriminate; lia_div).
    change (0 + 1 =? 1) with true. cbn [app].
    f_equal. lia_div.
  - rewrite utf8_encode_3 by lia. cbn [app].
    rewrite utf8_decode_lead, N.shiftr_div_pow2. change (2 ^ 12) with 4096.
    rewrite to_N_byte_of_N by lia_div.
    rewrite utf8_lead_3 by lia_div. cbn [app].
    rewrite utf8_decode_cons, utf8_trail_byte. change (2 ^ 6) with 64.
    rewrite utf8_continue; [|discriminate|].
    2:{ destruct (N.eqb_spec (c / 4096 + 224) 224);
        destruct (N.eqb_spec (c / 4096 + 224) 237); lia_div. }
    change (0 + 1 =? 2) with false. cbn [app].
    rewrite utf8_decode_cons, utf8_trail_byte.
    change (2 ^ 0) with 1. rewrite N.div_1_r.
    rewrite utf8_continue by (try discriminate; lia_div).
    change (0 + 1 + 1 =? 2) with true. cbn [app].
    f_equal. lia_div.
  - rewrite utf8_encode_4 by lia. cbn [app].
    rewrite utf8_decode_lead, N.shiftr_div_pow2. change (2 ^ 18) with 262144.
    rewrite to_N_byte_of_N by lia_div.
    rewrite utf8_lead_4 by lia_div. cbn [app].
    rewrite utf8_decode_cons, utf8_trail_byte. change (2 ^ 12) with 4096.
    rewrite utf8_continue; [|discriminate|].
    2:{ destruct (N.eqb_spec (c / 262144 + 240) 240);
        destruct (N.eqb_spec (c / 262144 + 240) 244); lia_div. }
    change (0 + 1 =? 3) with false. cbn [app].
    rewrite utf8_decode_cons, utf8_trail_byte. change (2 ^ 6) with 64.
    rewrite utf8_continue by (try discriminate; lia_div).
    change (0 + 1 + 1 =? 3) with false. cbn [app].
    rewrite utf8_decode_cons, utf8_trail_byte.
    change (2 ^ 0) with 1. rewrite N.div_1_r.
    rewrite utf8_continue by (try discriminate; lia_div).
    change (0 + 1 + 1 + 1 =? 3) with true. cbn [app].
    f_equal. lia_div.
Qed.

Lemma utf8_decode_encode (cs : list N) :
  Forall (fun c => is_scalar c = true) cs ->
  utf8_decode (flat_map utf8_encode_code_point cs) = cs.
Proof.
  unfold utf8_decode. induction 1 as [|c cs Hc _ IH]; [reflexivity|].
  cbn [flat_map]. rewrite decode_encoded_code_point by assumption.
  now rewrite IH.
Qed.

Lemma surrogate_pair_scalar u v :
  is_lead u = true -> is_trail v = true ->
  let c := 0x10000 + N.shiftl (u - 0xD800) 10 + (v - 0xDC00) in
  is_scalar c = true /\ code_units_of c = [u; v] /\ c <> 0xFEFF.
Proof.
  unfold is_lead, is_trail. intros Hu Hv.
  apply andb_true_iff in Hu, Hv. destruct Hu as [Hu1 Hu2], Hv as [Hv1 Hv2].
  apply N.leb_le in Hu1, Hu2, Hv1, Hv2.
  cbv zeta. rewrite N.shiftl_mul_pow2. change (2 ^ 10) with 1024.
  repeat split.
  - unfold is_scalar, is_surrogate. leb_cases; reflexivity.
  - unfold code_units_of. leb_cases;
    rewrite N.shiftr_div_pow2, land_0x3FF. change (2 ^ 10) with 1024.
    f_equal; [|f_equal]; lia_div.
  - lia.
Qed.

Lemma bmp_scalar u :
  is_code_unit u = true -> is_lead u = false -> is_trail u = false ->
  is_scalar u = true /\ code_units_of u = [u].
Proof.
  unfold is_code_unit, is_lead, is_trail, is_scalar, is_surrogate, code_units_of.
  intros Hu Hl Ht. apply N.ltb_lt in Hu.
  assert (u < 0xD800 \/ 0xDFFF < u).
  { revert Hl Ht. leb_cases; cbn; intros; try discriminate; lia. }
  split; leb_cases; reflexivity.
Qed.

(** A well-formed string is its scalar values, written back as code units. *)
Lemma well_formed_scalar_values (s : jsstring) :
  isWellFormed s = true ->
  Forall (fun c => is_scalar c = true) (to_scalar_values s) /\
  of_code_points (to_scalar_values s) = s /\
  (hd_error s <> Some 0xFEFF -> hd_error (to_scalar_values s) <> Some 0xFEFF).
Proof.
  remember (length s) as n eqn:Hn. revert s Hn.
  induction n as [n IH] using lt_wf_ind. intros s Hn Hwf.
  destruct s as [|u rest]; [repeat split; [constructor | now cbn [hd_error]] |].
  cbn [isWellFormed] in Hwf. apply andb_true_iff in Hwf. destruct Hwf as [Hcu Hwf].
  cbn [to_scalar_values].
  destruct (is_lead u) eqn:Hl.
  - destruct rest as [|v rest']; [discriminate|].
    apply andb_true_iff in Hwf. destruct Hwf as [Hv Hwf]. rewrite Hv.
    destruct (surrogate_pair_scalar u v Hl Hv) as (Hs & Hunits & Hbom).
    destruct (IH (length rest')) with (s := rest') as (IH1 & IH2 & _);
      [subst n; cbn [length]; lia | reflexivity | assumption |].
    repeat split.
    + constructor; assumption.
    + unfold of_code_points in *. cbn [flat_map]. rewrite Hunits, IH2. reflexivity.
    + cbn [hd_error]. intros _ E. injection E as E. contradiction.
  - apply andb_true_iff in Hwf. destruct Hwf as [Ht Hwf].
    apply negb_true_iff in Ht. rewrite Ht.
    destruct (bmp_scalar u Hcu Hl Ht) as (Hs & Hunits).
    destruct (IH (length rest)) with (s := rest) as (IH1 & IH2 & _);
      [subst n; cbn [length]; lia | reflexivity | assumption |].
    repeat split.
    + constructor; assumption.
    + unfold of_code_points in *. cbn [flat_map]. rewrite Hunits, IH2. reflexivity.
    + cbn [hd_error]. auto.
Qed.

Lemma strip_bom_id (cs : list N) : hd_error cs <> Some 0xFEFF -> strip_bom cs = cs.
Proof.
  destruct cs as [|c cs]; [reflexivity|]. cbn [hd_error strip_bom]. intros H.
  destruct (N.eqb_spec c 0xFEFF); congruence.
Qed.

(** [TextDecoder] undoes [TextEncoder] on a well-formed string that does not
    begin with U+FEFF. *)
Lemma TextDecoder_TextEncoder (s : jsstring) :
  isWellFormed s = true -> hd_error s <> Some 0xFEFF ->
  TextDecoder_decode (TextEncoder_encode s) = s.
Proof.
  intros Hwf Hbom. destruct (well_formed_scalar_values s Hwf) as (Hs & Hback & Hhd).
  unfold TextDecoder_decode, TextEncoder_encode.
  rewrite utf8_decode_encode by assumption.
  rewrite strip_bom_id by auto. assumption.
Qed.

(** A leading U+FEFF does not come back. *)
Lemma TextDecoder_drops_bom (s : jsstring) :
  isWellFormed s = true ->
  TextDecoder_decode (TextEncoder_encode (0xFEFF :: s)) = s.
Proof.
  intros Hwf. destruct (well_formed_scalar_values s Hwf) as (Hs & Hback & Hhd).
  unfold TextDecoder_decode, TextEncoder_encode.
  change (to_scalar_values (0xFEFF :: s)) with (0xFEFF :: to_scalar_values s).
  rewrite utf8_decode_encode by (constructor; [reflexivity | assumption]).
  exact Hback.
Qed.

(* ================================================================== *)
(** * Trimming keeps a string well formed *)


Lemma trimStart_split (s : jsstring) :
  exists spaces,
    s = spaces ++ trimStart s /\ Forall (fun u => is_js_space u = true) spaces.
Proof.
  induction s as [|u s (spaces & E & Hsp)]; [exists []; split; [reflexivity | constructor]|].
  cbn [trimStart]. destruct (is_js_space u) eqn:Hu.
  - exists (u :: spaces). split; [cbn; congruence | constructor; assumption].
  - exists []. split; [reflexivity | constructor].
Qed.

Lemma trimStart_head (s : jsstring) (u : N) (rest : jsstring) :
  trimStart s = u :: rest -> is_js_space u = false.
Proof.
  induction s as [|v s IH]; [discriminate|]. cbn [trimStart].
  destruct (is_js_space v) eqn:Hv; [exact IH|]. intros [= <- _]. exact Hv.
Qed.






(* ================================================================== *)
(** * The model of the primitives has the laws *)

Lemma le_decode_encode (n : nat) (x : N) :
  x < 256 ^ N.of_nat n -> Model.le_decode (Model.le_encode n x) = x.
Proof.
  revert x. induction n as [|n IH]; intros x Hx.
  - cbn in *. lia.
  - cbn [Model.le_encode Model.le_decode].
    rewrite Nat2N.inj_succ, N.pow_succ_r' in Hx.
    rewrite IH by (apply N.Div0.div_lt_upper_bound; lia).
    unfold byte_of_N.
    destruct (Byte.of_N (x mod 256)) as [b|] eqn:E.
    + apply Byte.to_of_N in E. rewrite E. lia_div.
    + apply Byte.of_N_None_iff in E.
      pose proof (N.mod_lt x 256 ltac:(discriminate)). lia.
Qed.

Lemma le_encode_length n x : length (Model.le_encode n x) = n.
Proof. revert x. induction n; intros; cbn; auto. Qed.

Lemma model_X25519_commutes : X25519_commutes (P := Model.primitives).
Proof.
  intros a b. cbn [X25519 Model.primitives]. unfold Model.x25519.
  assert (Hp : forall x, x mod Model.p25519 < 256 ^ N.of_nat 32).
  { intros x. pose proof (N.mod_lt x Model.p25519 ltac:(discriminate)) as H.
    eapply N.lt_trans; [exact H|]. reflexivity. }
  rewrite !le_decode_encode by apply Hp.
  f_equal.
  rewrite !N.Div0.mul_mod_idemp_r. f_equal. lia.
Qed.

Lemma model_X25519_length : X25519_length (P := Model.primitives).
Proof. intros k u. apply le_encode_length. Qed.

Lemma bytes_eqb_refl a : Model.bytes_eqb a a = true.
Proof.
  induction a as [|x a IH]; [reflexivity|]. cbn.
  rewrite IH, andb_true_r. apply Byte.byte_dec_lb. reflexivity.
Qed.

Lemma tag_length key iv : length (Model.tag key iv) = 16%nat.
Proof.
  unfold Model.tag. rewrite length_firstn, !length_app, repeat_length. lia.
Qed.

Lemma model_AES_GCM_tag_length : AES_GCM_tag_length (P := Model.primitives).
Proof.
  intros key iv pt. cbn [AES_GCM_encrypt Model.primitives]. unfold Model.seal.
  now rewrite length_app, tag_length.
Qed.

Lemma model_AES_GCM_correct : AES_GCM_correct (P := Model.primitives).
Proof.
  intros key iv pt. cbn [AES_GCM_encrypt AES_GCM_decrypt Model.primitives].
  unfold Model.seal, Model.open.
  rewrite length_app, tag_length.
  replace (length pt + 16 - 16)%nat with (length pt + 0)%nat by lia.
  rewrite skipn_app, firstn_app, Nat.add_0_r.
  rewrite skipn_all, firstn_all, Nat.sub_diag. cbn [skipn firstn app].
  rewrite bytes_eqb_refl, app_nil_r. reflexivity.
Qed.

Lemma model_SHA256_length : SHA256_length (P := Model.primitives).
Proof.
  intros d. cbn [SHA256 Model.primitives]. unfold Model.sha256.
  rewrite length_firstn, length_app, repeat_length. lia.
Qed.

(* ================================================================== *)
(** * [crypto.ts] *)

Section CryptoFacts.
Context {P : Primitives}.

Lemma Array_from_injective (a b : bytes) : Array_from a = Array_from b -> a = b.
Proof.
  intros H. rewrite <- (Uint8Array_of_Array_from a), <- (Uint8Array_of_Array_from b).
  now rewrite H.
Qed.

Lemma getRandomValues_length n w : length (fst (getRandomValues n w)) = n.
Proof. cbn. now rewrite length_map, length_seq. Qed.

(** [generateKeyPair] draws 32 bytes for the private scalar. *)
Lemma generateKeyPair_shape w :
  generateKeyPair w =
    (Ok (key_pair_of_scalar (fst (getRandomValues 32 w))),
     snd (getRandomValues 32 w)).
Proof. reflexivity. Qed.

Lemma valid_key_pair_scalar (kp : KeyPair) :
  valid_key_pair kp -> exists scalar, kp = key_pair_of_scalar scalar.
Proof.
  intros (w & w' & H). rewrite generateKeyPair_shape in H.
  injection H as H _. eauto.
Qed.

(** What [deriveSharedKey] computes, as one expression. *)
Lemma deriveSharedKey_unfold (priv pub : CryptoKey) :
  deriveSharedKey priv pub =
    if is_X25519 priv && has_usage deriveKey (usages priv) && is_type Private priv
       && is_type Public pub && is_X25519 pub
    then
      let secret := X25519 (key_data priv) (key_data pub) in
      if forallb is_zero secret then Throw KeyDerivationFailed
      else if 8 * N.of_nat (length secret) <? 256 then Throw KeyDerivationFailed
      else rethrow_as KeyDerivationFailed
             (importKey_raw_AES_GCM (firstn 32 secret) false [encrypt; decrypt])
    else Throw KeyDerivationFailed.
Proof.
  unfold deriveSharedKey, deriveKey_X25519_AES_GCM, deriveBits_X25519.
  destruct (is_X25519 priv); [|reflexivity].
  destruct (has_usage deriveKey (usages priv)); [|reflexivity].
  destruct (is_type Private priv); [|reflexivity].
  destruct (is_type Public pub); [|reflexivity].
  destruct (is_X25519 pub); [|reflexivity].
  cbn [andb negb]. cbv zeta.
  destruct (forallb is_zero _); [reflexivity|].
  destruct (_ <? 256); [reflexivity|].
  cbn [bind]. change (N.to_nat (256 / 8)) with 32%nat.
  destruct (importKey_raw_AES_GCM _ _ _); reflexivity.
Qed.

Lemma firstn_32_length (l : bytes) :
  (8 * N.of_nat (length l) <? 256) = false -> length (firstn 32 l) = 32%nat.
Proof. intros H. apply N.ltb_ge in H. rewrite length_firstn. lia. Qed.

Lemma importKey_raw_AES_GCM_256 (keyData : bytes) :
  length keyData = 32%nat ->
  importKey_raw_AES_GCM keyData false [encrypt; decrypt] =
    Ok {| type := Secret; algorithm := Alg_AES_GCM 256; extractable := false;
          usages := [encrypt; decrypt]; key_data := keyData |}.
Proof. intros H. unfold importKey_raw_AES_GCM. rewrite H. reflexivity. Qed.

(** The key [deriveSharedKey] returns. *)
Lemma deriveSharedKey_shape (priv pub K : CryptoKey) :
  deriveSharedKey priv pub = Ok K ->
  K = raw_secret_key priv pub /\ length (key_data K) = 32%nat.
Proof.
  rewrite deriveSharedKey_unfold.
  destruct (_ && _); [|discriminate]. cbv zeta.
  destruct (forallb is_zero _); [discriminate|].
  destruct (_ <? 256) eqn:Hlen; [discriminate|].
  apply firstn_32_length in Hlen.
  rewrite importKey_raw_AES_GCM_256 by assumption. cbn [rethrow_as].
  intros [= <-]. split; [reflexivity | exact Hlen].
Qed.

Lemma derived_key_usable (K : CryptoKey) : derived_key K -> usable_key K = true.
Proof.
  intros (priv & pub & H). apply deriveSharedKey_shape in H.
  destruct H as [-> _]. reflexivity.
Qed.

(** [encryptMessage] under a usable key. *)
Lemma encryptMessage_usable (message : jsstring) (K : CryptoKey) (w : World) :
  usable_key K = true ->
  encryptMessage message K w =
    (let iv := fst (getRandomValues 12 w) in
     Ok {| ciphertext :=
             Array_from (AES_GCM_encrypt (key_data K) iv (TextEncoder_encode message));
           iv := Array_from iv |},
     snd (getRandomValues 12 w)).
Proof.
  unfold usable_key. intros H.
  apply andb_true_iff in H. destruct H as [H Hd].
  apply andb_true_iff in H. destruct H as [Ha He].
  unfold encryptMessage, encrypt_AES_GCM. cbn [getRandomValues fst snd].
  rewrite Ha, He. reflexivity.
Qed.

Lemma decryptMessage_sealed (K : CryptoKey) (nonce plaintext : bytes) :
  AES_GCM_correct -> AES_GCM_tag_length ->
  usable_key K = true ->
  decryptMessage
    {| ciphertext := Array_from (AES_GCM_encrypt (key_data K) nonce plaintext);
       iv := Array_from nonce |} K = Ok (TextDecoder_decode plaintext).
Proof.
  intros Hgcm Htag H. unfold usable_key in H.
  apply andb_true_iff in H. destruct H as [H Hd].
  apply andb_true_iff in H. destruct H as [Ha He].
  unfold decryptMessage, decrypt_AES_GCM. cbn [ciphertext iv].
  rewrite !Uint8Array_of_Array_from, Ha, Hd. cbn [negb].
  rewrite Htag.
  replace (Nat.ltb (length plaintext + 16) 16) with false
    by (symmetry; apply Nat.ltb_ge; lia).
  rewrite Hgcm. reflexivity.
Qed.


(** C1, as the code has it: for every key returned by [deriveSharedKey] and
    every plaintext that is a well-formed string (no unpaired surrogate) and
    does not begin with U+FEFF, encrypting and then decrypting under the
    same key returns the plaintext.  It needs of AES-GCM that it opens what
    it sealed and that the tag adds 16 bytes. *)
Theorem decrypt_encrypt_round_trip :
  AES_GCM_correct -> AES_GCM_tag_length ->
  forall (message : jsstring) (K : CryptoKey) (w : World),
    derived_key K ->
    isWellFormed message = true ->
    hd_error message <> Some 0xFEFF ->
    round_trip message K w = Ok message.
Proof.
  intros Hgcm Htag message K w HK Hwf Hbom.
  apply derived_key_usable in HK. unfold round_trip.
  rewrite encryptMessage_usable by assumption. cbn [fst bind].
  rewrite decryptMessage_sealed by assumption.
  now rewrite TextDecoder_TextEncoder.
Qed.

(** Whatever the primitives, a leading U+FEFF does not come back:
    [TextDecoder] takes it for a byte order mark. *)
Lemma decrypt_encrypt_drops_bom :
  AES_GCM_correct -> AES_GCM_tag_length ->
  forall (message : jsstring) (K : CryptoKey) (w : World),
    derived_key K ->
    isWellFormed message = true ->
    round_trip (0xFEFF :: message) K w = Ok message.
Proof.
  intros Hgcm Htag message K w HK Hwf.
  apply derived_key_usable in HK. unfold round_trip.
  rewrite encryptMessage_usable by assumption. cbn [fst bind].
  rewrite decryptMessage_sealed by assumption.
  now rewrite TextDecoder_drops_bom.
Qed.

(** C2: [encryptMessage] has a message and a key for parameters and no
    nonce.  Under a key that may encrypt, every call returns, and what it
    returns is the message sealed under the 12 bytes the call itself drew
    from the random source, with those 12 bytes beside it as the nonce: the
    nonce of the ciphertext is the nonce returned, and no other.  The
    random source has moved on by 12 bytes, so the call made next draws the
    12 bytes that follow; and two calls that drew different bytes have
    sealed under different nonces and return different nonces. *)
Theorem encryptMessage_fresh_nonce
  (message : jsstring) (key : CryptoKey) (w1 w2 : World) :
  is_AES_GCM key && has_usage encrypt (usages key) = true ->
  let nonce1 := map (entropy w1) (seq (consumed w1) 12) in
  let nonce2 := map (entropy w2) (seq (consumed w2) 12) in
  exists (c1 c2 : EncryptedMessage) (w1' w2' : World),
    encryptMessage message key w1 = (Ok c1, w1') /\
    encryptMessage message key w2 = (Ok c2, w2') /\
    (length nonce1 = 12%nat /\ iv c1 = Array_from nonce1 /\
     ciphertext c1 =
       Array_from (AES_GCM_encrypt (key_data key) nonce1 (TextEncoder_encode message))) /\
    (length nonce2 = 12%nat /\ iv c2 = Array_from nonce2 /\
     ciphertext c2 =
       Array_from (AES_GCM_encrypt (key_data key) nonce2 (TextEncoder_encode message))) /\
    (consumed w1' = (consumed w1 + 12)%nat /\ entropy w1' = entropy w1 /\
     fst (getRandomValues 12 w1') = map (entropy w1) (seq (consumed w1 + 12) 12)) /\
    (nonce1 <> nonce2 ->
     iv c1 <> iv c2 /\ Uint8Array_of (iv c1) <> Uint8Array_of (iv c2)).
Proof.
  intros Hkey nonce1 nonce2.
  apply andb_true_iff in Hkey. destruct Hkey as [Halg Huse].
  unfold encryptMessage, encrypt_AES_GCM. cbn [getRandomValues].
  rewrite Halg, Huse. cbn [negb bind rethrow_as].
  eexists _, _, _, _. split; [reflexivity|]. split; [reflexivity|].
  cbn [iv ciphertext consumed entropy fst].
  fold nonce1 nonce2.
  assert (Hlen : forall w, length (map (entropy w) (seq (consumed w) 12)) = 12%nat).
  { intros w. now rewrite length_map, length_seq. }
  split; [split; [apply Hlen | split; reflexivity]|].
  split; [split; [apply Hlen | split; reflexivity]|].
  split; [repeat split|].
  intros Hne. rewrite !Uint8Array_of_Array_from. split; [|exact Hne].
  intros Heq. apply Hne. now apply Array_from_injective.
Qed.

(** C3, as the code has it: [deriveSharedKey] runs X25519 and imports the
    first 256 bits of the shared secret as the AES-256-GCM key; no key
    derivation function stands between them, so with a 32-byte X25519
    output the key is the raw shared secret itself. *)
Theorem deriveSharedKey_imports_raw_secret (myPrivateKey theirPublicKey K : CryptoKey) :
  deriveSharedKey myPrivateKey theirPublicKey = Ok K ->
  algorithm K = Alg_AES_GCM 256 /\
  length (key_data K) = 32%nat /\
  key_data K = firstn 32 (X25519 (key_data myPrivateKey) (key_data theirPublicKey)) /\
  (X25519_length ->
   key_data K = X25519 (key_data myPrivateKey) (key_data theirPublicKey)).
Proof.
  intros H. apply deriveSharedKey_shape in H. destruct H as [-> Hlen].
  repeat split; [exact Hlen|].
  intros HX. cbn [key_data raw_secret_key]. apply firstn_all2. rewrite HX. lia.
Qed.

(** With the key pairs of two scalars, either side derives what the other
    derives. *)
Lemma deriveSharedKey_of_scalars (a b : bytes) :
  X25519_commutes ->
  deriveSharedKey (privateKey (key_pair_of_scalar a)) (publicKey (key_pair_of_scalar b)) =
  deriveSharedKey (privateKey (key_pair_of_scalar b)) (publicKey (key_pair_of_scalar a)).
Proof.
  intros Hcomm. rewrite !deriveSharedKey_unfold.
  cbn [key_pair_of_scalar privateKey publicKey key_data].
  now rewrite (Hcomm a b).
Qed.

(** The derivation succeeds unless the shared secret is all zero. *)
Lemma deriveSharedKey_succeeds (A B : KeyPair) :
  X25519_length ->
  valid_key_pair A -> valid_key_pair B ->
  forallb is_zero (X25519 (key_data (privateKey A)) (key_data (publicKey B))) = false ->
  deriveSharedKey (privateKey A) (publicKey B) =
    Ok (raw_secret_key (privateKey A) (publicKey B)).
Proof.
  intros Hlen HA HB Hz.
  apply valid_key_pair_scalar in HA, HB.
  destruct HA as [a ->], HB as [b ->].
  rewrite deriveSharedKey_unfold.
  cbn [key_pair_of_scalar privateKey publicKey key_data] in *.
  cbn [is_X25519 algorithm has_usage usages existsb usage_eqb is_type type andb orb].
  cbv zeta. rewrite Hz, Hlen. cbn [N.of_nat].
  change (8 * N.of_nat 32 <? 256) with false. cbv iota.
  rewrite importKey_raw_AES_GCM_256; [reflexivity|].
  rewrite length_firstn, Hlen. reflexivity.
Qed.

(** The derivation throws when the shared secret is all zero. *)
Lemma deriveSharedKey_zero_secret (priv pub : CryptoKey) :
  forallb is_zero (X25519 (key_data priv) (key_data pub)) = true ->
  deriveSharedKey priv pub = Throw KeyDerivationFailed.
Proof.
  intros Hz. rewrite deriveSharedKey_unfold. cbv zeta. rewrite Hz.
  destruct (_ && _); reflexivity.
Qed.

(** C8: for key pairs made by [generateKeyPair], deriving from A's private
    key and B's public key yields a key, and deriving from B's private key
    and A's public key yields that same key: an AES-256-GCM key, not
    extractable, for encryption and decryption, whose key material is the
    X25519 shared secret.  It needs of X25519 that Diffie-Hellman commutes,
    that its output has 32 bytes, and that the shared secret of the two
    pairs is not the all-zero value, which [deriveKey] refuses. *)
Theorem deriveSharedKey_symmetric :
  X25519_commutes -> X25519_length ->
  forall A B : KeyPair,
    valid_key_pair A -> valid_key_pair B ->
    forallb is_zero (X25519 (key_data (privateKey A)) (key_data (publicKey B))) = false ->
    exists K : CryptoKey,
      deriveSharedKey (privateKey A) (publicKey B) = Ok K /\
      deriveSharedKey (privateKey B) (publicKey A) = Ok K /\
      type K = Secret /\ algorithm K = Alg_AES_GCM 256 /\ extractable K = false /\
      usages K = [encrypt; decrypt] /\
      key_data K = X25519 (key_data (privateKey A)) (key_data (publicKey B)) /\
      key_data K = X25519 (key_data (privateKey B)) (key_data (publicKey A)).
Proof.
  intros Hcomm Hlen A B HA HB Hnz.
  pose proof (deriveSharedKey_succeeds Hlen HA HB Hnz) as HAB.
  exists (raw_secret_key (privateKey A) (publicKey B)).
  apply valid_key_pair_scalar in HA, HB.
  destruct HA as [a ->], HB as [b ->].
  split; [exact HAB|].
  split; [rewrite <- (deriveSharedKey_of_scalars a b Hcomm); exact HAB|].
  cbn [raw_secret_key type algorithm extractable usages key_data
       key_pair_of_scalar privateKey publicKey].
  rewrite firstn_all2 by (rewrite Hlen; lia).
  repeat split. apply Hcomm.
Qed.

(** Whatever the shared secret, the two derivations have one outcome: when
    it is all zero both throw. *)
Lemma deriveSharedKey_same_outcome :
  X25519_commutes ->
  forall A B : KeyPair,
    valid_key_pair A -> valid_key_pair B ->
    deriveSharedKey (privateKey A) (publicKey B) =
    deriveSharedKey (privateKey B) (publicKey A).
Proof.
  intros Hcomm A B HA HB.
  apply valid_key_pair_scalar in HA, HB.
  destruct HA as [a ->], HB as [b ->].
  now apply deriveSharedKey_of_scalars.
Qed.

(** A generated public key survives the wire: exported, sent as numbers and
    imported, it is the same point behind a handle that is not
    extractable. *)
Lemma importPublicKey_exportPublicKey (kp : KeyPair) :
  X25519_length -> valid_key_pair kp ->
  exists serialized,
    exportPublicKey (publicKey kp) = Ok serialized /\
    importPublicKey serialized = Ok (as_imported (publicKey kp)).
Proof.
  intros Hlen Hkp. apply valid_key_pair_scalar in Hkp. destruct Hkp as [a ->].
  eexists. split; [reflexivity|].
  unfold importPublicKey, importKey_raw_X25519.
  cbn [key key_pair_of_scalar publicKey key_data].
  rewrite Uint8Array_of_Array_from, Hlen. reflexivity.
Qed.

(** [deriveSharedKey] reads the type, the algorithm and the key material of
    the public key, not its [extractable] flag. *)
Lemma deriveSharedKey_as_imported (priv : CryptoKey) (a : bytes) :
  deriveSharedKey priv (as_imported (publicKey (key_pair_of_scalar a))) =
  deriveSharedKey priv (publicKey (key_pair_of_scalar a)).
Proof. rewrite !deriveSharedKey_unfold. reflexivity. Qed.

(** Two participants who exchange their public keys over the channel derive
    the same key. *)
Lemma key_agreement_over_the_wire (A B : KeyPair) :
  X25519_commutes -> X25519_length ->
  valid_key_pair A -> valid_key_pair B ->
  exists fromA fromB,
    exportPublicKey (publicKey A) = Ok fromA /\
    exportPublicKey (publicKey B) = Ok fromB /\
    importPublicKey fromA = Ok (as_imported (publicKey A)) /\
    importPublicKey fromB = Ok (as_imported (publicKey B)) /\
    deriveSharedKey (privateKey A) (as_imported (publicKey B)) =
    deriveSharedKey (privateKey B) (as_imported (publicKey A)).
Proof.
  intros Hcomm Hlen HA HB.
  destruct (importPublicKey_exportPublicKey Hlen HA) as (fromA & EA & IA).
  destruct (importPublicKey_exportPublicKey Hlen HB) as (fromB & EB & IB).
  exists fromA, fromB. repeat split; try assumption.
  apply valid_key_pair_scalar in HA, HB. destruct HA as [a ->], HB as [b ->].
  rewrite !deriveSharedKey_as_imported.
  now apply deriveSharedKey_of_scalars.
Qed.

End CryptoFacts.

Lemma model_alice_valid : valid_key_pair (P := Model.primitives) Model.alice.
Proof. exists (snd (randomUUID Model.w0)). eexists. reflexivity. Qed.

Lemma model_bob_valid : valid_key_pair (P := Model.primitives) Model.bob.
Proof. exists (snd (randomUUID Model.w1)). eexists. reflexivity. Qed.

Lemma model_shared_derived :
  deriveSharedKey (P := Model.primitives) (privateKey Model.alice) (publicKey Model.bob)
  = Ok Model.shared.
Proof. vm_compute. reflexivity. Qed.

Lemma model_shared_is_derived : derived_key (P := Model.primitives) Model.shared.
Proof. exists (privateKey Model.alice), (publicKey Model.bob). exact model_shared_derived. Qed.


Lemma decrypt_encrypt_round_trip_witness :
  round_trip (P := Model.primitives) (js "hello") Model.shared Model.w0 = Ok (js "hello").
Proof.
  apply (decrypt_encrypt_round_trip (P := Model.primitives)
           model_AES_GCM_correct model_AES_GCM_tag_length).
  - exact model_shared_is_derived.
  - reflexivity.
  - discriminate.
Defined.

(** C1 as stated fails: the three code units U+FEFF, h, i come back as
    h, i. *)
Lemma round_trip_loses_leading_bom :
  round_trip (P := Model.primitives) [0xFEFF; 104; 105] Model.shared Model.w0
  = Ok [104; 105].
Proof. vm_compute. reflexivity. Qed.

(** A lone surrogate comes back as U+FFFD. *)
Lemma round_trip_replaces_lone_surrogate :
  round_trip (P := Model.primitives) [0xD800] Model.shared Model.w0 = Ok [0xFFFD].
Proof. vm_compute. reflexivity. Qed.

Lemma model_shared_may_encrypt :
  is_AES_GCM Model.shared && has_usage encrypt (usages Model.shared) = true.
Proof. reflexivity. Qed.

Lemma model_nonces_differ :
  map (entropy Model.w0) (seq (consumed Model.w0) 12) <>
  map (entropy (snd (getRandomValues 12 Model.w0)))
    (seq (consumed (snd (getRandomValues 12 Model.w0))) 12).
Proof. vm_compute. discriminate. Qed.

Lemma encryptMessage_fresh_nonce_witness :
  exists c1 c2 w1' w2',
    encryptMessage (P := Model.primitives) (js "hello") Model.shared Model.w0 = (Ok c1, w1') /\
    encryptMessage (P := Model.primitives) (js "hello") Model.shared
      (snd (getRandomValues 12 Model.w0)) = (Ok c2, w2') /\
    ciphertext c1 =
      Array_from (@AES_GCM_encrypt Model.primitives (key_data Model.shared)
                    (Uint8Array_of (iv c1)) (TextEncoder_encode (js "hello"))) /\
    ciphertext c2 =
      Array_from (@AES_GCM_encrypt Model.primitives (key_data Model.shared)
                    (Uint8Array_of (iv c2)) (TextEncoder_encode (js "hello"))) /\
    length (iv c1) = 12%nat /\ iv c1 <> iv c2.
Proof.
  destruct (@encryptMessage_fresh_nonce Model.primitives (js "hello") Model.shared
              Model.w0 (snd (getRandomValues 12 Model.w0)) model_shared_may_encrypt)
    as (c1 & c2 & w1' & w2' & E1 & E2 & (Hl1 & Hi1 & Hc1) & (_ & Hi2 & Hc2) & _ & Hne).
  exists c1, c2, w1', w2'.
  split; [exact E1|]. split; [exact E2|].
  split; [rewrite Hi1, Uint8Array_of_Array_from; exact Hc1|].
  split; [rewrite Hi2, Uint8Array_of_Array_from; exact Hc2|].
  split; [rewrite Hi1; unfold Array_from; rewrite length_map; exact Hl1|].
  exact (proj1 (Hne model_nonces_differ)).
Defined.

Lemma deriveSharedKey_imports_raw_secret_witness :
  algorithm Model.shared = Alg_AES_GCM 256 /\
  length (key_data Model.shared) = 32%nat /\
  key_data Model.shared =
    firstn 32 (@X25519 Model.primitives (key_data (privateKey Model.alice))
                 (key_data (publicKey Model.bob))) /\
  (X25519_length (P := Model.primitives) ->
   key_data Model.shared =
     @X25519 Model.primitives (key_data (privateKey Model.alice))
       (key_data (publicKey Model.bob))).
Proof.
  apply (deriveSharedKey_imports_raw_secret (P := Model.primitives)
           (privateKey Model.alice) (publicKey Model.bob)).
  exact model_shared_derived.
Defined.

(** C3 as stated fails: the key material of the derived key is the X25519
    output, byte for byte. *)
Lemma derived_key_is_raw_X25519_output :
  deriveSharedKey (P := Model.primitives) (privateKey Model.alice) (publicKey Model.bob)
    = Ok Model.shared /\
  key_data Model.shared =
    @X25519 Model.primitives (key_data (privateKey Model.alice))
      (key_data (publicKey Model.bob)).
Proof. split; vm_compute; reflexivity. Qed.

Lemma model_secret_not_zero :
  forallb is_zero
    (@X25519 Model.primitives (key_data (privateKey Model.alice))
       (key_data (publicKey Model.bob))) = false.
Proof. vm_compute. reflexivity. Qed.

Lemma deriveSharedKey_symmetric_witness :
  exists K : CryptoKey,
    deriveSharedKey (P := Model.primitives) (privateKey Model.alice) (publicKey Model.bob)
      = Ok K /\
    deriveSharedKey (P := Model.primitives) (privateKey Model.bob) (publicKey Model.alice)
      = Ok K /\
    type K = Secret /\ algorithm K = Alg_AES_GCM 256 /\ extractable K = false /\
    usages K = [encrypt; decrypt] /\
    key_data K =
      @X25519 Model.primitives (key_data (privateKey Model.alice))
        (key_data (publicKey Model.bob)) /\
    key_data K =
      @X25519 Model.primitives (key_data (privateKey Model.bob))
        (key_data (publicKey Model.alice)).
Proof.
  exact (@deriveSharedKey_symmetric Model.primitives model_X25519_commutes
           model_X25519_length Model.alice Model.bob model_alice_valid model_bob_valid
           model_secret_not_zero).
Defined.

Example both_sides_derive_the_shared_key :
  deriveSharedKey (P := Model.primitives) (privateKey Model.bob) (publicKey Model.alice)
    = Ok Model.shared.
Proof. vm_compute. reflexivity. Qed.

(* ================================================================== *)
(** * The fingerprint *)

Lemma hex_pair_length (n : N) : length (padStart2 (toString16 n)) = 2%nat.
Proof. unfold toString16. destruct (n <? 16); reflexivity. Qed.

Lemma firstn_concat_pairs (A B : Type) (f : A -> list B) (k : nat) (l : list A) :
  (forall x, length (f x) = 2%nat) ->
  firstn (2 * k) (concat (map f l)) = concat (map f (firstn k l)).
Proof.
  intros Hf. revert l. induction k as [|k IH]; intros l; [reflexivity|].
  destruct l as [|x l]; [reflexivity|].
  cbn [map concat firstn].
  replace (2 * S k)%nat with (length (f x) + 2 * k)%nat by (rewrite Hf; lia).
  rewrite firstn_app_2, IH. reflexivity.
Qed.

Lemma toUpperCase_concat (ls : list jsstring) :
  toUpperCase (concat ls) = concat (map toUpperCase ls).
Proof. unfold toUpperCase. apply concat_map. Qed.

Lemma upper_hex_digit_of_hex_digit (d : N) :
  d < 16 ->
  (if (97 <=? hex_digit d) && (hex_digit d <=? 122) then hex_digit d - 32
   else hex_digit d) = upper_hex_digit d.
Proof.
  intros Hd. unfold hex_digit, upper_hex_digit.
  destruct (N.ltb_spec d 10); leb_cases; cbn [andb]; lia.
Qed.

Lemma toUpperCase_hex_pair (b : byte) :
  toUpperCase (padStart2 (toString16 (Byte.to_N b))) = upper_hex_byte b.
Proof.
  pose proof (to_N_lt_256 b) as Hb.
  unfold toString16, upper_hex_byte.
  destruct (N.ltb_spec (Byte.to_N b) 16) as [Hlt|Hge].
  - cbn [padStart2 toUpperCase map].
    rewrite upper_hex_digit_of_hex_digit by assumption.
    rewrite N.div_small, N.mod_small by assumption. reflexivity.
  - cbn [padStart2 toUpperCase map].
    rewrite !upper_hex_digit_of_hex_digit by lia_div. reflexivity.
Qed.

Lemma upper_hex_digit_ok (d : N) : d < 16 -> is_upper_hex (upper_hex_digit d) = true.
Proof.
  intros Hd. unfold is_upper_hex, upper_hex_digit.
  destruct (N.ltb_spec d 10); leb_cases; reflexivity.
Qed.

Lemma upper_hex_byte_ok (b : byte) : forallb is_upper_hex (upper_hex_byte b) = true.
Proof.
  pose proof (to_N_lt_256 b) as Hb. unfold upper_hex_byte. cbn [forallb].
  rewrite !upper_hex_digit_ok by lia_div. reflexivity.
Qed.

Section Fingerprint.
Context {P : Primitives}.

(** The code's fingerprint is the specification's, on the exported key. *)
Lemma fingerprint_of_raw (publicKey : CryptoKey) (raw : bytes) :
  exportKey_raw publicKey = Ok raw ->
  getPublicKeyFingerprint publicKey = fingerprint_spec raw.
Proof.
  intros H. unfold getPublicKeyFingerprint, fingerprint_spec. rewrite H.
  unfold substring0, digest_SHA256, Array_from.
  change 16%nat with (2 * 8)%nat.
  rewrite firstn_concat_pairs by apply hex_pair_length.
  rewrite toUpperCase_concat, firstn_map, !map_map.
  f_equal. apply map_ext. intros b. apply toUpperCase_hex_pair.
Qed.

Lemma fingerprint_spec_length (raw : bytes) :
  SHA256_length -> length (fingerprint_spec raw) = 16%nat.
Proof.
  intros Hsha. unfold fingerprint_spec.
  assert (Hl : length (firstn 8 (SHA256 raw)) = 8%nat)
    by (rewrite length_firstn, Hsha; reflexivity).
  revert Hl. generalize (firstn 8 (SHA256 raw)) as l. intros l.
  do 9 (destruct l as [|? l]; try discriminate). reflexivity.
Qed.

Lemma fingerprint_spec_hex (raw : bytes) :
  forallb is_upper_hex (fingerprint_spec raw) = true.
Proof.
  unfold fingerprint_spec. generalize (firstn 8 (SHA256 raw)) as l.
  induction l as [|b l IH]; [reflexivity|].
  cbn [map concat]. rewrite forallb_app, upper_hex_byte_ok, IH. reflexivity.
Qed.

(** C9, as the code has it: for a public key whose handle is extractable
    (the generated key of this participant) the fingerprint is the SHA-256
    hash of the raw key, cut to its first 8 bytes, in upper-case
    hexadecimal: 16 characters, each a hexadecimal digit.  For a handle
    that is not extractable (a peer's key, imported with [extractable]
    false) the export throws and the result is the empty string.  The
    result is a function of the key alone. *)
Theorem getPublicKeyFingerprint_spec (publicKey : CryptoKey) :
  SHA256_length ->
  type publicKey = Public ->
  (extractable publicKey = true ->
     getPublicKeyFingerprint publicKey = fingerprint_spec (key_data publicKey) /\
     length (getPublicKeyFingerprint publicKey) = 16%nat /\
     forallb is_upper_hex (getPublicKeyFingerprint publicKey) = true) /\
  (extractable publicKey = false -> getPublicKeyFingerprint publicKey = []).
Proof.
  intros Hsha Hty. split; intros Hex.
  - assert (E : exportKey_raw publicKey = Ok (key_data publicKey)).
    { unfold exportKey_raw, is_type. rewrite Hex, Hty. reflexivity. }
    rewrite (fingerprint_of_raw _ E).
    auto using fingerprint_spec_length, fingerprint_spec_hex.
  - unfold getPublicKeyFingerprint, exportKey_raw. rewrite Hex. reflexivity.
Qed.

End Fingerprint.

Lemma getPublicKeyFingerprint_spec_witness :
  getPublicKeyFingerprint (P := Model.primitives) (publicKey Model.alice)
    = fingerprint_spec (P := Model.primitives) (key_data (publicKey Model.alice)) /\
  length (getPublicKeyFingerprint (P := Model.primitives) (publicKey Model.alice))
    = 16%nat /\
  forallb is_upper_hex
    (getPublicKeyFingerprint (P := Model.primitives) (publicKey Model.alice)) = true.
Proof.
  exact (proj1 (@getPublicKeyFingerprint_spec Model.primitives (publicKey Model.alice)
                  model_SHA256_length eq_refl) eq_refl).
Defined.

(** C9 as stated fails: Bob's public key as [importPublicKey] returns it
    has the empty string for a fingerprint. *)
Lemma fingerprint_of_imported_key_is_empty :
  importPublicKey
    {| key := Array_from (key_data (publicKey Model.bob)) |} = Ok Model.bob_imported /\
  getPublicKeyFingerprint (P := Model.primitives) Model.bob_imported = [].
Proof. split; vm_compute; reflexivity. Qed.

Example fingerprint_alice :
  getPublicKeyFingerprint (P := Model.primitives) (publicKey Model.alice)
  = js "6A4E8DCC0B4B8AC9".
Proof. vm_compute. reflexivity. Qed.

(* ================================================================== *)
(** * Strings as keys, and the key table *)

Lemma str_eqb_spec (a b : jsstring) : reflect (a = b) (str_eqb a b).
Proof.
  revert b. induction a as [|x a IH]; intros [|y b]; cbn [str_eqb];
    try (constructor; congruence).
  destruct (N.eqb_spec x y) as [->|Hne]; cbn [andb].
  - destruct (IH b) as [->|Hne]; constructor; congruence.
  - constructor; congruence.
Qed.

Lemma str_eqb_refl (a : jsstring) : str_eqb a a = true.
Proof. destruct (str_eqb_spec a a); congruence. Qed.

Lemma str_eqb_neq (a b : jsstring) : a <> b -> str_eqb a b = false.
Proof. destruct (str_eqb_spec a b); congruence. Qed.

Section JsMapFacts.
Variable V : Type.
Implicit Types (m : JsMap.t V) (k : jsstring) (v : V).

Lemma get_None_not_in k m : JsMap.get k m = None <-> ~ In k (JsMap.keys m).
Proof.
  induction m as [|[k' v'] m IH]; cbn [JsMap.get JsMap.keys map fst In].
  - tauto.
  - destruct (str_eqb_spec k k') as [->|Hne].
    + split; [discriminate | intros H; exfalso; apply H; now left].
    + rewrite IH. unfold JsMap.keys. split; [intros H [E|Hin] | intros H Hin].
      * congruence.
      * contradiction.
      * apply H. now right.
Qed.

Lemma keys_set_present k v m :
  In k (JsMap.keys m) -> JsMap.keys (JsMap.set k v m) = JsMap.keys m.
Proof.
  induction m as [|[k' v'] m IH]; cbn [JsMap.set JsMap.keys map fst In]; [tauto|].
  intros Hin. destruct (str_eqb_spec k k') as [->|Hne]; [reflexivity|].
  cbn [map fst]. f_equal. apply IH. destruct Hin as [E|Hin]; [congruence | exact Hin].
Qed.

Lemma keys_set_absent k v m :
  ~ In k (JsMap.keys m) -> JsMap.keys (JsMap.set k v m) = JsMap.keys m ++ [k].
Proof.
  induction m as [|[k' v'] m IH]; cbn [JsMap.set JsMap.keys map fst In app];
    [reflexivity|].
  intros Hin. destruct (str_eqb_spec k k') as [->|Hne]; [tauto|].
  cbn [map fst]. f_equal. apply IH. tauto.
Qed.

Lemma keys_set k v m :
  JsMap.keys (JsMap.set k v m) =
  match JsMap.get k m with Some _ => JsMap.keys m | None => JsMap.keys m ++ [k] end.
Proof.
  destruct (JsMap.get k m) eqn:E.
  - apply keys_set_present.
    destruct (in_dec (list_eq_dec N.eq_dec) k (JsMap.keys m)) as [H|H]; [exact H|].
    apply get_None_not_in in H. congruence.
  - apply keys_set_absent. now apply get_None_not_in.
Qed.

Lemma get_set_same k v m : JsMap.get k (JsMap.set k v m) = Some v.
Proof.
  induction m as [|[k' v'] m IH]; cbn [JsMap.set JsMap.get].
  - now rewrite str_eqb_refl.
  - destruct (str_eqb_spec k k') as [->|Hne]; cbn [JsMap.get].
    + now rewrite str_eqb_refl.
    + now rewrite (str_eqb_neq Hne).
Qed.

Lemma get_set_other k k' v m :
  k' <> k -> JsMap.get k' (JsMap.set k v m) = JsMap.get k' m.
Proof.
  intros Hne. induction m as [|[k0 v0] m IH]; cbn [JsMap.set JsMap.get].
  - now rewrite (str_eqb_neq Hne).
  - destruct (str_eqb_spec k k0) as [->|Hne0]; cbn [JsMap.get].
    + now rewrite (str_eqb_neq Hne).
    + now rewrite IH.
Qed.

(** Setting a key twice to the same value is setting it once. *)
Lemma set_set_same k v m : JsMap.set k v (JsMap.set k v m) = JsMap.set k v m.
Proof.
  induction m as [|[k' v'] m IH]; cbn [JsMap.set].
  - now rewrite str_eqb_refl.
  - destruct (str_eqb_spec k k') as [->|Hne]; cbn [JsMap.set].
    + now rewrite str_eqb_refl.
    + rewrite (str_eqb_neq Hne). now rewrite IH.
Qed.

(** Setting a key to the value it has changes nothing. *)
Lemma set_get_same k v m : JsMap.get k m = Some v -> JsMap.set k v m = m.
Proof.
  induction m as [|[k' v'] m IH]; cbn [JsMap.get JsMap.set]; [discriminate|].
  destruct (str_eqb k k'); [intros [= ->]; reflexivity|].
  intros H. now rewrite IH.
Qed.

Lemma NoDup_keys_set k v m :
  NoDup (JsMap.keys m) -> NoDup (JsMap.keys (JsMap.set k v m)).
Proof.
  intros Hnd. rewrite keys_set. destruct (JsMap.get k m) eqn:E; [exact Hnd|].
  apply get_None_not_in in E.
  apply NoDup_app; [exact Hnd | repeat constructor; intros [] | ].
  intros x Hx [<-|[]]. contradiction.
Qed.

Lemma Forall_set (Q : jsstring * V -> Prop) k v m :
  (forall k', Q (k', v)) -> Forall Q m -> Forall Q (JsMap.set k v m).
Proof.
  intros Hv. induction 1 as [|[k' v'] m Hq Hm IH]; cbn [JsMap.set].
  - repeat constructor. apply Hv.
  - destruct (str_eqb k k'); constructor; auto.
Qed.

End JsMapFacts.

(* ================================================================== *)
(** * The handlers of the room

    Each handler runs to its end before the next event is taken. *)

Section RoomFacts.
Context {P : Primitives}.

(** C4: the handler of incoming messages.  A message of this participant
    itself changes nothing.  A message of another sender that carries
    [encryptedMessages] is dropped when no element is for this participant,
    when one is but no shared key is stored for the sender (the handler
    warns that the key was not found; the state has no queue to keep the
    message in), and when decryption throws: in each case the displayed
    messages, the key table and the broadcasts sent are as before and the
    console has one more line.  The handler is a total function on rooms:
    what the body throws is caught. *)
Theorem on_message_drops (payload : MessagePayload) (r : Room) :
  (p_senderId payload = userId r -> on_message payload r = r) /\
  (p_senderId payload <> userId r ->
   forall encryptedMessages,
     p_encryptedMessages payload = Some encryptedMessages ->
     let r' := on_message payload r in
     ((forall msg, In msg encryptedMessages -> recipientId msg <> userId r) ->
        unchanged r r' /\ console r' = console r ++ [warn_no_ciphertext_for_me]) /\
     (forall myEncryptedMessage,
        find (fun msg => str_eqb (recipientId msg) (userId r)) encryptedMessages
          = Some myEncryptedMessage ->
        (JsMap.get (p_senderId payload) (sharedKeysRef r) = None ->
           unchanged r r' /\
           console r' = console r ++ [warn_key_not_found (p_senderNickname payload)]) /\
        (forall sharedKey e,
           JsMap.get (p_senderId payload) (sharedKeysRef r) = Some sharedKey ->
           decryptMessage (encrypted myEncryptedMessage) sharedKey = Throw e ->
           unchanged r r' /\ console r' = console r ++ [err_decrypt_failed e]))).
Proof.
  split.
  - intros Hown. unfold on_message. now rewrite Hown, str_eqb_refl.
  - intros Hother encryptedMessages Hfmt r'. subst r'. unfold on_message.
    rewrite (str_eqb_neq Hother), Hfmt.
    split.
    + intros Hnone.
      assert (Hfind : find (fun msg => str_eqb (recipientId msg) (userId r))
                        encryptedMessages = None).
      { destruct (find _ encryptedMessages) as [msg|] eqn:E; [|reflexivity].
        apply find_some in E. destruct E as [Hin Heq].
        destruct (str_eqb_spec (recipientId msg) (userId r)); [|discriminate].
        exfalso. eapply Hnone; eauto. }
      rewrite Hfind. repeat split.
    + intros mine Hfind. rewrite Hfind. split.
      * intros Hkey. rewrite Hkey. repeat split.
      * intros sharedKey e Hkey Hdec. rewrite Hkey, Hdec. repeat split.
Qed.


Lemma encrypt_for_each_usable (messageContent : jsstring)
  (recipientKeys : list (jsstring * CryptoKey)) (w : World) :
  Forall (fun e => usable_key (snd e) = true) recipientKeys ->
  exists encryptedMessages w',
    encrypt_for_each messageContent recipientKeys w = (Ok encryptedMessages, w') /\
    clock w' = clock w /\
    Forall2 (sealed_for messageContent) recipientKeys encryptedMessages.
Proof.
  intros Hok. revert w. induction Hok as [|[k K] rest HK _ IH]; intros w.
  - exists [], w. repeat split. constructor.
  - cbn [encrypt_for_each]. cbn [snd] in HK.
    rewrite encryptMessage_usable by assumption. cbv zeta.
    destruct (IH (snd (getRandomValues 12 w))) as (msgs & w' & E & Hclock & Hall).
    rewrite E. eexists _, w'. split; [reflexivity|]. split; [exact Hclock|].
    constructor; [|exact Hall].
    split; [reflexivity|]. eexists. split; [|reflexivity].
    apply getRandomValues_length.
Qed.

(** C5: sending.  When the input box holds text, a channel is open and no
    send is under way, the sender's own line, with the trimmed text as it
    was typed, is appended; with an empty key table nothing is broadcast;
    otherwise one broadcast is made, with the id of the sender's own line,
    and its [encryptedMessages] has one element for each entry of the key
    table, in order, addressed to the entry's peer and sealed under the
    entry's key. *)
Theorem handleSendMessage_fans_out (r : Room) (channel : Channel) :
  table_ok r ->
  channelRef r = Some channel -> isSending r = false ->
  trim (messageInput r) <> [] ->
  let r' := handleSendMessage r in
  messages r' = messages r ++ [own_message r] /\
  content (own_message r) = trim (messageInput r) /\
  (sharedKeysRef r = [] -> sent r' = sent r) /\
  (sharedKeysRef r <> [] ->
   exists encryptedMessages,
     sent r' = sent r ++ [outgoing_message r encryptedMessages] /\
     Forall2 (sealed_for (trim (messageInput r))) (JsMap.entries (sharedKeysRef r))
       encryptedMessages).
Proof.
  intros (_ & _ & Hkeys) Hch Hsending Hinput r'.
  subst r'. unfold handleSendMessage, own_message, outgoing_message.
  rewrite Hch, Hsending.
  destruct (trim (messageInput r)) as [|u content] eqn:Htrim; [congruence|].
  unfold randomUUID. cbn [getRandomValues fst]. cbv zeta.
  cbn [world set_world setMessageInput setIsSending appendMessage sharedKeysRef
       JsMap.entries userId nicknameRef Date_now clock].
  destruct (sharedKeysRef r) as [|entry rest] eqn:Htable.
  - split; [reflexivity|]. split; [reflexivity|]. split; [reflexivity | congruence].
  - destruct (encrypt_for_each_usable (u :: content)
                {| entropy := entropy (world r);
                   consumed := consumed (world r) + 16;
                   clock := clock (world r) |} Hkeys)
      as (msgs & w' & E & _ & Hall).
    unfold JsMap.entries in *. rewrite E.
    split; [reflexivity|]. split; [reflexivity|]. split; [discriminate|].
    intros _. exists msgs. split; [reflexivity | exact Hall].
Qed.

Lemma on_public_key_channel (publicKey : SerializablePublicKey)
  (payload : PublicKeyBroadcast) (r : Room) :
  channelRef (on_public_key publicKey payload r) = channelRef r.
Proof.
  unfold on_public_key.
  repeat match goal with
         | |- context [match ?x with _ => _ end] => destruct x
         end; reflexivity.
Qed.

Lemma on_message_channel (payload : MessagePayload) (r : Room) :
  channelRef (on_message payload r) = channelRef r.
Proof.
  unfold on_message.
  repeat match goal with
         | |- context [match ?x with _ => _ end] => destruct x
         end; reflexivity.
Qed.

Lemma handleSendMessage_channel (r : Room) :
  channelRef (handleSendMessage r) = channelRef r.
Proof.
  unfold handleSendMessage.
  destruct (trim (messageInput r)); [reflexivity|].
  destruct (channelRef r) eqn:E; [|now rewrite E].
  destruct (isSending r); [now rewrite E|].
  unfold randomUUID. cbn [getRandomValues fst]. cbv zeta.
  cbn [world set_world setMessageInput setIsSending appendMessage sharedKeysRef
       JsMap.entries].
  destruct (sharedKeysRef r); [cbn; congruence|].
  destruct (encrypt_for_each _ _ _) as [[msgs|e] w']; cbn; congruence.
Qed.

(** Only [handleJoinRoom] replaces the channel. *)
Lemma step_keeps_channel (ev : Event) (r : Room) :
  is_join ev = false -> channelRef (step ev r) = channelRef r.
Proof.
  destruct ev as [nickname| |[payload|payload]|text|]; cbn [step is_join];
    intros Hev; try discriminate.
  - destruct (channelRef r) eqn:E; [exact E | now rewrite E].
  - destruct (channelRef r) eqn:E; [|now rewrite E].
    rewrite on_public_key_channel. assumption.
  - destruct (channelRef r) eqn:E; [|now rewrite E].
    rewrite on_message_channel. assumption.
  - reflexivity.
  - apply handleSendMessage_channel.
Qed.

Lemma run_keeps_channel (evs : list Event) (r : Room) :
  existsb is_join evs = false -> channelRef (run evs r) = channelRef r.
Proof.
  revert r. induction evs as [|ev evs IH]; intros r Hevs; [reflexivity|].
  cbn [existsb] in Hevs. apply orb_false_iff in Hevs. destruct Hevs as [Hev Hevs].
  cbn [run fold_left]. fold (run evs (step ev r)).
  rewrite IH by assumption. now apply step_keeps_channel.
Qed.
(** C6: a public key announced by another participant, imported and
    derived with success, is answered with this participant's own
    announcement when no key was stored for the peer before, and is not
    answered when one was; the answer carries the public key of the
    channel's closure, the one announced on subscribing, and the channel
    stays the same until the room is joined anew. *)
Theorem reply_exactly_on_first_contact (r : Room) (channel : Channel)
  (payload : PublicKeyBroadcast) (keyPair : KeyPair)
  (theirPublicKey sharedKey : CryptoKey) :
  channelRef r = Some channel ->
  pk_userId payload <> userId r ->
  importPublicKey (pk_publicKey payload) = Ok theirPublicKey ->
  keyPairRef r = Some keyPair ->
  deriveSharedKey (privateKey keyPair) theirPublicKey = Ok sharedKey ->
  let r' := step (Incoming (PublicKeyEvent payload)) r in
  (JsMap.get (pk_userId payload) (sharedKeysRef r) = None ->
     sent r' = sent r ++ [own_announcement channel r]) /\
  (JsMap.get (pk_userId payload) (sharedKeysRef r) <> None -> sent r' = sent r) /\
  sent (step Subscribed r) = sent r ++ [own_announcement channel r] /\
  JsMap.get (pk_userId payload) (sharedKeysRef r') = Some sharedKey /\
  (forall evs : list Event,
     existsb is_join evs = false -> channelRef (run evs r) = Some channel).
Proof.
  intros Hch Hother Himport Hkp Hderive r'. subst r'.
  cbn [step]. rewrite Hch. unfold on_public_key.
  rewrite (str_eqb_neq Hother), Himport.
  cbn [keyPairRef console_log]. rewrite Hkp, Hderive.
  repeat split.
  - intros Hfirst. rewrite Hfirst. reflexivity.
  - intros Hknown.
    destruct (JsMap.get (pk_userId payload) (sharedKeysRef r)); [reflexivity | congruence].
  - destruct (JsMap.get (pk_userId payload) (sharedKeysRef r));
      cbn; apply get_set_same.
  - intros evs Hevs. rewrite run_keeps_channel by assumption. exact Hch.
Qed.


Lemma on_message_table (payload : MessagePayload) (r : Room) :
  sharedKeysRef (on_message payload r) = sharedKeysRef r /\
  userId (on_message payload r) = userId r.
Proof.
  unfold on_message.
  repeat match goal with
         | |- context [match ?x with _ => _ end] => destruct x
         end; split; reflexivity.
Qed.

Lemma handleSendMessage_table (r : Room) :
  sharedKeysRef (handleSendMessage r) = sharedKeysRef r /\
  userId (handleSendMessage r) = userId r.
Proof.
  unfold handleSendMessage.
  destruct (trim (messageInput r)); [split; reflexivity|].
  destruct (channelRef r); [|split; reflexivity].
  destruct (isSending r); [split; reflexivity|].
  unfold randomUUID. cbn [getRandomValues fst]. cbv zeta.
  cbn [world set_world setMessageInput setIsSending appendMessage sharedKeysRef
       JsMap.entries].
  destruct (sharedKeysRef r) eqn:E; [split; cbn; congruence|].
  destruct (encrypt_for_each _ _ _) as [[msgs|e] w']; split; cbn; congruence.
Qed.

Lemma handleJoinRoom_table (nickname : jsstring) (r : Room) :
  sharedKeysRef (handleJoinRoom nickname r) = sharedKeysRef r /\
  userId (handleJoinRoom nickname r) = userId r.
Proof.
  unfold handleJoinRoom.
  destruct (trim nickname); [split; reflexivity|].
  destruct (Nat.ltb _ _); [split; reflexivity|].
  rewrite generateKeyPair_shape.
  destruct (exportPublicKey _); split; reflexivity.
Qed.

Lemma on_public_key_table (publicKey : SerializablePublicKey)
  (payload : PublicKeyBroadcast) (r : Room) :
  userId (on_public_key publicKey payload r) = userId r /\
  keyPairRef (on_public_key publicKey payload r) = keyPairRef r /\
  sharedKeysRef (on_public_key publicKey payload r) = rekeyed payload r.
Proof.
  unfold on_public_key, rekeyed.
  destruct (str_eqb (pk_userId payload) (userId r)); [auto|].
  destruct (importPublicKey (pk_publicKey payload)) as [theirPublicKey|];
    [|cbn; auto].
  cbn [keyPairRef console_log].
  destruct (keyPairRef r) as [keyPair|] eqn:Hkp; [|cbn; auto].
  destruct (deriveSharedKey (privateKey keyPair) theirPublicKey) as [sharedKey|];
    [|cbn; auto].
  destruct (JsMap.get _ _); cbn; auto.
Qed.

Lemma rekeyed_ok (payload : PublicKeyBroadcast) (r : Room) :
  table_ok r ->
  NoDup (JsMap.keys (rekeyed payload r)) /\
  ~ In (userId r) (JsMap.keys (rekeyed payload r)) /\
  Forall (fun e => usable_key (snd e) = true) (rekeyed payload r).
Proof.
  intros (Hnd & Hself & Hkeys). unfold rekeyed.
  destruct (str_eqb_spec (pk_userId payload) (userId r)) as [|Hother]; [auto|].
  destruct (importPublicKey (pk_publicKey payload)) as [theirPublicKey|]; [|auto].
  destruct (keyPairRef r) as [keyPair|]; [|auto].
  destruct (deriveSharedKey (privateKey keyPair) theirPublicKey) as [sharedKey|] eqn:Hd;
    [|auto].
  repeat split.
  - now apply NoDup_keys_set.
  - rewrite keys_set. destruct (JsMap.get _ _); [exact Hself|].
    rewrite in_app_iff. intros [Hin|[E|[]]]; [contradiction | congruence].
  - apply Forall_set; [|exact Hkeys].
    intros k'. cbn [snd]. apply derived_key_usable. red. eauto.
Qed.

Lemma step_preserves_table_ok (ev : Event) (r : Room) :
  table_ok r -> table_ok (step ev r).
Proof.
  intros Hok.
  assert (Hsame : forall r', sharedKeysRef r' = sharedKeysRef r -> userId r' = userId r ->
                             table_ok r').
  { intros r' Ht Hu. unfold table_ok. now rewrite Ht, Hu. }
  destruct ev as [nickname| |[payload|payload]|text|]; cbn [step].
  - apply Hsame; apply handleJoinRoom_table.
  - destruct (channelRef r); [apply Hsame; reflexivity | exact Hok].
  - destruct (channelRef r) as [channel|]; [|exact Hok].
    destruct (on_public_key_table (closure_publicKey channel) payload r)
      as (Hu & _ & Ht).
    unfold table_ok, JsMap.entries. rewrite Ht, Hu. now apply rekeyed_ok.
  - destruct (channelRef r); [|exact Hok].
    apply Hsame; apply on_message_table.
  - apply Hsame; reflexivity.
  - apply Hsame; apply handleSendMessage_table.
Qed.

Lemma mount_table_ok (w : World) : table_ok (mount w).
Proof.
  unfold mount. destruct (generateUserId w) as [uid w'].
  repeat split; cbn; [constructor | tauto | constructor].
Qed.

Lemma run_preserves_table_ok (evs : list Event) (r : Room) :
  table_ok r -> table_ok (run evs r).
Proof.
  revert r. induction evs as [|ev evs IH]; intros r Hok; [exact Hok|].
  cbn [run fold_left]. apply IH. now apply step_preserves_table_ok.
Qed.

(** C7: in every state the component reaches from mounting, the key table
    has at most one entry for a peer and none for the participant itself;
    every event keeps the table well formed; processing the same
    announcement a second time leaves the table as the first time left it;
    and an announcement whose derived key is the one already stored for
    the peer leaves the table as it is: the key is derived anew, equal,
    and set in the same place. *)
Theorem key_table_invariant :
  (forall (w : World) (evs : list Event),
     let r := run evs (mount w) in
     NoDup (JsMap.keys (sharedKeysRef r)) /\
     ~ In (userId r) (JsMap.keys (sharedKeysRef r))) /\
  (forall (ev : Event) (r : Room), table_ok r -> table_ok (step ev r)) /\
  (forall (publicKey : SerializablePublicKey) (payload : PublicKeyBroadcast)
          (r : Room),
     let r1 := on_public_key publicKey payload r in
     let r2 := on_public_key publicKey payload r1 in
     sharedKeysRef r2 = sharedKeysRef r1 /\
     JsMap.get (pk_userId payload) (sharedKeysRef r2)
       = JsMap.get (pk_userId payload) (sharedKeysRef r1)) /\
  (forall (publicKey : SerializablePublicKey) (payload : PublicKeyBroadcast)
          (r : Room) (keyPair : KeyPair) (theirPublicKey sharedKey : CryptoKey),
     importPublicKey (pk_publicKey payload) = Ok theirPublicKey ->
     keyPairRef r = Some keyPair ->
     deriveSharedKey (privateKey keyPair) theirPublicKey = Ok sharedKey ->
     JsMap.get (pk_userId payload) (sharedKeysRef r) = Some sharedKey ->
     sharedKeysRef (on_public_key publicKey payload r) = sharedKeysRef r).
Proof.
  split; [|split; [|split]].
  - intros w evs r.
    destruct (run_preserves_table_ok evs (mount_table_ok w)) as (Hnd & Hself & _).
    split; assumption.
  - exact step_preserves_table_ok.
  - intros publicKey payload r r1 r2.
    assert (E : sharedKeysRef r2 = sharedKeysRef r1); [|now rewrite E].
    subst r1 r2.
    destruct (on_public_key_table publicKey payload r) as (Hu & Hkp & Ht).
    destruct (on_public_key_table publicKey payload
                (on_public_key publicKey payload r)) as (_ & _ & Ht2).
    rewrite Ht2. unfold rekeyed at 1. rewrite Hu, Hkp, Ht. unfold rekeyed.
    destruct (str_eqb (pk_userId payload) (userId r)); [reflexivity|].
    destruct (importPublicKey (pk_publicKey payload)); [|reflexivity].
    destruct (keyPairRef r) as [keyPair|]; [|reflexivity].
    destruct (deriveSharedKey (privateKey keyPair) a); [|reflexivity].
    apply set_set_same.
  - intros publicKey payload r keyPair theirPublicKey sharedKey Hi Hkp Hd Hget.
    destruct (on_public_key_table publicKey payload r) as (_ & _ & ->).
    unfold rekeyed. rewrite Hi, Hkp, Hd.
    destruct (str_eqb (pk_userId payload) (userId r)); [reflexivity|].
    now apply set_get_same.
Qed.

End RoomFacts.


(* ================================================================== *)
(** * From the sender's input box to the receiver's screen *)

Section Delivery.
Context {P : Primitives}.




End Delivery.

(* ================================================================== *)
(** * The handlers on the model: Alice and Bob *)

Lemma model_alice_keyed_ok : table_ok Model.alice_keyed.
Proof.
  unfold Model.alice_keyed, Model.relay, Model.alice_joined.
  do 2 apply (run_preserves_table_ok (P := Model.primitives)).
  apply mount_table_ok.
Qed.

Lemma model_bob_typing_ok : table_ok Model.bob_typing.
Proof.
  unfold Model.bob_typing, Model.bob_keyed, Model.relay, Model.bob_joined.
  do 3 apply (run_preserves_table_ok (P := Model.primitives)).
  apply mount_table_ok.
Qed.

Lemma model_bob_is_not_alice :
  p_senderId Model.bob_message <> userId Model.alice_joined.
Proof. vm_compute. discriminate. Qed.

Lemma model_alice_id_kept : userId Model.alice_keyed = userId Model.alice_joined.
Proof. vm_compute. reflexivity. Qed.

Lemma on_message_drops_witness :
  on_message (P := Model.primitives) Model.bob_message Model.bob_sent = Model.bob_sent /\
  (unchanged Model.alice_keyed
     (on_message (P := Model.primitives) Model.bob_message_to_nobody Model.alice_keyed) /\
   console (on_message (P := Model.primitives) Model.bob_message_to_nobody Model.alice_keyed)
     = console Model.alice_keyed ++ [warn_no_ciphertext_for_me]) /\
  (unchanged Model.alice_joined
     (on_message (P := Model.primitives) Model.bob_message Model.alice_joined) /\
   console (on_message (P := Model.primitives) Model.bob_message Model.alice_joined)
     = console Model.alice_joined
         ++ [warn_key_not_found (p_senderNickname Model.bob_message)]) /\
  (unchanged Model.alice_keyed
     (on_message (P := Model.primitives) Model.bob_message_tampered Model.alice_keyed) /\
   console (on_message (P := Model.primitives) Model.bob_message_tampered Model.alice_keyed)
     = console Model.alice_keyed ++ [err_decrypt_failed DecryptionFailed]).
Proof.
  assert (Hown : p_senderId Model.bob_message = userId Model.bob_sent)
    by (vm_compute; reflexivity).
  assert (Hother : p_senderId Model.bob_message_to_nobody <> userId Model.alice_keyed)
    by (vm_compute; discriminate).
  assert (Hother' : p_senderId Model.bob_message_tampered <> userId Model.alice_keyed)
    by (vm_compute; discriminate).
  assert (Hnobody : p_encryptedMessages Model.bob_message_to_nobody = Some [])
    by reflexivity.
  assert (Hfmt : p_encryptedMessages Model.bob_message = Some Model.bob_ciphertexts)
    by (vm_compute; reflexivity).
  assert (Hfmt' : p_encryptedMessages Model.bob_message_tampered
                  = Some [Model.bob_ciphertext_tampered])
    by reflexivity.
  assert (Hmine : find (fun msg => str_eqb (recipientId msg) (userId Model.alice_joined))
                    Model.bob_ciphertexts = Some Model.bob_ciphertext_for_alice)
    by (vm_compute; reflexivity).
  assert (Hmine' : find (fun msg => str_eqb (recipientId msg) (userId Model.alice_keyed))
                     [Model.bob_ciphertext_tampered] = Some Model.bob_ciphertext_tampered)
    by (vm_compute; reflexivity).
  assert (Hnokey : JsMap.get (p_senderId Model.bob_message)
                     (sharedKeysRef Model.alice_joined) = None)
    by (vm_compute; reflexivity).
  assert (Hkey : JsMap.get (p_senderId Model.bob_message_tampered)
                   (sharedKeysRef Model.alice_keyed) = Some Model.shared)
    by (vm_compute; reflexivity).
  assert (Hfail : decryptMessage (P := Model.primitives)
                    (encrypted Model.bob_ciphertext_tampered) Model.shared
                  = Throw DecryptionFailed)
    by (vm_compute; reflexivity).
  split; [|split; [|split]].
  - exact (proj1 (on_message_drops (P := Model.primitives)
                    Model.bob_message Model.bob_sent) Hown).
  - exact (proj1 (proj2 (on_message_drops (P := Model.primitives)
                           Model.bob_message_to_nobody Model.alice_keyed)
                    Hother [] Hnobody)
             (fun msg (Hin : In msg []) => match Hin with end)).
  - exact (proj1 (proj2 (proj2 (on_message_drops (P := Model.primitives)
                                  Model.bob_message Model.alice_joined)
                           model_bob_is_not_alice Model.bob_ciphertexts Hfmt)
                    Model.bob_ciphertext_for_alice Hmine) Hnokey).
  - exact (proj2 (proj2 (proj2 (on_message_drops (P := Model.primitives)
                                  Model.bob_message_tampered Model.alice_keyed)
                           Hother' [Model.bob_ciphertext_tampered] Hfmt')
                    Model.bob_ciphertext_tampered Hmine')
             Model.shared DecryptionFailed Hkey Hfail).
Defined.


Lemma handleSendMessage_fans_out_witness :
  messages (handleSendMessage (P := Model.primitives) Model.bob_typing)
    = messages Model.bob_typing ++ [own_message Model.bob_typing] /\
  content (own_message Model.bob_typing) = trim (messageInput Model.bob_typing) /\
  exists encryptedMessages,
    sent (handleSendMessage (P := Model.primitives) Model.bob_typing)
      = sent Model.bob_typing ++ [outgoing_message Model.bob_typing encryptedMessages] /\
    Forall2 (sealed_for (P := Model.primitives) (trim (messageInput Model.bob_typing)))
      (JsMap.entries (sharedKeysRef Model.bob_typing)) encryptedMessages.
Proof.
  assert (Hch : channelRef Model.bob_typing = Some Model.bob_channel)
    by (vm_compute; reflexivity).
  assert (Hidle : isSending Model.bob_typing = false) by (vm_compute; reflexivity).
  assert (Htext : trim (messageInput Model.bob_typing) <> [])
    by (vm_compute; discriminate).
  assert (Hpeers : sharedKeysRef Model.bob_typing <> [])
    by (vm_compute; discriminate).
  destruct (handleSendMessage_fans_out (P := Model.primitives)
              model_bob_typing_ok Hch Hidle Htext)
    as (Hown & Hcontent & _ & Hsent).
  exact (conj Hown (conj Hcontent (Hsent Hpeers))).
Defined.

Lemma reply_exactly_on_first_contact_witness :
  sent (step (P := Model.primitives) (Incoming (PublicKeyEvent Model.bob_announcement))
          Model.alice_joined)
    = sent Model.alice_joined ++ [own_announcement Model.alice_channel Model.alice_joined] /\
  sent (step (P := Model.primitives) (Incoming (PublicKeyEvent Model.bob_announcement))
          Model.alice_keyed)
    = sent Model.alice_keyed /\
  sent (step (P := Model.primitives) Subscribed Model.alice_joined)
    = sent Model.alice_joined ++ [own_announcement Model.alice_channel Model.alice_joined].
Proof.
  assert (Hch : channelRef Model.alice_joined = Some Model.alice_channel)
    by (vm_compute; reflexivity).
  assert (Hch' : channelRef Model.alice_keyed = Some Model.alice_channel)
    by (vm_compute; reflexivity).
  assert (Hother : pk_userId Model.bob_announcement <> userId Model.alice_joined)
    by (vm_compute; discriminate).
  assert (Hother' : pk_userId Model.bob_announcement <> userId Model.alice_keyed)
    by (vm_compute; discriminate).
  assert (Himport : importPublicKey (pk_publicKey Model.bob_announcement)
                    = Ok Model.bob_imported)
    by (vm_compute; reflexivity).
  assert (Hkp : keyPairRef Model.alice_joined = Some Model.alice)
    by (vm_compute; reflexivity).
  assert (Hkp' : keyPairRef Model.alice_keyed = Some Model.alice)
    by (vm_compute; reflexivity).
  assert (Hderive : deriveSharedKey (P := Model.primitives)
                      (privateKey Model.alice) Model.bob_imported = Ok Model.shared)
    by (vm_compute; reflexivity).
  assert (Hnew : JsMap.get (pk_userId Model.bob_announcement)
                   (sharedKeysRef Model.alice_joined) = None)
    by (vm_compute; reflexivity).
  assert (Hknown : JsMap.get (pk_userId Model.bob_announcement)
                     (sharedKeysRef Model.alice_keyed) <> None)
    by (vm_compute; discriminate).
  destruct (@reply_exactly_on_first_contact Model.primitives
              Model.alice_joined Model.alice_channel Model.bob_announcement
              Model.alice Model.bob_imported Model.shared
              Hch Hother Himport Hkp Hderive) as (Hfirst & _ & Hsub & _).
  destruct (@reply_exactly_on_first_contact Model.primitives
              Model.alice_keyed Model.alice_channel Model.bob_announcement
              Model.alice Model.bob_imported Model.shared
              Hch' Hother' Himport Hkp' Hderive) as (_ & Hagain & _ & _).
  exact (conj (Hfirst Hnew) (conj (Hagain Hknown) Hsub)).
Defined.

Lemma key_table_invariant_witness :
  table_ok (step (P := Model.primitives) (Incoming (PublicKeyEvent Model.bob_announcement))
              Model.alice_keyed).
Proof.
  exact (proj1 (proj2 (key_table_invariant (P := Model.primitives)))
           (Incoming (PublicKeyEvent Model.bob_announcement)) Model.alice_keyed
           model_alice_keyed_ok).
Defined.

(** ** Scenarios *)


(** After the announcements have settled each holds one key, for the other,
    and it is the same key. *)
Example alice_and_bob_agree :
  sharedKeysRef Model.alice_keyed = [(userId Model.bob_joined, Model.shared)] /\
  sharedKeysRef Model.bob_keyed = [(userId Model.alice_joined, Model.shared)].
Proof. split; vm_compute; reflexivity. Qed.

(** Each announced once on subscribing and once in reply. *)
Example announcements_sent :
  length (sent Model.alice_keyed) = 2%nat /\ length (sent Model.bob_keyed) = 2%nat.
Proof. split; vm_compute; reflexivity. Qed.

(** Processing Bob's announcement again changes neither the table nor the
    broadcasts sent. *)
Example reannouncement_is_idempotent :
  let again :=
    step (P := Model.primitives) (Incoming (PublicKeyEvent Model.bob_announcement))
      Model.alice_keyed in
  sharedKeysRef again = sharedKeysRef Model.alice_keyed /\
  sent again = sent Model.alice_keyed.
Proof. split; vm_compute; reflexivity. Qed.

(** Bob's message reaches Alice as he typed it, trimmed. *)
Example alice_reads_bob :
  map content (messages Model.bob_sent) = [js "hi there"] /\
  map content (messages Model.alice_received) = [js "hi there"] /\
  map isOwn (messages Model.alice_received) = [false].
Proof. repeat split; vm_compute; reflexivity. Qed.

(** A message that arrives before the sender's key is dropped; the same
    message after the key exchange is read. *)
Example message_before_key_exchange :
  messages (on_message (P := Model.primitives) Model.bob_message Model.alice_joined)
    = [] /\
  map content
    (messages (on_message (P := Model.primitives) Model.bob_message Model.alice_keyed))
    = [js "hi there"].
Proof. split; vm_compute; reflexivity. Qed.

(** A public key of the wrong length is dropped and the table stays. *)
Example malformed_public_key_is_dropped :
  sharedKeysRef
    (step (P := Model.primitives)
       (Incoming (PublicKeyEvent
          {| pk_userId := js "mallory"; pk_nickname := js "Mallory";
             pk_publicKey := {| key := [1; 2; 3] |}; pk_timestamp := 0 |}))
       Model.alice_keyed)
  = sharedKeysRef Model.alice_keyed.
Proof. vm_compute. reflexivity. Qed.

(** With nobody else in the room the message is shown and nothing is
    sent. *)
Example send_with_no_recipients :
  let r := run (P := Model.primitives) [Typed (js "hello"); Send] Model.alice_joined in
  map content (messages r) = [js "hello"] /\ sent r = sent Model.alice_joined.
Proof. split; vm_compute; reflexivity. Qed.

(** ** The encoder and decoder on examples *)

Example encode_ascii :
  TextEncoder_encode (js "hi") = [x68; x69]%byte.
Proof. vm_compute. reflexivity. Qed.

Example encode_euro_sign :
  TextEncoder_encode [0x20AC] = [xe2; x82; xac]%byte.
Proof. vm_compute. reflexivity. Qed.

Example encode_surrogate_pair :
  TextEncoder_encode [0xD83D; 0xDD10] = [xf0; x9f; x94; x90]%byte.
Proof. vm_compute. reflexivity. Qed.

Example decode_four_bytes :
  TextDecoder_decode [xf0; x9f; x94; x90]%byte = [0xD83D; 0xDD10].
Proof. vm_compute. reflexivity. Qed.

Example decode_strips_bom :
  TextDecoder_decode [xef; xbb; xbf; x41]%byte = [0x41].
Proof. vm_compute. reflexivity. Qed.

Example decode_truncated_sequence :
  TextDecoder_decode [xe2; x82]%byte = [0xFFFD].
Proof. vm_compute. reflexivity. Qed.

Example trim_is_javascript_trim :
  trim (0xFEFF :: js "  a b  ") = js "a b".
Proof. vm_compute. reflexivity. Qed.

(* ================================================================== *)
(** * Further properties: [crypto.ts] *)

Lemma Array_from_bytes (bs : bytes) : Forall (fun u => u < 256) (Array_from bs).
Proof.
  unfold Array_from. apply Forall_map, Forall_forall. intros b _. apply to_N_lt_256.
Qed.

(** Only the residue modulo 256 of a number reaches a [Uint8Array]. *)
Lemma Uint8Array_of_mod (ns : list N) :
  Uint8Array_of (map (fun n => n mod 256) ns) = Uint8Array_of ns.
Proof.
  unfold Uint8Array_of. rewrite map_map. apply map_ext.
  intros n. unfold byte_of_N. now rewrite N.Div0.mod_mod.
Qed.

(* ================================================================== *)
(** * Keys on the wire *)

Section KeysOnTheWire.
Context {P : Primitives}.

(** X1: an extractable public key of 32 bytes goes over the wire as 32
    numbers below 256, and comes back as a handle on the same bytes that
    is not extractable. *)
Theorem exportPublicKey_importPublicKey (publicKey : CryptoKey) :
  type publicKey = Public -> extractable publicKey = true ->
  length (key_data publicKey) = 32%nat ->
  exists serialized,
    exportPublicKey publicKey = Ok serialized /\
    length (key serialized) = 32%nat /\
    Forall (fun n => n < 256) (key serialized) /\
    importPublicKey serialized = Ok (as_imported publicKey).
Proof.
  intros Ht He Hl.
  exists {| key := Array_from (key_data publicKey) |}.
  unfold exportPublicKey, exportKey_raw, is_type. rewrite He, Ht. cbn.
  repeat split.
  - unfold Array_from. now rewrite length_map.
  - apply Array_from_bytes.
  - unfold importPublicKey, importKey_raw_X25519. cbn [key].
    rewrite Uint8Array_of_Array_from, Hl. reflexivity.
Qed.

(** X2: [importPublicKey] takes exactly the arrays of 32 numbers, whatever
    the numbers, and reads each modulo 256. *)
Theorem importPublicKey_length (serializedKey : SerializablePublicKey) :
  (length (key serializedKey) = 32%nat ->
   importPublicKey serializedKey =
     Ok {| type := Public; algorithm := Alg_X25519; extractable := false;
           usages := []; key_data := Uint8Array_of (key serializedKey) |}) /\
  (length (key serializedKey) <> 32%nat ->
   importPublicKey serializedKey = Throw PublicKeyImportFailed) /\
  (forall other : SerializablePublicKey,
     map (fun n => n mod 256) (key other) = map (fun n => n mod 256) (key serializedKey) ->
     importPublicKey other = importPublicKey serializedKey).
Proof.
  unfold importPublicKey, importKey_raw_X25519.
  repeat split.
  - intros H. unfold Uint8Array_of at 1. now rewrite length_map, H.
  - intros H. unfold Uint8Array_of. rewrite length_map.
    destruct (Nat.eqb_spec (length (key serializedKey)) 32); [contradiction|reflexivity].
  - intros other H.
    now rewrite <- (Uint8Array_of_mod (key other)), H, Uint8Array_of_mod.
Qed.

(** X3: what [exportPublicKey] does not give out: a private key, a key as
    [importPublicKey] returns it, a key as [deriveSharedKey] returns it. *)
Theorem exportPublicKey_refuses :
  (forall k : CryptoKey,
     type k = Private -> exportPublicKey k = Throw PublicKeyExportFailed) /\
  (forall (serializedKey : SerializablePublicKey) (k : CryptoKey),
     importPublicKey serializedKey = Ok k ->
     exportPublicKey k = Throw PublicKeyExportFailed) /\
  (forall myPrivateKey theirPublicKey sharedKey : CryptoKey,
     deriveSharedKey myPrivateKey theirPublicKey = Ok sharedKey ->
     exportPublicKey sharedKey = Throw PublicKeyExportFailed).
Proof.
  repeat split.
  - intros k Hk. unfold exportPublicKey, exportKey_raw, is_type. rewrite Hk.
    now destruct (extractable k).
  - intros s k. unfold importPublicKey, importKey_raw_X25519.
    destruct (Nat.eqb _ 32); cbn; [|discriminate].
    intros [= <-]. reflexivity.
  - intros priv pub K H. apply deriveSharedKey_shape in H. destruct H as [-> _].
    reflexivity.
Qed.

(** X4: when [deriveSharedKey] throws: the first key is not a private key
    allowed to derive, the second is not a public key, or the X25519
    secret is all zero, as for a public key of all zeros or another point
    of small order. *)
Theorem deriveSharedKey_refuses (myPrivateKey theirPublicKey : CryptoKey) :
  type myPrivateKey <> Private \/
  has_usage deriveKey (usages myPrivateKey) = false \/
  type theirPublicKey <> Public \/
  forallb is_zero (X25519 (key_data myPrivateKey) (key_data theirPublicKey)) = true ->
  deriveSharedKey myPrivateKey theirPublicKey = Throw KeyDerivationFailed.
Proof.
  intros H. rewrite deriveSharedKey_unfold.
  destruct (is_X25519 myPrivateKey && has_usage deriveKey (usages myPrivateKey)
            && is_type Private myPrivateKey && is_type Public theirPublicKey
            && is_X25519 theirPublicKey) eqn:E; [|reflexivity].
  repeat (apply andb_prop in E; destruct E as [E ?]).
  destruct H as [H|[H|[H|H]]].
  - unfold is_type in *. destruct (type myPrivateKey); congruence.
  - congruence.
  - unfold is_type in *. destruct (type theirPublicKey); congruence.
  - cbv zeta. now rewrite H.
Qed.

(** X5: both ends of the wire hold the same key. *)
Theorem shared_key_over_the_wire (A B : KeyPair) :
  X25519_commutes -> X25519_length ->
  valid_key_pair A -> valid_key_pair B ->
  forallb is_zero (X25519 (key_data (privateKey A)) (key_data (publicKey B))) = false ->
  exists fromA fromB theirA theirB sharedKey,
    exportPublicKey (publicKey A) = Ok fromA /\
    exportPublicKey (publicKey B) = Ok fromB /\
    importPublicKey fromA = Ok theirA /\
    importPublicKey fromB = Ok theirB /\
    deriveSharedKey (privateKey A) theirB = Ok sharedKey /\
    deriveSharedKey (privateKey B) theirA = Ok sharedKey /\
    key_data sharedKey = X25519 (key_data (privateKey A)) (key_data (publicKey B)).
Proof.
  intros Hcomm Hlen HA HB Hnz.
  destruct (importPublicKey_exportPublicKey Hlen HA) as (fromA & EA & IA).
  destruct (importPublicKey_exportPublicKey Hlen HB) as (fromB & EB & IB).
  exists fromA, fromB, (as_imported (publicKey A)), (as_imported (publicKey B)),
    (raw_secret_key (privateKey A) (publicKey B)).
  pose proof (deriveSharedKey_succeeds Hlen HA HB Hnz) as HAB.
  destruct (valid_key_pair_scalar HA) as [a ->].
  destruct (valid_key_pair_scalar HB) as [b ->].
  split; [exact EA|]. split; [exact EB|]. split; [exact IA|]. split; [exact IB|].
  split; [|split].
  - now rewrite deriveSharedKey_as_imported.
  - rewrite deriveSharedKey_as_imported, <- (deriveSharedKey_of_scalars a b Hcomm).
    exact HAB.
  - cbn [raw_secret_key key_data]. apply firstn_all2. rewrite Hlen. lia.
Qed.

End KeysOnTheWire.

(* ================================================================== *)
(** * Strings through the encoder and the decoder *)

Lemma list_ind_pairs (A : Type) (Q : list A -> Prop) :
  Q [] -> (forall u, Q [u]) ->
  (forall u v rest, Q (v :: rest) -> Q rest -> Q (u :: v :: rest)) ->
  forall l, Q l.
Proof.
  intros H0 H1 H2 l.
  enough (Q l /\ forall u, Q (u :: l)) by tauto.
  induction l as [|x l [IH1 IH2]]; split; auto.
Qed.

Lemma FFFD_scalar : is_scalar 0xFFFD = true.
Proof. reflexivity. Qed.

Lemma is_lead_not_trail (u : N) : is_lead u = true -> is_trail u = false.
Proof.
  unfold is_lead, is_trail. intros H. apply andb_prop in H. destruct H as [H1 H2].
  apply N.leb_le in H1, H2. leb_cases; reflexivity.
Qed.

(** The scalar values [TextEncoder] reads from a string of code units. *)
Lemma to_scalar_values_scalar (s : jsstring) :
  Forall (fun u => is_code_unit u = true) s ->
  Forall (fun c => is_scalar c = true) (to_scalar_values s).
Proof.
  induction s as [|u|u v rest IH1 IH2] using list_ind_pairs; intros HF.
  - constructor.
  - inversion HF as [|? ? Hu _]; subst. cbn [to_scalar_values].
    destruct (is_lead u) eqn:El; [repeat constructor|].
    destruct (is_trail u) eqn:Et; [repeat constructor|].
    constructor; [|constructor]. now apply bmp_scalar.
  - inversion HF as [|? ? Hu HF']; subst. inversion HF' as [|? ? Hv HF'']; subst.
    change (to_scalar_values (u :: v :: rest)) with
      (if is_lead u then
         if is_trail v
         then (0x10000 + N.shiftl (u - 0xD800) 10 + (v - 0xDC00)) :: to_scalar_values rest
         else 0xFFFD :: to_scalar_values (v :: rest)
       else if is_trail u then 0xFFFD :: to_scalar_values (v :: rest)
       else u :: to_scalar_values (v :: rest)).
    destruct (is_lead u) eqn:El.
    + destruct (is_trail v) eqn:Et.
      * constructor; [now apply surrogate_pair_scalar|auto].
      * constructor; [reflexivity|auto].
    + destruct (is_trail u) eqn:Et.
      * constructor; [reflexivity|auto].
      * constructor; [now apply bmp_scalar|auto].
Qed.

Lemma utf8_encode_code_point_length (c : N) :
  (1 <= length (utf8_encode_code_point c) <= 4)%nat /\
  (c <= 0xFFFF -> (length (utf8_encode_code_point c) <= 3)%nat).
Proof.
  destruct (N.leb_spec c 0x7F); [rewrite utf8_encode_1 by lia; cbn; lia|].
  destruct (N.leb_spec c 0x7FF); [rewrite utf8_encode_2 by lia; cbn; lia|].
  destruct (N.leb_spec c 0xFFFF); [rewrite utf8_encode_3 by lia; cbn; lia|].
  rewrite utf8_encode_4 by lia; cbn; lia.
Qed.

(** The UTF-8 text of a string has at least one byte and at most three
    for each code unit. *)
Lemma TextEncoder_encode_length (s : jsstring) :
  Forall (fun u => is_code_unit u = true) s ->
  (length s <= length (TextEncoder_encode s) <= 3 * length s)%nat.
Proof.
  unfold TextEncoder_encode.
  induction s as [|u|u v rest IH1 IH2] using list_ind_pairs; intros HF.
  - cbn. lia.
  - inversion HF as [|? ? Hu _]; subst. cbn [to_scalar_values].
    apply N.ltb_lt in Hu.
    assert (H3 : (1 <= length (utf8_encode_code_point 0xFFFD) <= 3)%nat)
      by (destruct (utf8_encode_code_point_length 0xFFFD); lia).
    assert (Hu3 : (1 <= length (utf8_encode_code_point u) <= 3)%nat)
      by (destruct (utf8_encode_code_point_length u); lia).
    destruct (is_lead u); [|destruct (is_trail u)];
      cbn [flat_map length]; rewrite app_nil_r; lia.
  - inversion HF as [|? ? Hu HF']; subst. inversion HF' as [|? ? Hv HF'']; subst.
    apply N.ltb_lt in Hu.
    specialize (IH1 HF'). specialize (IH2 HF'').
    change (to_scalar_values (u :: v :: rest)) with
      (if is_lead u then
         if is_trail v
         then (0x10000 + N.shiftl (u - 0xD800) 10 + (v - 0xDC00)) :: to_scalar_values rest
         else 0xFFFD :: to_scalar_values (v :: rest)
       else if is_trail u then 0xFFFD :: to_scalar_values (v :: rest)
       else u :: to_scalar_values (v :: rest)).
    assert (H3 : (1 <= length (utf8_encode_code_point 0xFFFD) <= 3)%nat)
      by (destruct (utf8_encode_code_point_length 0xFFFD); lia).
    assert (Hu3 : (1 <= length (utf8_encode_code_point u) <= 3)%nat)
      by (destruct (utf8_encode_code_point_length u); lia).
    pose proof (utf8_encode_code_point_length
                  (0x10000 + N.shiftl (u - 0xD800) 10 + (v - 0xDC00))) as [H4 _].
    assert (H4' : (2 <= length (utf8_encode_code_point
                     (0x10000 + N.shiftl (u - 0xD800) 10 + (v - 0xDC00))))%nat).
    { rewrite utf8_encode_4 by lia. cbn. lia. }
    cbn [length] in *.
    destruct (is_lead u); [destruct (is_trail v)|destruct (is_trail u)];
      cbn [flat_map]; rewrite length_app; lia.
Qed.

Lemma is_scalar_intro (c : N) :
  c < 0x110000 -> ~ (0xD800 <= c <= 0xDFFF) -> is_scalar c = true.
Proof.
  intros H1 H2. unfold is_scalar, is_surrogate.
  destruct (N.ltb_spec c 0x110000); [|lia].
  destruct (N.leb_spec 0xD800 c), (N.leb_spec c 0xDFFF); try reflexivity. lia.
Qed.

(** The decoder at the first byte of a sequence. *)
Lemma utf8_lead_ok (b : N) :
  b < 256 ->
  utf8_state_ok (fst (utf8_lead b)) /\
  Forall (fun c => is_scalar c = true) (snd (utf8_lead b)).
Proof.
  intros Hb.
  destruct (N.leb_spec b 0x7F).
  { rewrite utf8_lead_1 by lia. split; [now left|].
    constructor; [apply is_scalar_intro; lia|constructor]. }
  destruct (N.ltb_spec b 0xC2).
  { unfold utf8_lead. leb_cases; cbn [andb]; split; try (now left);
      repeat constructor. }
  destruct (N.leb_spec b 0xDF).
  { rewrite utf8_lead_2 by lia. split; [|constructor].
    right; left. cbn. repeat split; lia. }
  destruct (N.leb_spec b 0xEF).
  { rewrite utf8_lead_3 by lia. split; [|constructor].
    right; right; left. cbn. repeat split; try lia.
    - destruct (N.eqb_spec b 0xE0), (N.eqb_spec (b - 0xE0) 0); try reflexivity; lia.
    - destruct (N.eqb_spec b 0xED), (N.eqb_spec (b - 0xE0) 13); try reflexivity; lia. }
  destruct (N.leb_spec b 0xF4).
  { rewrite utf8_lead_4 by lia. split; [|constructor].
    right; right; right; right; left. cbn. repeat split; try lia.
    - destruct (N.eqb_spec b 0xF0), (N.eqb_spec (b - 0xF0) 0); try reflexivity; lia.
    - destruct (N.eqb_spec b 0xF4), (N.eqb_spec (b - 0xF0) 4); try reflexivity; lia. }
  unfold utf8_lead. leb_cases; cbn [andb]; split; try (now left); repeat constructor.
Qed.

(** One byte keeps the decoder in a state of [utf8_state_ok] and makes it
    emit scalar values only. *)
Lemma utf8_handler_ok (st : Utf8State) (b : N) :
  utf8_state_ok st -> b < 256 ->
  utf8_state_ok (fst (utf8_handler st b)) /\
  Forall (fun c => is_scalar c = true) (snd (utf8_handler st b)).
Proof.
  intros Hst Hb.
  destruct (N.eqb_spec (bytes_needed st) 0) as [E0|N0].
  { unfold utf8_handler. rewrite E0. cbn. now apply utf8_lead_ok. }
  destruct ((lower_boundary st <=? b) && (b <=? upper_boundary st)) eqn:Ein.
  2:{ unfold utf8_handler. rewrite (proj2 (N.eqb_neq _ _) N0), Ein. cbn [negb].
      destruct (utf8_lead_ok Hb) as [H1 H2].
      destruct (utf8_lead b) as [st' out]. cbn in *. split; [exact H1|].
      constructor; [reflexivity|exact H2]. }
  apply andb_prop in Ein. destruct Ein as [Hlo Hhi]. apply N.leb_le in Hlo, Hhi.
  destruct st as [cp seen needed lo hi]. cbn [bytes_needed lower_boundary upper_boundary] in *.
  rewrite utf8_continue by (auto; lia).
  unfold utf8_state_ok in Hst. cbn [bytes_needed bytes_seen code_point lower_boundary upper_boundary] in Hst.
  destruct Hst as [H|[H|[H|[H|[H|[H|H]]]]]]; [contradiction| | | | | |].
  - destruct H as (-> & -> & Hcp & -> & ->). cbn. split; [now left|].
    constructor; [|constructor]. apply is_scalar_intro; lia_div.
  - destruct H as (-> & -> & Hcp & -> & ->). cbn. split; [|constructor].
    right; right; right; left. cbn.
    destruct (N.eqb_spec cp 0), (N.eqb_spec cp 13); repeat split; lia_div.
  - destruct H as (-> & -> & Hcp & Hsur & -> & ->). cbn. split; [now left|].
    constructor; [|constructor]. apply is_scalar_intro; lia_div.
  - destruct H as (-> & -> & Hcp & -> & ->). cbn. split; [|constructor].
    right; right; right; right; right; left. cbn.
    destruct (N.eqb_spec cp 0), (N.eqb_spec cp 4); repeat split; lia_div.
  - destruct H as (-> & -> & Hcp & -> & ->). cbn. split; [|constructor].
    right; right; right; right; right; right. cbn. repeat split; lia_div.
  - destruct H as (-> & -> & Hcp & -> & ->). cbn. split; [now left|].
    constructor; [|constructor]. apply is_scalar_intro; lia_div.
Qed.

Lemma utf8_decode_from_scalar (st : Utf8State) (bs : bytes) :
  utf8_state_ok st ->
  Forall (fun c => is_scalar c = true) (utf8_decode_from st bs).
Proof.
  revert st. induction bs as [|b bs IH]; intros st Hst.
  - cbn. destruct (bytes_needed st =? 0); repeat constructor.
  - rewrite utf8_decode_cons.
    destruct (utf8_handler_ok Hst (to_N_lt_256 b)) as [H1 H2].
    destruct (utf8_handler st (Byte.to_N b)) as [st' out]. cbn in *.
    apply Forall_app. split; [exact H2|now apply IH].
Qed.

Lemma strip_bom_Forall (Q : N -> Prop) (cs : list N) :
  Forall Q cs -> Forall Q (strip_bom cs).
Proof.
  destruct 1 as [|c cs Hc Hcs]; cbn; [constructor|].
  destruct (c =? 0xFEFF); [exact Hcs|now constructor].
Qed.

Lemma of_code_points_cons (c : N) (cs : list N) :
  of_code_points (c :: cs) = code_units_of c ++ of_code_points cs.
Proof. reflexivity. Qed.

(** The code units of scalar values make a well-formed string. *)
Lemma of_code_points_well_formed (cs : list N) :
  Forall (fun c => is_scalar c = true) cs -> isWellFormed (of_code_points cs) = true.
Proof.
  induction 1 as [|c cs Hc _ IH]; [reflexivity|].
  rewrite of_code_points_cons. unfold code_units_of.
  unfold is_scalar, is_surrogate in Hc. apply andb_prop in Hc. destruct Hc as [Hc1 Hc2].
  apply N.ltb_lt in Hc1. apply negb_true_iff in Hc2.
  destruct (N.ltb_spec c 0x10000) as [Hbmp|Hsup].
  - cbn [app isWellFormed]. unfold is_code_unit, is_lead, is_trail.
    destruct (N.ltb_spec c 0x10000); [|lia]. cbn [andb].
    destruct (N.leb_spec 0xD800 c), (N.leb_spec c 0xDFFF); cbn [andb] in Hc2;
      try discriminate;
      destruct (N.leb_spec c 0xDBFF), (N.leb_spec 0xDC00 c); cbn [andb negb];
      try lia; exact IH.
  - cbn [app isWellFormed].
    rewrite N.shiftr_div_pow2, land_0x3FF. change (2 ^ 10) with 1024.
    unfold is_code_unit, is_lead, is_trail.
    set (hi := 0xD800 + (c - 0x10000) / 1024).
    set (lo := 0xDC00 + (c - 0x10000) mod 1024).
    assert (Hhi : 0xD800 <= hi <= 0xDBFF) by (subst hi; lia_div).
    assert (Hlo : 0xDC00 <= lo <= 0xDFFF) by (subst lo; lia_div).
    destruct (N.ltb_spec hi 0x10000); [|lia].
    destruct (N.leb_spec 0xD800 hi), (N.leb_spec hi 0xDBFF); try lia.
    destruct (N.leb_spec 0xDC00 lo), (N.leb_spec lo 0xDFFF); try lia.
    cbn [andb]. exact IH.
Qed.

(** Whatever the bytes, [TextDecoder] returns a well-formed string. *)
Lemma TextDecoder_decode_well_formed (bs : bytes) :
  isWellFormed (TextDecoder_decode bs) = true.
Proof.
  unfold TextDecoder_decode, utf8_decode.
  apply of_code_points_well_formed, strip_bom_Forall, utf8_decode_from_scalar.
  now left.
Qed.

(** [TextDecoder] after [TextEncoder]: lone surrogates become U+FFFD, and
    a U+FEFF at the head is lost. *)
Lemma TextDecoder_TextEncoder_any (s : jsstring) :
  Forall (fun u => is_code_unit u = true) s ->
  TextDecoder_decode (TextEncoder_encode s) = strip_bom (toWellFormed s).
Proof.
  intros HF. unfold TextDecoder_decode, TextEncoder_encode, toWellFormed.
  pose proof (to_scalar_values_scalar HF) as Hs.
  rewrite utf8_decode_encode by exact Hs.
  destruct Hs as [|c cs Hc Hcs]; [reflexivity|].
  cbn [strip_bom]. rewrite of_code_points_cons. unfold code_units_of.
  destruct (N.eqb_spec c 0xFEFF) as [->|Hne]; [reflexivity|].
  rewrite of_code_points_cons. unfold code_units_of.
  destruct (N.ltb_spec c 0x10000).
  - cbn [app strip_bom]. now rewrite (proj2 (N.eqb_neq _ _) Hne).
  - cbn [app strip_bom]. rewrite N.shiftr_div_pow2. change (2 ^ 10) with 1024.
    destruct (N.eqb_spec (0xD800 + (c - 0x10000) / 1024) 0xFEFF) as [E|]; [|reflexivity].
    unfold is_scalar in Hc. apply andb_prop in Hc. destruct Hc as [Hc _].
    apply N.ltb_lt in Hc. exfalso. lia_div.
Qed.

(* ================================================================== *)
(** * Messages on the wire *)

Section MessagesOnTheWire.
Context {P : Primitives}.

Lemma encryptMessage_unfold (message : jsstring) (key : CryptoKey) (w : World) :
  encryptMessage message key w =
    (if is_AES_GCM key && has_usage encrypt (usages key)
     then
       let iv := fst (getRandomValues 12 w) in
       Ok {| ciphertext :=
               Array_from (AES_GCM_encrypt (key_data key) iv (TextEncoder_encode message));
             iv := Array_from iv |}
     else Throw EncryptionFailed,
     snd (getRandomValues 12 w)).
Proof.
  unfold encryptMessage, encrypt_AES_GCM. cbn [getRandomValues fst snd].
  destruct (is_AES_GCM key); [destruct (has_usage encrypt (usages key))|]; reflexivity.
Qed.

(** X6: [encryptMessage] does not fail on account of the message: it
    returns for every string exactly when the key is an AES-GCM key that
    may encrypt, throws its one error otherwise, and has drawn 12 random
    bytes either way. *)
Theorem encryptMessage_fails_on_key_only (message : jsstring) (key : CryptoKey)
  (w : World) :
  ((exists encrypted, fst (encryptMessage message key w) = Ok encrypted) <->
   is_AES_GCM key && has_usage encrypt (usages key) = true) /\
  (forall e, fst (encryptMessage message key w) = Throw e -> e = EncryptionFailed) /\
  consumed (snd (encryptMessage message key w)) = (consumed w + 12)%nat /\
  entropy (snd (encryptMessage message key w)) = entropy w.
Proof.
  rewrite encryptMessage_unfold. cbn [fst snd getRandomValues consumed entropy].
  destruct (is_AES_GCM key && has_usage encrypt (usages key)).
  - repeat split; eauto; discriminate.
  - repeat split; try discriminate.
    + intros [encrypted H]. discriminate.
    + intros e [= <-]. reflexivity.
Qed.

(** X7: the encrypted message as it goes on the wire: 12 numbers for the
    nonce, and for the ciphertext 16 numbers more than the UTF-8 text has
    bytes, which is between one and three for each code unit; all numbers
    are below 256. *)
Theorem encryptMessage_wire_shape (message : jsstring) (key : CryptoKey) (w : World) :
  AES_GCM_tag_length ->
  Forall (fun u => is_code_unit u = true) message ->
  is_AES_GCM key && has_usage encrypt (usages key) = true ->
  exists encrypted,
    fst (encryptMessage message key w) = Ok encrypted /\
    length (iv encrypted) = 12%nat /\
    Forall (fun n => n < 256) (iv encrypted) /\
    Forall (fun n => n < 256) (ciphertext encrypted) /\
    length (ciphertext encrypted) = (length (TextEncoder_encode message) + 16)%nat /\
    (length message + 16 <= length (ciphertext encrypted) <= 3 * length message + 16)%nat.
Proof.
  intros Htag Hunits Hkey. rewrite encryptMessage_unfold, Hkey. cbv zeta.
  pose proof (getRandomValues_length 12 w) as Hnonce.
  destruct (getRandomValues 12 w) as [nonce w1]. cbn [fst snd] in *.
  eexists. split; [reflexivity|]. cbn [iv ciphertext].
  pose proof (TextEncoder_encode_length Hunits) as Hlen.
  unfold Array_from. rewrite !length_map, Htag, Hnonce.
  repeat split; try apply (Array_from_bytes); lia.
Qed.

(** X8: what [decryptMessage] refuses before the tag is looked at, and the
    one error it throws. *)
Theorem decryptMessage_refuses (encryptedMessage : EncryptedMessage) (key : CryptoKey) :
  ((length (ciphertext encryptedMessage) < 16)%nat ->
   decryptMessage encryptedMessage key = Throw DecryptionFailed) /\
  (is_AES_GCM key && has_usage decrypt (usages key) = false ->
   decryptMessage encryptedMessage key = Throw DecryptionFailed) /\
  (forall e, decryptMessage encryptedMessage key = Throw e -> e = DecryptionFailed).
Proof.
  unfold decryptMessage, decrypt_AES_GCM. repeat split.
  - intros H. unfold Uint8Array_of at 1. rewrite length_map.
    destruct (is_AES_GCM key); [|reflexivity].
    destruct (has_usage decrypt (usages key)); [|reflexivity]. cbn [negb].
    destruct (Nat.ltb_spec (length (ciphertext encryptedMessage)) 16); [reflexivity|lia].
  - intros H. destruct (is_AES_GCM key); [|reflexivity].
    destruct (has_usage decrypt (usages key)); [discriminate|reflexivity].
  - intros e.
    destruct (is_AES_GCM key); cbn [negb rethrow_as bind];
      [|intros [= <-]; reflexivity].
    destruct (has_usage decrypt (usages key)); cbn [negb rethrow_as bind];
      [|intros [= <-]; reflexivity].
    destruct (Nat.ltb (length (Uint8Array_of (ciphertext encryptedMessage))) 16);
      cbn [negb rethrow_as bind]; [intros [= <-]; reflexivity|].
    destruct (AES_GCM_decrypt (key_data key) (Uint8Array_of (iv encryptedMessage))
                (Uint8Array_of (ciphertext encryptedMessage)));
      cbn [negb rethrow_as bind]; [discriminate|intros [= <-]; reflexivity].
Qed.

(** The numbers of an encrypted message are read modulo 256. *)
Lemma decryptMessage_modulo_256 (encryptedMessage other : EncryptedMessage)
  (key : CryptoKey) :
  map (fun n => n mod 256) (ciphertext other)
    = map (fun n => n mod 256) (ciphertext encryptedMessage) ->
  map (fun n => n mod 256) (iv other) = map (fun n => n mod 256) (iv encryptedMessage) ->
  decryptMessage other key = decryptMessage encryptedMessage key.
Proof.
  intros Hc Hi. unfold decryptMessage.
  rewrite <- (Uint8Array_of_mod (ciphertext other)), Hc, Uint8Array_of_mod.
  rewrite <- (Uint8Array_of_mod (iv other)), Hi, Uint8Array_of_mod.
  reflexivity.
Qed.

(** X9: a decrypted message is a well-formed string. *)
Theorem decryptMessage_well_formed (encryptedMessage : EncryptedMessage)
  (key : CryptoKey) (message : jsstring) :
  decryptMessage encryptedMessage key = Ok message -> isWellFormed message = true.
Proof.
  unfold decryptMessage.
  destruct (decrypt_AES_GCM _ key _) as [decryptedBytes|e]; cbn; [|discriminate].
  intros [= <-]. apply TextDecoder_decode_well_formed.
Qed.

(** X10: what comes back of any string: the string made well formed, less
    a U+FEFF at its head. *)
Theorem round_trip_any_string :
  AES_GCM_correct -> AES_GCM_tag_length ->
  forall (message : jsstring) (K : CryptoKey) (w : World),
    usable_key K = true ->
    Forall (fun u => is_code_unit u = true) message ->
    round_trip message K w = Ok (strip_bom (toWellFormed message)).
Proof.
  intros Hcorrect Htag message K w HK Hunits. unfold round_trip.
  rewrite encryptMessage_usable by exact HK. cbn [fst bind].
  rewrite decryptMessage_sealed by assumption.
  now rewrite TextDecoder_TextEncoder_any.
Qed.

End MessagesOnTheWire.

(* ================================================================== *)
(** * Identifiers *)

Lemma hex2_digits (b : byte) :
  hex2 b = [hex_digit (Byte.to_N b / 16); hex_digit (Byte.to_N b mod 16)].
Proof.
  unfold hex2, toString16. pose proof (to_N_lt_256 b) as Hb.
  destruct (N.ltb_spec (Byte.to_N b) 16) as [H|H]; cbn [padStart2].
  - rewrite N.div_small, N.mod_small by lia. reflexivity.
  - reflexivity.
Qed.

Lemma hex_digit_lower (d : N) : d < 16 -> is_lower_hex (hex_digit d) = true.
Proof.
  intros H. unfold hex_digit, is_lower_hex.
  destruct (N.ltb_spec d 10); leb_cases; reflexivity.
Qed.

Lemma hex2_lower (b : byte) :
  is_lower_hex (hex_digit (Byte.to_N b / 16)) = true /\
  is_lower_hex (hex_digit (Byte.to_N b mod 16)) = true.
Proof.
  pose proof (to_N_lt_256 b). split; apply hex_digit_lower; lia_div.
Qed.

Lemma version_byte (b : byte) :
  Byte.to_N (byte_of_N (N.lor (N.land (Byte.to_N b) 0x0F) 0x40))
  = 64 + Byte.to_N b mod 16.
Proof.
  rewrite land_0xF, N.lor_comm.
  change (N.lor 0x40 (Byte.to_N b mod 16))
    with (N.lor (N.shiftl 1 6) (Byte.to_N b mod 16)).
  rewrite lor_disjoint_add by (change (2 ^ 6) with 64; lia_div).
  change (1 * 2 ^ 6) with 64. apply to_N_byte_of_N. lia_div.
Qed.

Lemma variant_byte (b : byte) :
  Byte.to_N (byte_of_N (N.lor (N.land (Byte.to_N b) 0x3F) 0x80))
  = 128 + Byte.to_N b mod 64.
Proof.
  rewrite land_0x3F, N.lor_comm, lor_0x80 by lia_div.
  apply to_N_byte_of_N. lia_div.
Qed.

(** X11: a user id: 36 characters, hyphens after 8, 13, 18 and 23 of them,
    lower-case hexadecimal digits elsewhere, the version digit 4 and a
    variant digit among 8, 9, a, b; 16 bytes of the random source. *)
Theorem generateUserId_format (w : World) :
  let userId := fst (generateUserId w) in
  length userId = 36%nat /\
  (forall i, In i [8; 13; 18; 23]%nat -> nth i userId 0 = 45) /\
  nth 14 userId 0 = 52 /\
  In (nth 19 userId 0) [56; 57; 97; 98] /\
  (forall i, (i < 36)%nat -> ~ In i [8; 13; 18; 23]%nat ->
             is_lower_hex (nth i userId 0) = true) /\
  consumed (snd (generateUserId w)) = (consumed w + 16)%nat.
Proof.
  unfold generateUserId, randomUUID, getRandomValues.
  cbn [seq map combine concat app Nat.eqb orb fst snd consumed].
  rewrite !hex2_digits. cbn [app].
  rewrite version_byte, variant_byte.
  set (f := entropy w). set (c := consumed w).
  repeat split.
  - intros i [<-|[<-|[<-|[<-|[]]]]]; reflexivity.
  - cbn [nth].
    match goal with
    | |- hex_digit (?x / 16) = _ => replace (x / 16) with 4 by lia_div
    end.
    reflexivity.
  - cbn [nth].
    match goal with
    | |- In (hex_digit (?x / 16)) _ =>
        assert (H : x / 16 = 8 \/ x / 16 = 9 \/ x / 16 = 10 \/ x / 16 = 11)
          by lia_div;
        destruct H as [-> | [-> | [-> | ->]]]; cbn; auto
    end.
  - intros i Hi Hnot.
    do 36 (destruct i as [|i]; [try (exfalso; apply Hnot; cbn; tauto);
                                cbn [nth]; try apply hex2_lower;
                                apply hex_digit_lower; lia_div|]).
    lia.
Qed.

(* ================================================================== *)
(** * Base64 *)

Lemma list_ind3 (A : Type) (Q : list A -> Prop) :
  Q [] -> (forall a, Q [a]) -> (forall a b, Q [a; b]) ->
  (forall a b c rest, Q rest -> Q (a :: b :: c :: rest)) ->
  forall l, Q l.
Proof.
  intros H0 H1 H2 H3 l.
  enough (Q l /\ (forall a, Q (a :: l)) /\ (forall a b, Q (a :: b :: l))) by tauto.
  induction l as [|x l (IH0 & IH1 & IH2)]; repeat split; auto.
Qed.

Lemma alphabet_index_char (i : N) :
  i < 64 -> alphabet_index (alphabet_char i) = Some i.
Proof.
  intros H. unfold alphabet_char, alphabet_index.
  destruct (N.ltb_spec i 26); [|destruct (N.ltb_spec i 52);
    [|destruct (N.ltb_spec i 62); [|destruct (N.eqb_spec i 62)]]];
  cbn [andb]; leb_cases; cbn [andb]; f_equal; lia.
Qed.

Lemma alphabet_index_range (c i : N) : alphabet_index c = Some i -> i < 64.
Proof.
  unfold alphabet_index.
  repeat match goal with
  | |- context [if ?b then _ else _] => destruct b eqn:?
  end; intros [= <-]; try lia;
  repeat match goal with
  | H : (_ && _) = true |- _ => apply andb_prop in H; destruct H
  | H : (_ <=? _) = true |- _ => apply N.leb_le in H
  end; lia.
Qed.

Lemma alphabet_char_base64 (i : N) :
  i < 64 -> is_base64_char (alphabet_char i) = true.
Proof. intros H. unfold is_base64_char. now rewrite alphabet_index_char. Qed.

Lemma base64_char_not_space (c : N) :
  is_base64_char c = true -> is_ascii_whitespace c = false /\ c <> 61.
Proof.
  unfold is_base64_char, alphabet_index, is_ascii_whitespace.
  destruct (N.eqb_spec c 9), (N.eqb_spec c 10), (N.eqb_spec c 12),
    (N.eqb_spec c 13), (N.eqb_spec c 32); subst; cbn; try discriminate;
  intros H; split; try reflexivity; intros ->; discriminate.
Qed.

(** The four 6-bit groups of three bytes, and back. *)
Lemma sextet_1 (a : N) : a < 256 -> N.shiftr a 2 = a / 4 /\ a / 4 < 64.
Proof. intros H. rewrite N.shiftr_div_pow2. change (2 ^ 2) with 4. split; [reflexivity|lia_div]. Qed.

Lemma sextet_2 (a b : N) :
  a < 256 -> b < 256 ->
  N.lor (N.shiftl (N.land a 0x3) 4) (N.shiftr b 4) = (a mod 4) * 16 + b / 16 /\
  (a mod 4) * 16 + b / 16 < 64.
Proof.
  intros Ha Hb.
  change 0x3 with (N.ones 2). rewrite land_low. change (2 ^ 2) with 4.
  rewrite N.shiftr_div_pow2. change (2 ^ 4) with 16.
  rewrite lor_disjoint_add by (change (2 ^ 4) with 16; lia_div).
  change (2 ^ 4) with 16. split; [reflexivity|lia_div].
Qed.

Lemma sextet_3 (b c : N) :
  b < 256 -> c < 256 ->
  N.lor (N.shiftl (N.land b 0xF) 2) (N.shiftr c 6) = (b mod 16) * 4 + c / 64 /\
  (b mod 16) * 4 + c / 64 < 64.
Proof.
  intros Hb Hc.
  rewrite land_0xF. rewrite N.shiftr_div_pow2. change (2 ^ 6) with 64.
  rewrite lor_disjoint_add by (change (2 ^ 2) with 4; lia_div).
  change (2 ^ 2) with 4. split; [reflexivity|lia_div].
Qed.

Lemma sextet_4 (c : N) : N.land c 0x3F = c mod 64 /\ c mod 64 < 64.
Proof. rewrite land_0x3F. split; [reflexivity|lia_div]. Qed.

Lemma sextet_2_last (a : N) :
  N.shiftl (N.land a 0x3) 4 = (a mod 4) * 16 /\ (a mod 4) * 16 < 64.
Proof.
  change 0x3 with (N.ones 2). rewrite land_low. change (2 ^ 2) with 4.
  rewrite N.shiftl_mul_pow2. change (2 ^ 4) with 16. split; [reflexivity|lia_div].
Qed.

Lemma sextet_3_last (b : N) :
  N.shiftl (N.land b 0xF) 2 = (b mod 16) * 4 /\ (b mod 16) * 4 < 64.
Proof.
  rewrite land_0xF. rewrite N.shiftl_mul_pow2. change (2 ^ 2) with 4.
  split; [reflexivity|lia_div].
Qed.

Lemma decode_group (i1 i2 i3 i4 : N) :
  i1 < 64 -> i2 < 64 -> i3 < 64 -> i4 < 64 ->
  let buffer :=
    N.lor (N.shiftl (N.lor (N.shiftl (N.lor (N.shiftl i1 6) i2) 6) i3) 6) i4 in
  buffer = ((i1 * 64 + i2) * 64 + i3) * 64 + i4.
Proof.
  intros H1 H2 H3 H4. cbv zeta.
  rewrite !lor_disjoint_add by (change (2 ^ 6) with 64; lia).
  reflexivity.
Qed.

(** What the encoder makes of a list of bytes: characters of the alphabet
    that decode to the bytes, then the padding. *)
Lemma base64_encode_split (data : list N) :
  Forall (fun u => u < 256) data ->
  exists body pad l,
    base64_encode data = body ++ pad /\
    pad = repeat 61 (match Nat.modulo (length data) 3 with
                     | 0 => 0 | 1 => 2 | _ => 1 end)%nat /\
    Forall (fun c => is_base64_char c = true) body /\
    sextets body = Some l /\ decode_sextets l = data /\
    (length body + length pad = 4 * Nat.div (length data + 2) 3)%nat.
Proof.
  induction data as [|a|a b|a b c rest IH] using list_ind3; intros HF.
  - exists [], [], []. cbn. repeat split; constructor.
  - inversion HF as [|? ? Ha _]; subst.
    destruct (sextet_1 Ha) as [E1 B1], (sextet_2_last a) as [E2 B2].
    exists [alphabet_char (a / 4); alphabet_char ((a mod 4) * 16)],
      [61; 61], [a / 4; (a mod 4) * 16].
    cbn [base64_encode sextets app length repeat Nat.modulo]. rewrite E1, E2.
    rewrite !alphabet_index_char by assumption.
    repeat split.
    + repeat constructor; now apply alphabet_char_base64.
    + cbn [decode_sextets]. f_equal.
      rewrite lor_disjoint_add by (change (2 ^ 6) with 64; lia).
      rewrite N.shiftr_div_pow2. change (2 ^ 6) with 64. change (2 ^ 4) with 16.
      lia_div.
  - inversion HF as [|? ? Ha HF']; subst. inversion HF' as [|? ? Hb _]; subst.
    destruct (sextet_1 Ha) as [E1 B1], (sextet_2 Ha Hb) as [E2 B2],
      (sextet_3_last b) as [E3 B3].
    exists [alphabet_char (a / 4); alphabet_char ((a mod 4) * 16 + b / 16);
            alphabet_char ((b mod 16) * 4)],
      [61], [a / 4; (a mod 4) * 16 + b / 16; (b mod 16) * 4].
    cbn [base64_encode sextets app length repeat Nat.modulo]. rewrite E1, E2, E3.
    rewrite !alphabet_index_char by assumption.
    repeat split.
    + repeat constructor; now apply alphabet_char_base64.
    + cbn [decode_sextets].
      rewrite !lor_disjoint_add by (change (2 ^ 6) with 64; lia).
      rewrite !N.shiftr_div_pow2.
      change (2 ^ 6) with 64. change (2 ^ 2) with 4. change (2 ^ 8) with 256.
      change 0xFF with (N.ones 8). rewrite land_low. change (2 ^ 8) with 256.
      f_equal; [|f_equal]; lia_div.
  - inversion HF as [|? ? Ha HF1]; subst. inversion HF1 as [|? ? Hb HF2]; subst.
    inversion HF2 as [|? ? Hc HF3]; subst.
    destruct (IH HF3) as (body & pad & l & Henc & Hpad & Hbody & Hsext & Hdec & Hlen).
    destruct (sextet_1 Ha) as [E1 B1], (sextet_2 Ha Hb) as [E2 B2],
      (sextet_3 Hb Hc) as [E3 B3], (sextet_4 c) as [E4 B4].
    exists (alphabet_char (a / 4)
            :: alphabet_char ((a mod 4) * 16 + b / 16)
            :: alphabet_char ((b mod 16) * 4 + c / 64)
            :: alphabet_char (c mod 64) :: body),
      pad,
      (a / 4 :: (a mod 4) * 16 + b / 16 :: (b mod 16) * 4 + c / 64 :: c mod 64 :: l).
    change (base64_encode (a :: b :: c :: rest)) with
      (alphabet_char (N.shiftr a 2)
       :: alphabet_char (N.lor (N.shiftl (N.land a 0x3) 4) (N.shiftr b 4))
       :: alphabet_char (N.lor (N.shiftl (N.land b 0xF) 2) (N.shiftr c 6))
       :: alphabet_char (N.land c 0x3F) :: base64_encode rest).
    rewrite Henc, E1, E2, E3, E4.
    repeat split.
    + rewrite Hpad. f_equal.
      change (length (a :: b :: c :: rest)) with (3 + length rest)%nat.
      replace (Nat.modulo (3 + length rest) 3) with (Nat.modulo (length rest) 3)
        by (rewrite <- (Nat.Div0.add_mod_idemp_l 3 _ 3); reflexivity).
      reflexivity.
    + repeat constructor; try (now apply alphabet_char_base64). exact Hbody.
    + cbn [sextets]. rewrite !alphabet_index_char by assumption.
      now rewrite Hsext.
    + change (decode_sextets
                (a / 4 :: (a mod 4) * 16 + b / 16 :: (b mod 16) * 4 + c / 64
                 :: c mod 64 :: l))
        with (let buffer :=
                N.lor (N.shiftl (N.lor (N.shiftl (N.lor (N.shiftl (a / 4) 6)
                  ((a mod 4) * 16 + b / 16)) 6) ((b mod 16) * 4 + c / 64)) 6)
                  (c mod 64) in
              N.shiftr buffer 16 :: N.land (N.shiftr buffer 8) 0xFF
                :: N.land buffer 0xFF :: decode_sextets l).
      cbv zeta. rewrite (decode_group B1 B2 B3 B4), Hdec.
      rewrite !N.shiftr_div_pow2.
      change 0xFF with (N.ones 8). rewrite !land_low.
      change (2 ^ 8) with 256. change (2 ^ 16) with 65536.
      f_equal; [|f_equal; [|f_equal]]; lia_div.
    + change (length (a :: b :: c :: rest)) with (3 + length rest)%nat.
      cbn [length]. replace (Nat.div (3 + length rest + 2) 3)
        with (1 + Nat.div (length rest + 2) 3)%nat.
      * lia.
      * replace (3 + length rest + 2)%nat with (1 * 3 + (length rest + 2))%nat by lia.
        rewrite Nat.div_add_l by lia. reflexivity.
Qed.

Lemma filter_id (A : Type) (f : A -> bool) (l : list A) :
  Forall (fun x => f x = true) l -> filter f l = l.
Proof.
  induction 1 as [|x l Hx _ IH]; cbn; [reflexivity|]. now rewrite Hx, IH.
Qed.

Lemma repeat_61_not_space (n : nat) :
  Forall (fun c => negb (is_ascii_whitespace c) = true) (repeat 61 n).
Proof. induction n; cbn; constructor; auto. Qed.

(** With the padding of the encoder at its end, a string loses exactly the
    padding. *)
Lemma remove_padding_encoded (body : jsstring) (k : nat) :
  Forall (fun c => is_base64_char c = true) body ->
  (k <= 2)%nat -> (k <> 0 -> body <> [])%nat ->
  Nat.modulo (length body + k) 4 = 0%nat ->
  remove_padding (body ++ repeat 61 k) = body.
Proof.
  intros Hbody Hk Hne Hlen. unfold remove_padding.
  rewrite length_app, repeat_length, Hlen. cbn [Nat.eqb].
  rewrite rev_app_distr.
  assert (Hlast : forall c rest, rev body = c :: rest -> (c =? 61) = false).
  { intros c rest E. apply N.eqb_neq.
    assert (Hin : In c body) by (apply in_rev; rewrite E; now left).
    rewrite Forall_forall in Hbody. now apply base64_char_not_space, Hbody. }
  destruct k as [|[|[|k]]]; try lia; cbn [repeat rev app].
  - rewrite app_nil_r.
    destruct (rev body) as [|c1 [|c2 rest]] eqn:E; try reflexivity.
    now rewrite (Hlast _ _ eq_refl).
  - destruct (rev body) as [|c2 rest] eqn:E.
    + exfalso. apply Hne; [lia|]. now rewrite <- (rev_involutive body), E.
    + cbn [app]. change (61 =? 61) with true. cbv iota.
      rewrite (Hlast _ _ eq_refl).
      change (rev rest ++ [c2]) with (rev (c2 :: rest)).
      now rewrite <- E, rev_involutive.
  - cbn [app]. change (61 =? 61) with true. cbv iota. now rewrite rev_involutive.
Qed.

(** [atob] undoes the encoder of [btoa]. *)
Lemma atob_base64_encode (data : list N) :
  Forall (fun u => u < 256) data -> atob (base64_encode data) = Some data.
Proof.
  intros HF.
  destruct (base64_encode_split HF) as (body & pad & l & Henc & Hpad & Hbody & Hsext & Hdec & Hlen).
  unfold atob. rewrite Henc.
  rewrite filter_id.
  2:{ apply Forall_app. split.
      - eapply Forall_impl; [|exact Hbody]. intros c Hc. cbv beta.
        now destruct (base64_char_not_space _ Hc) as [-> _].
      - rewrite Hpad. apply repeat_61_not_space. }
  set (k := match Nat.modulo (length data) 3 with 0 => 0 | 1 => 2 | _ => 1 end%nat) in *.
  assert (Hk : (k <= 2)%nat) by (subst k; destruct (Nat.modulo _ 3) as [|[|?]]; lia).
  rewrite Hpad in Hlen |- *. rewrite repeat_length in Hlen.
  assert (Hmod : Nat.modulo (length body + k) 4 = 0%nat).
  { rewrite Hlen, Nat.mul_comm. apply Nat.Div0.mod_mul. }
  rewrite remove_padding_encoded; auto.
  - assert (Nat.modulo (length body) 4 <> 1%nat).
    { intros E. 
      pose proof (Nat.div_mod_eq (length body) 4) as E1.
      pose proof (Nat.div_mod_eq (length body + k) 4) as E2.
      rewrite Hmod in E2. rewrite E in E1. lia. }
    destruct (Nat.eqb_spec (Nat.modulo (length body) 4) 1); [contradiction|].
    now rewrite Hsext, Hdec.
  - intros Hk0 ->. cbn [length] in *.
    destruct k as [|[|[|?]]]; try lia; cbn in Hmod; discriminate.
Qed.

Lemma btoa_bytes (data : list N) :
  Forall (fun u => u < 256) data -> btoa data = Some (base64_encode data).
Proof.
  intros HF. unfold btoa.
  replace (forallb (fun u => u <=? 0xFF) data) with true; [reflexivity|].
  symmetry. apply forallb_forall. rewrite Forall_forall in HF.
  intros u Hu. apply N.leb_le. specialize (HF u Hu). cbv beta in HF. lia.
Qed.

Lemma firstn_S_nth (A : Type) (d : A) (l : list A) (k : nat) :
  (k < length l)%nat -> firstn (S k) l = firstn k l ++ [nth k l d].
Proof.
  revert k. induction l as [|x l IH]; intros k Hk; cbn in Hk; [lia|].
  destruct k as [|k]; [reflexivity|].
  cbn [firstn nth app]. f_equal. apply IH. lia.
Qed.

(** The loop of [arrayBufferToBase64] builds the string of the bytes. *)
Lemma binary_of_bytes (bytes : Bytes.bytes) :
  fold_left (fun binary i => binary ++ fromCharCode (Byte.to_N (nth i bytes x00)))
            (seq 0 (length bytes)) [] = Array_from bytes.
Proof.
  enough (H : forall k, (k <= length bytes)%nat ->
            fold_left (fun binary i => binary ++ fromCharCode (Byte.to_N (nth i bytes x00)))
              (seq 0 k) [] = Array_from (firstn k bytes)).
  { rewrite H by lia. now rewrite firstn_all. }
  induction k as [|k IH]; intros Hk; [reflexivity|].
  rewrite seq_S, fold_left_app, IH by lia. cbn [fold_left Nat.add].
  unfold fromCharCode, Array_from.
  rewrite N.mod_small by (pose proof (to_N_lt_256 (nth k bytes x00)); lia).
  rewrite (firstn_S_nth x00) by lia. now rewrite map_app.
Qed.

Lemma store_app (A : Type) (done todo : list A) (v x : A) :
  store (length done) v (done ++ x :: todo) = done ++ v :: todo.
Proof. induction done as [|d done IH]; cbn; [reflexivity|]. now rewrite IH. Qed.

(** The loop of [base64ToArrayBuffer] stores the byte of each character. *)
Lemma bytes_of_binary (binary : jsstring) :
  fold_left (fun bytes i => store i (byte_of_N (charCodeAt binary i)) bytes)
            (seq 0 (length binary)) (repeat x00 (length binary))
  = Uint8Array_of binary.
Proof.
  enough (H : forall k, (k <= length binary)%nat ->
            fold_left (fun bytes i => store i (byte_of_N (charCodeAt binary i)) bytes)
              (seq 0 k) (repeat x00 (length binary))
            = Uint8Array_of (firstn k binary) ++ repeat x00 (length binary - k)).
  { rewrite H by lia. now rewrite firstn_all, Nat.sub_diag, app_nil_r. }
  induction k as [|k IH]; intros Hk.
  - cbn. now rewrite Nat.sub_0_r.
  - rewrite seq_S, fold_left_app, IH by lia. cbn [fold_left Nat.add].
    replace (length binary - k)%nat with (S (length binary - S k)) by lia.
    cbn [repeat].
    assert (Hl : length (Uint8Array_of (firstn k binary)) = k).
    { unfold Uint8Array_of. rewrite length_map, length_firstn. lia. }
    rewrite <- Hl at 1. rewrite store_app.
    unfold charCodeAt. rewrite (firstn_S_nth 0) by lia.
    unfold Uint8Array_of. rewrite map_app, <- app_assoc. reflexivity.
Qed.


Lemma arrayBufferToBase64_encode (buffer : bytes) :
  arrayBufferToBase64 buffer = Some (base64_encode (Array_from buffer)).
Proof.
  unfold arrayBufferToBase64. cbv zeta. rewrite binary_of_bytes.
  apply btoa_bytes, Array_from_bytes.
Qed.

(** X12: a buffer written as base64 and read back is the buffer. *)
Theorem base64_round_trip (buffer : bytes) :
  exists base64,
    arrayBufferToBase64 buffer = Some base64 /\
    base64ToArrayBuffer base64 = Some buffer.
Proof.
  exists (base64_encode (Array_from buffer)). split.
  - apply arrayBufferToBase64_encode.
  - unfold base64ToArrayBuffer.
    rewrite atob_base64_encode by apply Array_from_bytes.
    cbv zeta. rewrite bytes_of_binary. now rewrite Uint8Array_of_Array_from.
Qed.

(** X13: the base64 text of a buffer. *)
Theorem arrayBufferToBase64_shape (buffer : bytes) :
  exists body,
    arrayBufferToBase64 buffer =
      Some (body ++ repeat 61 (match Nat.modulo (length buffer) 3 with
                               | 0 => 0 | 1 => 2 | _ => 1 end)%nat) /\
    Forall (fun c => is_base64_char c = true) body /\
    (length body + match Nat.modulo (length buffer) 3 with
                   | 0 => 0 | 1 => 2 | _ => 1 end
     = 4 * Nat.div (length buffer + 2) 3)%nat.
Proof.
  destruct (base64_encode_split (Array_from_bytes buffer))
    as (body & pad & l & Henc & Hpad & Hbody & _ & _ & Hlen).
  unfold Array_from in Hpad, Hlen. rewrite length_map in Hpad, Hlen.
  exists body. rewrite arrayBufferToBase64_encode, Henc, Hpad.
  repeat split; [exact Hbody|]. rewrite Hpad, repeat_length in Hlen. exact Hlen.
Qed.

Lemma remove_padding_keeps (data : jsstring) (c : N) :
  In c data -> c <> 61 -> In c (remove_padding data).
Proof.
  intros Hin Hc. unfold remove_padding.
  destruct (Nat.eqb _ 0); [|exact Hin].
  destruct (rev data) as [|c1 [|c2 rest]] eqn:E; try exact Hin.
  assert (Hin' : In c (c1 :: c2 :: rest)) by (rewrite <- E; now apply in_rev in Hin).
  destruct (N.eqb_spec c1 61) as [->|]; [|exact Hin].
  destruct Hin' as [<-|Hin']; [contradiction|].
  destruct (N.eqb_spec c2 61) as [->|].
  - destruct Hin' as [<-|Hin']; [contradiction|]. now apply in_rev in Hin'.
  - now apply in_rev in Hin'.
Qed.

Lemma sextets_foreign (data : jsstring) (c : N) :
  In c data -> is_base64_char c = false -> sextets data = None.
Proof.
  unfold is_base64_char.
  induction data as [|u data IH]; intros Hin Hc; [contradiction|].
  cbn [sextets]. destruct Hin as [->|Hin].
  - destruct (alphabet_index c); [discriminate|reflexivity].
  - rewrite (IH Hin Hc). now destruct (alphabet_index u).
Qed.

(** X14: a character that is neither of the alphabet, nor white space, nor
    the padding makes [base64ToArrayBuffer] throw. *)
Theorem base64ToArrayBuffer_rejects (base64 : jsstring) (c : N) :
  In c base64 ->
  is_base64_char c = false -> is_ascii_whitespace c = false -> c <> 61 ->
  base64ToArrayBuffer base64 = None.
Proof.
  intros Hin Hc Hw Hp. unfold base64ToArrayBuffer, atob.
  set (data := remove_padding _).
  assert (Hd : In c data).
  { apply remove_padding_keeps; [|exact Hp].
    apply filter_In. split; [exact Hin|]. now rewrite Hw. }
  destruct (Nat.eqb _ 1); [reflexivity|].
  now rewrite (@sextets_foreign data c Hd Hc).
Qed.


(* ================================================================== *)
(** * The room token *)

Lemma drop_leading_none (c : N) (s : jsstring) :
  Forall (fun u => u <> c) s -> drop_leading c s = s.
Proof.
  destruct 1 as [|u s Hu _]; [reflexivity|].
  cbn. now rewrite (proj2 (N.eqb_neq u c) Hu).
Qed.

Lemma url_safe_char (c : N) :
  is_base64_char c = true ->
  is_url_safe_char (if (if c =? 43 then 45 else c) =? 47 then 95
                    else if c =? 43 then 45 else c) = true /\
  (if (if c =? 43 then 45 else c) =? 47 then 95 else if c =? 43 then 45 else c) <> 61.
Proof.
  unfold is_base64_char, alphabet_index, is_url_safe_char.
  destruct (N.eqb_spec c 43) as [->|H43]; [cbn; split; [reflexivity|discriminate]|].
  destruct (N.eqb_spec c 47) as [->|H47]; [cbn; split; [reflexivity|discriminate]|].
  destruct ((65 <=? c) && (c <=? 90)) eqn:E1; [intros _; split; [reflexivity|]|].
  { apply andb_prop in E1. destruct E1 as [H1 H2]. apply N.leb_le in H1, H2. lia. }
  destruct ((97 <=? c) && (c <=? 122)) eqn:E2; [intros _; split; [reflexivity|]|].
  { apply andb_prop in E2. destruct E2 as [H1 H2]. apply N.leb_le in H1, H2. lia. }
  destruct ((48 <=? c) && (c <=? 57)) eqn:E3; [intros _; split; [reflexivity|]|].
  { apply andb_prop in E3. destruct E3 as [H1 H2]. apply N.leb_le in H1, H2. lia. }
  discriminate.
Qed.

Lemma url_safe_injective (c d : N) :
  is_base64_char c = true -> is_base64_char d = true ->
  (if (if c =? 43 then 45 else c) =? 47 then 95 else if c =? 43 then 45 else c) =
  (if (if d =? 43 then 45 else d) =? 47 then 95 else if d =? 43 then 45 else d) ->
  c = d.
Proof.
  intros Hc Hd.
  assert (Hrange : forall x, is_base64_char x = true -> x <> 45 /\ x <> 95).
  { intros x. unfold is_base64_char, alphabet_index.
    destruct (N.eqb_spec x 45) as [->|]; [cbn; discriminate|].
    destruct (N.eqb_spec x 95) as [->|]; [cbn; discriminate|]. auto. }
  destruct (Hrange _ Hc), (Hrange _ Hd).
  destruct (N.eqb_spec c 43), (N.eqb_spec d 43); subst; cbn;
    try (destruct (N.eqb_spec c 47)); try (destruct (N.eqb_spec d 47));
    subst; cbn; intros; try congruence; try lia.
Qed.

(** The room id of a 32-byte token: the 43 characters of its base64 text
    before the padding, made URL-safe. *)
Lemma roomId_of_body (token : bytes) :
  length token = 32%nat ->
  exists body l,
    Buffer_toString_base64 token = body ++ [61] /\
    Forall (fun c => is_base64_char c = true) body /\
    length body = 43%nat /\
    sextets body = Some l /\ decode_sextets l = Array_from token /\
    roomId_of token = replace_all 47 95 (replace_all 43 45 body).
Proof.
  intros Hlen.
  destruct (base64_encode_split (Array_from_bytes token))
    as (body & pad & l & Henc & Hpad & Hbody & Hsext & Hdec & Hl).
  unfold Array_from in Hpad, Hl. rewrite length_map, Hlen in Hpad, Hl.
  cbn in Hpad. subst pad. cbn in Hl.
  exists body, l. unfold roomId_of, Buffer_toString_base64.
  rewrite Henc. repeat split; auto; [lia|].
  unfold replace_all. rewrite !map_app. cbn [map].
  change (61 =? 43) with false. cbv iota.
  change (61 =? 47) with false. cbv iota.
  unfold strip_trailing. rewrite rev_app_distr. cbn [rev app drop_leading].
  change (61 =? 61) with true. cbv iota.
  rewrite drop_leading_none, rev_involutive; [reflexivity|].
  apply Forall_rev. rewrite map_map. apply Forall_map.
  eapply Forall_impl; [|exact Hbody]. intros c Hc. now apply url_safe_char.
Qed.

Lemma roomId_of_url_safe (token : bytes) :
  length token = 32%nat ->
  length (roomId_of token) = 43%nat /\
  Forall (fun c => is_url_safe_char c = true) (roomId_of token).
Proof.
  intros Hlen.
  destruct (roomId_of_body token Hlen) as (body & l & _ & Hbody & Hl & _ & _ & ->).
  unfold replace_all. rewrite map_map. split.
  - now rewrite length_map.
  - apply Forall_map. eapply Forall_impl; [|exact Hbody].
    intros c Hc. now apply url_safe_char.
Qed.

Lemma map_injective_on (A B : Type) (f : A -> B) (Q : A -> Prop) (l1 l2 : list A) :
  (forall x y, Q x -> Q y -> f x = f y -> x = y) ->
  Forall Q l1 -> Forall Q l2 -> map f l1 = map f l2 -> l1 = l2.
Proof.
  intros Hf H1. revert l2.
  induction H1 as [|x l1 Hx _ IH]; intros l2 H2 E; destruct H2 as [|y l2 Hy H2];
    try discriminate; [reflexivity|].
  cbn in E. injection E as E1 E2. f_equal; auto.
Qed.

Lemma roomId_of_injective (token1 token2 : bytes) :
  length token1 = 32%nat -> length token2 = 32%nat ->
  roomId_of token1 = roomId_of token2 -> token1 = token2.
Proof.
  intros H1 H2 E.
  destruct (roomId_of_body token1 H1) as (body1 & l1 & _ & Hb1 & _ & Hs1 & Hd1 & E1).
  destruct (roomId_of_body token2 H2) as (body2 & l2 & _ & Hb2 & _ & Hs2 & Hd2 & E2).
  rewrite E1, E2 in E. unfold replace_all in E. rewrite !map_map in E.
  assert (Hbody : body1 = body2).
  { eapply map_injective_on; [|exact Hb1|exact Hb2|exact E].
    intros x y Hx Hy. now apply url_safe_injective. }
  subst body2. rewrite Hs1 in Hs2. injection Hs2 as <-.
  apply Array_from_injective. now rewrite <- Hd1, <- Hd2.
Qed.

(** X15: the id of a new room: 43 characters, each a letter, a digit, [-]
    or [_], made of 32 bytes of the random source. *)
Theorem new_roomId_shape (w : World) :
  length (fst (new_roomId w)) = 43%nat /\
  Forall (fun c => is_url_safe_char c = true) (fst (new_roomId w)) /\
  consumed (snd (new_roomId w)) = (consumed w + 32)%nat /\
  entropy (snd (new_roomId w)) = entropy w.
Proof.
  unfold new_roomId, randomBytes.
  pose proof (getRandomValues_length 32 w) as Hlen.
  destruct (getRandomValues 32 w) as [token w'] eqn:E. cbn [fst snd] in *.
  destruct (roomId_of_url_safe token Hlen) as [H1 H2].
  unfold getRandomValues in E. injection E as _ <-.
  repeat split; assumption.
Qed.

(** X16: the id loses nothing of the token: two rooms made of different
    random bytes have different ids. *)
Theorem new_roomId_distinct (w1 w2 : World) :
  fst (randomBytes 32 w1) <> fst (randomBytes 32 w2) ->
  fst (new_roomId w1) <> fst (new_roomId w2).
Proof.
  intros Hne E. apply Hne. unfold new_roomId, randomBytes in *.
  pose proof (getRandomValues_length 32 w1) as H1.
  pose proof (getRandomValues_length 32 w2) as H2.
  destruct (getRandomValues 32 w1) as [token1 w1'].
  destruct (getRandomValues 32 w2) as [token2 w2']. cbn [fst] in *.
  now apply roomId_of_injective.
Qed.

(** Two states with the same fields are the same state. *)
Lemma room_ext (r1 r2 : Room) :
  userId r1 = userId r2 -> nicknameRef r1 = nicknameRef r2 ->
  hasJoined r1 = hasJoined r2 -> error r1 = error r2 ->
  keyPairRef r1 = keyPairRef r2 -> sharedKeysRef r1 = sharedKeysRef r2 ->
  sharedKeysVersion r1 = sharedKeysVersion r2 -> messages r1 = messages r2 ->
  messageInput r1 = messageInput r2 -> isSending r1 = isSending r2 ->
  channelRef r1 = channelRef r2 -> sent r1 = sent r2 ->
  console r1 = console r2 -> world r1 = world r2 -> r1 = r2.
Proof. destruct r1, r2. cbn. intros. subst. reflexivity. Qed.

Lemma randomUUID_world (w : World) :
  snd (randomUUID w) =
    {| entropy := entropy w; consumed := consumed w + 16; clock := clock w |}.
Proof. reflexivity. Qed.

(* ================================================================== *)
(** * The room: joining *)

Section Joining.
Context {P : Primitives}.

(** X17: a nickname that is blank, or longer than 20 code units once
    trimmed, is refused: the banner is set and nothing else happens; no key
    pair is made, no randomness drawn, no channel opened. *)
Theorem handleJoinRoom_rejects (nickname : jsstring) (r : Room) :
  (trim nickname = [] ->
   handleJoinRoom nickname r = setError nickname_required r) /\
  ((20 < length (trim nickname))%nat ->
   handleJoinRoom nickname r = setError nickname_too_long r) /\
  (~ nickname_ok nickname ->
   let r' := handleJoinRoom nickname r in
   error r' <> None /\ keyPairRef r' = keyPairRef r /\ channelRef r' = channelRef r /\
   nicknameRef r' = nicknameRef r /\ world r' = world r /\ sent r' = sent r /\
   console r' = console r /\ hasJoined r' = hasJoined r).
Proof.
  assert (H1 : trim nickname = [] ->
               handleJoinRoom nickname r = setError nickname_required r).
  { intros H. unfold handleJoinRoom. now rewrite H. }
  assert (H2 : (20 < length (trim nickname))%nat ->
               handleJoinRoom nickname r = setError nickname_too_long r).
  { intros H. unfold handleJoinRoom.
    destruct (trim nickname) as [|u rest] eqn:E; [cbn in H; lia|].
    destruct (Nat.ltb_spec 20 (length (u :: rest))); [reflexivity|lia]. }
  split; [exact H1|]. split; [exact H2|].
  intros Hbad r'. subst r'. unfold nickname_ok in Hbad.
  destruct (trim nickname) as [|u rest] eqn:E.
  - rewrite H1 by reflexivity. cbn. repeat split; discriminate.
  - destruct (Nat.ltb_spec 20 (length (u :: rest))) as [Hlong|Hshort].
    + rewrite H2 by exact Hlong. cbn. repeat split; discriminate.
    + exfalso. apply Hbad. split; [discriminate|exact Hshort].
Qed.

(** What [handleJoinRoom] does with a nickname it accepts. *)
Lemma handleJoinRoom_accepts (nickname : jsstring) (r : Room) :
  nickname_ok nickname ->
  let scalar := fst (getRandomValues 32 (world r)) in
  let exported := {| key := Array_from (X25519 scalar base_point) |} in
  handleJoinRoom nickname r =
    {| userId := userId r; nicknameRef := trim nickname; hasJoined := hasJoined r;
       error := error r; keyPairRef := Some (key_pair_of_scalar scalar);
       sharedKeysRef := sharedKeysRef r; sharedKeysVersion := sharedKeysVersion r;
       messages := messages r; messageInput := messageInput r;
       isSending := isSending r;
       channelRef := Some {| closure_publicKey := exported |};
       sent := sent r;
       console := console r ++
         [log_keypair_generated
            (getPublicKeyFingerprint (publicKey (key_pair_of_scalar scalar)))];
       world := snd (getRandomValues 32 (world r)) |}.
Proof.
  intros [Hne Hlen]. cbv zeta. unfold handleJoinRoom.
  destruct (trim nickname) as [|u rest] eqn:E; [congruence|].
  destruct (Nat.ltb_spec 20 (length (u :: rest))); [lia|].
  cbn [world set_nicknameRef]. rewrite generateKeyPair_shape.
  reflexivity.
Qed.

(** The state after joining and subscribing. *)
Lemma joined_state (nickname : jsstring) (w : World) :
  nickname_ok nickname ->
  let scalar := fst (getRandomValues 32 (world (mount w))) in
  let exported := {| key := Array_from (X25519 scalar base_point) |} in
  joined nickname w =
    {| userId := userId (mount w); nicknameRef := trim nickname; hasJoined := true;
       error := None; keyPairRef := Some (key_pair_of_scalar scalar);
       sharedKeysRef := []; sharedKeysVersion := 0; messages := [];
       messageInput := []; isSending := false;
       channelRef := Some {| closure_publicKey := exported |};
       sent := [PublicKeyEvent
                  {| pk_userId := userId (mount w); pk_nickname := trim nickname;
                     pk_publicKey := exported; pk_timestamp := clock w |}];
       console :=
         [log_keypair_generated
            (getPublicKeyFingerprint (publicKey (key_pair_of_scalar scalar)));
          log_connected];
       world := snd (getRandomValues 32 (world (mount w))) |}.
Proof.
  intros Hok. cbv zeta. unfold joined, run. cbn [fold_left step].
  rewrite handleJoinRoom_accepts by exact Hok. cbv zeta.
  cbn [channelRef]. unfold on_subscribed.
  apply room_ext; room_fields; try reflexivity.
Qed.

(** X18: joining with a nickname that is accepted, then the [SUBSCRIBED]
    callback: the participant keeps a fresh key pair, has announced the
    public half of it once, under its id and its trimmed nickname, and
    nothing else has been sent; the console has the fingerprint computed
    from the hash of that public key, the export of the participant's own
    key not being refused.  The banner is as it was. *)
Theorem joined_announces (nickname : jsstring) (w : World) :
  nickname_ok nickname ->
  let r := joined nickname w in
  let scalar := fst (getRandomValues 32 (world (mount w))) in
  userId r = userId (mount w) /\ nicknameRef r = trim nickname /\
  hasJoined r = true /\ error r = None /\
  keyPairRef r = Some (key_pair_of_scalar scalar) /\
  sent r =
    [PublicKeyEvent
       {| pk_userId := userId (mount w); pk_nickname := trim nickname;
          pk_publicKey := {| key := Array_from (X25519 scalar base_point) |};
          pk_timestamp := clock w |}] /\
  console r =
    [log_keypair_generated (fingerprint_spec (X25519 scalar base_point));
     log_connected] /\
  sharedKeysRef r = [] /\ messages r = [] /\
  consumed (world r) = (consumed w + 16 + 32)%nat.
Proof.
  intros Hok r scalar. subst r scalar.
  rewrite joined_state by exact Hok. cbv zeta.
  cbn [userId nicknameRef hasJoined error keyPairRef sent console sharedKeysRef
       messages world].
  rewrite (@fingerprint_of_raw _ _
             (X25519 (fst (getRandomValues 32 (world (mount w)))) base_point))
    by reflexivity.
  repeat split.
Qed.

End Joining.

(* ================================================================== *)
(** * The room: sending *)

Section Sending.
Context {P : Primitives}.

(** The loop over the key table draws one nonce after the other from the
    random source. *)
Lemma encrypt_for_each_nonces (messageContent : jsstring)
  (recipientKeys : list (jsstring * CryptoKey)) (w : World) :
  Forall (fun e => usable_key (snd e) = true) recipientKeys ->
  exists encryptedMessages w',
    encrypt_for_each messageContent recipientKeys w = (Ok encryptedMessages, w') /\
    length encryptedMessages = length recipientKeys /\
    entropy w' = entropy w /\ clock w' = clock w /\
    consumed w' = (consumed w + 12 * length recipientKeys)%nat /\
    Forall2 (sealed_for messageContent) recipientKeys encryptedMessages /\
    forall (i : nat) (msg : RecipientCiphertext),
      nth_error encryptedMessages i = Some msg ->
      iv (encrypted msg) =
        Array_from (map (entropy w) (seq (consumed w + 12 * i) 12)).
Proof.
  intros Hok. revert w. induction Hok as [|[k K] rest HK _ IH]; intros w.
  - exists [], w. cbn. repeat split; try lia; [constructor|].
    intros [|i] msg; discriminate.
  - cbn [encrypt_for_each]. cbn [snd] in HK.
    rewrite encryptMessage_usable by assumption. cbv zeta.
    destruct (IH (snd (getRandomValues 12 w)))
      as (msgs & w' & E & Hlen & Hent & Hclock & Hcons & Hall & Hnonce).
    rewrite E. eexists _, w'. split; [reflexivity|].
    cbn [getRandomValues fst snd entropy consumed clock] in *.
    split; [cbn; now rewrite Hlen|]. split; [exact Hent|]. split; [exact Hclock|].
    split; [cbn [length]; lia|]. split.
    + constructor; [|exact Hall].
      split; [reflexivity|]. eexists. split; [|reflexivity].
      now rewrite length_map, length_seq.
    + intros [|i] msg Hnth.
      * cbn in Hnth. injection Hnth as <-. cbn [encrypted iv].
        now rewrite Nat.mul_0_r, Nat.add_0_r.
      * cbn [nth_error] in Hnth. rewrite (Hnonce i msg Hnth).
        do 3 f_equal. lia.
Qed.

(** The state after a send that is not held back. *)
Lemma handleSendMessage_proceeds (r : Room) (channel : Channel) :
  table_ok r ->
  channelRef r = Some channel -> isSending r = false ->
  trim (messageInput r) <> [] ->
  exists encryptedMessages w',
    encrypt_for_each (trim (messageInput r)) (JsMap.entries (sharedKeysRef r))
      (snd (randomUUID (world r))) = (Ok encryptedMessages, w') /\
    handleSendMessage r =
      {| userId := userId r; nicknameRef := nicknameRef r; hasJoined := hasJoined r;
         error := error r; keyPairRef := keyPairRef r;
         sharedKeysRef := sharedKeysRef r; sharedKeysVersion := sharedKeysVersion r;
         messages := messages r ++ [own_message r]; messageInput := [];
         isSending := false; channelRef := channelRef r;
         sent := sent r ++
                 match sharedKeysRef r with
                 | [] => []
                 | _ => [outgoing_message r encryptedMessages]
                 end;
         console := console r ++
                    [match sharedKeysRef r with
                     | [] => warn_no_recipients
                     | _ => log_message_sent (length (sharedKeysRef r))
                     end];
         world := w' |}.
Proof.
  intros (_ & _ & Hkeys) Hch Hsending Hinput.
  unfold handleSendMessage, own_message, outgoing_message.
  rewrite Hch, Hsending.
  destruct (trim (messageInput r)) as [|u content] eqn:Htrim; [congruence|].
  cbn [world setMessageInput setIsSending].
  pose proof (randomUUID_world (world r)) as Hw1.
  destruct (randomUUID (world r)) as [messageId w1]. cbn [fst snd] in *.
  assert (Hclock : clock w1 = clock (world r)) by now rewrite Hw1.
  cbn [world set_world setMessageInput setIsSending appendMessage sharedKeysRef
       JsMap.entries userId nicknameRef Date_now].
  unfold Date_now. rewrite Hclock. clear Hw1 Hclock.
  destruct (sharedKeysRef r) as [|entry rest] eqn:Htable.
  - eexists [], _. split; [reflexivity|].
    apply room_ext; room_fields; rewrite ?app_nil_r; auto.
  - destruct (encrypt_for_each_usable (u :: content) w1 Hkeys)
      as (msgs & w' & E & _ & Hall).
    unfold JsMap.entries in *. rewrite E.
    exists msgs, w'. split; [reflexivity|].
    apply room_ext; room_fields; auto.
Qed.

(** X19: when a send is held back, and what every send that is not leaves
    behind. *)
Theorem handleSendMessage_guard (r : Room) :
  (trim (messageInput r) = [] \/ channelRef r = None \/ isSending r = true ->
   handleSendMessage r = r) /\
  (trim (messageInput r) <> [] -> channelRef r <> None -> isSending r = false ->
   let r' := handleSendMessage r in
   messageInput r' = [] /\ isSending r' = false /\
   messages r' = messages r ++ [own_message r] /\
   isOwn (own_message r) = true /\ senderId (own_message r) = userId r /\
   sharedKeysRef r' = sharedKeysRef r /\ keyPairRef r' = keyPairRef r).
Proof.
  split.
  - intros H. unfold handleSendMessage.
    destruct (trim (messageInput r)) as [|u content]; [reflexivity|].
    destruct (channelRef r); [|reflexivity].
    destruct (isSending r); [reflexivity|].
    destruct H as [H|[H|H]]; discriminate.
  - intros Hinput Hch Hsending r'. subst r'.
    unfold handleSendMessage, own_message. rewrite Hsending.
    destruct (trim (messageInput r)) as [|u content] eqn:Htrim; [congruence|].
    destruct (channelRef r) as [channel|]; [|congruence].
    cbn [world setMessageInput setIsSending].
    pose proof (randomUUID_world (world r)) as Hw1.
    destruct (randomUUID (world r)) as [messageId w1]. cbn [fst snd] in *.
    assert (Hclock : clock w1 = clock (world r)) by now rewrite Hw1.
    cbn [world set_world setMessageInput setIsSending appendMessage sharedKeysRef
         JsMap.entries userId nicknameRef Date_now].
    unfold Date_now. rewrite Hclock. clear Hw1 Hclock.
    destruct (sharedKeysRef r) as [|entry rest] eqn:Htable;
      [room_fields; now rewrite Htable|].
    destruct (encrypt_for_each (u :: content) (entry :: rest) w1) as [[msgs|e] w'];
      room_fields; now rewrite Htable.
Qed.

(** X20: the random bytes of a send: 16 for the id of the message, then 12
    for the nonce of each recipient, in the order of the key table; no
    byte is used twice. *)
Theorem handleSendMessage_nonces (r : Room) (channel : Channel) :
  table_ok r ->
  channelRef r = Some channel -> isSending r = false ->
  trim (messageInput r) <> [] -> sharedKeysRef r <> [] ->
  let r' := handleSendMessage r in
  exists encryptedMessages,
    sent r' = sent r ++ [outgoing_message r encryptedMessages] /\
    length encryptedMessages = JsMap.size (sharedKeysRef r) /\
    (forall (i : nat) (msg : RecipientCiphertext),
       nth_error encryptedMessages i = Some msg ->
       iv (encrypted msg) =
         Array_from (map (entropy (world r))
                       (seq (consumed (world r) + 16 + 12 * i) 12))) /\
    entropy (world r') = entropy (world r) /\
    consumed (world r') =
      (consumed (world r) + 16 + 12 * JsMap.size (sharedKeysRef r))%nat.
Proof.
  intros Hok Hch Hsending Hinput Htable r'. subst r'.
  destruct (handleSendMessage_proceeds Hok Hch Hsending Hinput)
    as (msgs & w' & E & ->).
  destruct Hok as (_ & _ & Hkeys).
  destruct (encrypt_for_each_nonces (trim (messageInput r))
              (snd (randomUUID (world r))) Hkeys)
    as (msgs' & w'' & E' & Hlen & Hent & _ & Hcons & _ & Hnonce).
  rewrite E in E'. injection E' as <- <-.
  exists msgs. cbn [sent world].
  unfold randomUUID in *. cbn [getRandomValues fst snd entropy consumed] in *.
  repeat split; auto.
  destruct (sharedKeysRef r); [congruence|reflexivity].
Qed.

End Sending.

(* ================================================================== *)
(** * The room: announcements received *)

Section Announcements.
Context {P : Primitives}.

(** X21: the handler of key announcements.  The participant's own
    announcement, which the channel echoes, changes nothing.  An
    announcement of another sender is dropped when the key is not an array
    of 32 numbers, when the participant has no key pair yet, and when the
    derivation throws: the key table (and with it a key the sender already
    has there), the messages and the broadcasts sent are as before, no reply
    is sent, and the console says why. *)
Theorem on_public_key_drops (publicKey : SerializablePublicKey)
  (payload : PublicKeyBroadcast) (r : Room) :
  (pk_userId payload = userId r -> on_public_key publicKey payload r = r) /\
  (pk_userId payload <> userId r ->
   let r' := on_public_key publicKey payload r in
   (length (key (pk_publicKey payload)) <> 32%nat ->
    unchanged r r' /\
    console r' = console r ++ [log_public_key_received (pk_nickname payload);
                               err_key_exchange_failed PublicKeyImportFailed]) /\
   (forall theirPublicKey,
      importPublicKey (pk_publicKey payload) = Ok theirPublicKey ->
      (keyPairRef r = None ->
       unchanged r r' /\
       console r' = console r ++ [log_public_key_received (pk_nickname payload);
                                  err_keypair_uninitialised]) /\
      (forall keyPair e,
         keyPairRef r = Some keyPair ->
         deriveSharedKey (privateKey keyPair) theirPublicKey = Throw e ->
         unchanged r r' /\
         console r' = console r ++ [log_public_key_received (pk_nickname payload);
                                    err_key_exchange_failed e]))).
Proof.
  split.
  - intros Hown. unfold on_public_key. now rewrite Hown, str_eqb_refl.
  - intros Hother r'. subst r'. unfold on_public_key.
    rewrite (str_eqb_neq Hother). split.
    + intros Hlen.
      assert (E : importPublicKey (pk_publicKey payload) = Throw PublicKeyImportFailed).
      { unfold importPublicKey, importKey_raw_X25519, Uint8Array_of.
        rewrite length_map.
        destruct (Nat.eqb_spec (length (key (pk_publicKey payload))) 32);
          [contradiction|reflexivity]. }
      rewrite E. room_fields. rewrite <- app_assoc. repeat split.
    + intros theirPublicKey Himport. rewrite Himport. room_fields. split.
      * intros Hkp. rewrite Hkp. room_fields. rewrite <- app_assoc. repeat split.
      * intros keyPair e Hkp Hd. rewrite Hkp, Hd. room_fields.
        rewrite <- app_assoc. repeat split.
Qed.

(** What [on_public_key] does with an announcement it accepts. *)
Lemma on_public_key_accepts (publicKey : SerializablePublicKey)
  (payload : PublicKeyBroadcast) (r : Room) (keyPair : KeyPair)
  (theirPublicKey sharedKey : CryptoKey) :
  pk_userId payload <> userId r ->
  importPublicKey (pk_publicKey payload) = Ok theirPublicKey ->
  keyPairRef r = Some keyPair ->
  deriveSharedKey (privateKey keyPair) theirPublicKey = Ok sharedKey ->
  let r' := on_public_key publicKey payload r in
  sharedKeysRef r' = JsMap.set (pk_userId payload) sharedKey (sharedKeysRef r) /\
  sent r' = sent r ++
            match JsMap.get (pk_userId payload) (sharedKeysRef r) with
            | None => [PublicKeyEvent
                         {| pk_userId := userId r; pk_nickname := nicknameRef r;
                            pk_publicKey := publicKey;
                            pk_timestamp := clock (world r) |}]
            | Some _ => []
            end /\
  userId r' = userId r /\ nicknameRef r' = nicknameRef r /\
  keyPairRef r' = keyPairRef r /\ channelRef r' = channelRef r /\
  messages r' = messages r /\ world r' = world r /\ hasJoined r' = hasJoined r.
Proof.
  intros Hother Himport Hkp Hd r'. subst r'. unfold on_public_key.
  rewrite (str_eqb_neq Hother), Himport. room_fields. rewrite Hkp, Hd.
  destruct (JsMap.get (pk_userId payload) (sharedKeysRef r)); room_fields;
    rewrite ?app_nil_r; repeat split; auto.
Qed.

(** What the handlers leave of the broadcasts sent and the messages
    displayed. *)
Lemma on_public_key_sent (publicKey : SerializablePublicKey)
  (payload : PublicKeyBroadcast) (r : Room) :
  let r' := on_public_key publicKey payload r in
  messages r' = messages r /\ nicknameRef r' = nicknameRef r /\
  world r' = world r /\
  (sent r' = sent r \/
   sent r' = sent r ++
     [PublicKeyEvent {| pk_userId := userId r; pk_nickname := nicknameRef r;
                        pk_publicKey := publicKey;
                        pk_timestamp := clock (world r) |}]).
Proof.
  cbv zeta. unfold on_public_key.
  destruct (str_eqb (pk_userId payload) (userId r)); [auto|].
  destruct (importPublicKey (pk_publicKey payload)) as [theirPublicKey|];
    [|room_fields; auto].
  room_fields.
  destruct (keyPairRef r) as [keyPair|]; [|room_fields; auto].
  destruct (deriveSharedKey (privateKey keyPair) theirPublicKey) as [sharedKey|];
    [|room_fields; auto].
  destruct (JsMap.get _ _); room_fields; auto.
Qed.

Lemma on_message_sent (payload : MessagePayload) (r : Room) :
  let r' := on_message payload r in
  sent r' = sent r /\ nicknameRef r' = nicknameRef r /\
  keyPairRef r' = keyPairRef r /\ world r' = world r /\
  (messages r' = messages r \/
   p_senderId payload <> userId r /\
   exists decryptedContent,
     messages r' = messages r ++ [received payload decryptedContent]).
Proof.
  unfold on_message. cbv zeta.
  destruct (str_eqb_spec (p_senderId payload) (userId r)) as [|Hother];
    [repeat split; auto|].
  assert (Hdecrypt : forall encrypted sharedKey log,
            let r' := match decryptMessage encrypted sharedKey with
                      | Ok decryptedContent =>
                          console_log log
                            (appendMessage (received payload decryptedContent) r)
                      | Throw e => console_log (err_decrypt_failed e) r
                      end in
            sent r' = sent r /\ nicknameRef r' = nicknameRef r /\
            keyPairRef r' = keyPairRef r /\ world r' = world r /\
            (messages r' = messages r \/
             p_senderId payload <> userId r /\
             exists decryptedContent,
               messages r' = messages r ++ [received payload decryptedContent])).
  { intros encrypted sharedKey log. cbv zeta.
    destruct (decryptMessage encrypted sharedKey) as [decryptedContent|e];
      room_fields; repeat split; auto.
    right. split; eauto. }
  destruct (p_encryptedMessages payload) as [encryptedMessages|].
  - destruct (find (fun msg => str_eqb (recipientId msg) (userId r)) encryptedMessages)
      as [myEncryptedMessage|]; [|room_fields; auto 10].
    destruct (JsMap.get (p_senderId payload) (sharedKeysRef r)) as [sharedKey|];
      [apply Hdecrypt | room_fields; auto 10].
  - destruct (p_encrypted payload) as [encrypted|]; [|auto 10].
    destruct (JsMap.get (p_senderId payload) (sharedKeysRef r)) as [sharedKey|];
      [apply Hdecrypt | room_fields; auto 10].
Qed.

End Announcements.

(* ================================================================== *)
(** * The room: what holds in every state *)

Section Reachable.
Context {P : Primitives}.

Lemma handleJoinRoom_frame (nickname : jsstring) (r : Room) :
  messages (handleJoinRoom nickname r) = messages r /\
  sent (handleJoinRoom nickname r) = sent r.
Proof.
  unfold handleJoinRoom.
  destruct (trim nickname); [split; reflexivity|].
  destruct (Nat.ltb _ _); [split; reflexivity|].
  rewrite generateKeyPair_shape.
  destruct (exportPublicKey _); split; reflexivity.
Qed.

Lemma handleSendMessage_appends (r : Room) :
  exists ms bs,
    messages (handleSendMessage r) = messages r ++ ms /\
    sent (handleSendMessage r) = sent r ++ bs /\
    (length ms <= 1)%nat /\ (length bs <= 1)%nat.
Proof.
  unfold handleSendMessage.
  destruct (trim (messageInput r)) as [|u content];
    [exists [], []; rewrite !app_nil_r; auto|].
  destruct (channelRef r); [|exists [], []; rewrite !app_nil_r; auto].
  destruct (isSending r); [exists [], []; rewrite !app_nil_r; auto|].
  cbn [world setMessageInput setIsSending].
  destruct (randomUUID (world r)) as [messageId w1].
  cbn [world set_world setMessageInput setIsSending appendMessage sharedKeysRef
       JsMap.entries userId nicknameRef Date_now clock].
  destruct (sharedKeysRef r) as [|entry rest].
  - eexists [_], []. room_fields. rewrite app_nil_r. auto.
  - destruct (encrypt_for_each (u :: content) (entry :: rest) w1) as [[msgs|e] w'].
    + eexists [_], [_]. room_fields. auto.
    + eexists [_], []. room_fields. rewrite app_nil_r. auto.
Qed.

Lemma step_appends (ev : Event) (r : Room) :
  exists ms bs,
    messages (step ev r) = messages r ++ ms /\
    sent (step ev r) = sent r ++ bs /\
    (length ms <= 1)%nat /\ (length bs <= 1)%nat.
Proof.
  assert (Hnone : forall r', messages r' = messages r -> sent r' = sent r ->
            exists ms bs, messages r' = messages r ++ ms /\ sent r' = sent r ++ bs /\
                          (length ms <= 1)%nat /\ (length bs <= 1)%nat).
  { intros r' Hm Hs. exists [], []. rewrite !app_nil_r. auto. }
  destruct ev as [nickname| |[payload|payload]|text|]; cbn [step].
  - apply Hnone; apply handleJoinRoom_frame.
  - destruct (channelRef r) as [channel|]; [|now apply Hnone].
    exists [], [own_announcement channel r]. rewrite app_nil_r. cbn. auto.
  - destruct (channelRef r) as [channel|]; [|now apply Hnone].
    destruct (on_public_key_sent (closure_publicKey channel) payload r)
      as (Hm & _ & _ & [Hs|Hs]).
    + now apply Hnone.
    + exists [], [own_announcement channel r]. rewrite app_nil_r, Hm, Hs. auto.
  - destruct (channelRef r) as [channel|]; [|now apply Hnone].
    destruct (on_message_sent payload r) as (Hs & _ & _ & _ & [Hm|[_ [text Hm]]]).
    + now apply Hnone.
    + exists [received payload text], []. rewrite app_nil_r, Hm, Hs. auto.
  - now apply Hnone.
  - apply handleSendMessage_appends.
Qed.

(** From any state, a run appends: what was displayed and what was sent
    stays, with one line and one broadcast more for each event at most. *)
Lemma run_grows (evs : list Event) (r : Room) :
  exists ms bs,
    messages (run evs r) = messages r ++ ms /\
    sent (run evs r) = sent r ++ bs /\
    (length ms <= length evs)%nat /\ (length bs <= length evs)%nat.
Proof.
  revert r. induction evs as [|ev evs IH]; intros r.
  - exists [], []. cbn. rewrite !app_nil_r. auto.
  - change (run (ev :: evs) r) with (run evs (step ev r)).
    destruct (IH (step ev r)) as (ms & bs & Hm & Hs & Hlm & Hlb).
    destruct (step_appends ev r) as (ms0 & bs0 & Hm0 & Hs0 & Hlm0 & Hlb0).
    exists (ms0 ++ ms), (bs0 ++ bs).
    rewrite Hm, Hs, Hm0, Hs0, !app_assoc, !length_app. cbn [length].
    repeat split; lia.
Qed.

Lemma run_app (evs1 evs2 : list Event) (r : Room) :
  run (evs1 ++ evs2) r = run evs2 (run evs1 r).
Proof. apply fold_left_app. Qed.

(** X22: as long as the participant joins once at most, the conversation on
    the screen and the broadcasts sent only grow: whatever events come
    after, the lines and the broadcasts there were are still there, in
    their order, and each event has added at most one of either. *)
Theorem run_appends (w : World) (before after : list Event) :
  at_most_one_join (before ++ after) = true ->
  exists ms bs,
    messages (run (before ++ after) (mount w)) = messages (run before (mount w)) ++ ms /\
    sent (run (before ++ after) (mount w)) = sent (run before (mount w)) ++ bs /\
    (length ms <= length after)%nat /\ (length bs <= length after)%nat.
Proof.
  intros _. rewrite run_app. apply run_grows.
Qed.

(** X23: before the participant joins, nothing is sent, displayed or keyed,
    and no randomness is drawn, whatever arrives and whatever is typed. *)
Theorem before_joining (w : World) (evs : list Event) :
  existsb is_join evs = false ->
  let r := run evs (mount w) in
  sent r = [] /\ messages r = [] /\ sharedKeysRef r = [] /\
  keyPairRef r = None /\ channelRef r = None /\ hasJoined r = false /\
  world r = world (mount w).
Proof.
  intros Hevs r. subst r.
  enough (H : forall r0,
            channelRef r0 = None ->
            let r := run evs r0 in
            sent r = sent r0 /\ messages r = messages r0 /\
            sharedKeysRef r = sharedKeysRef r0 /\ keyPairRef r = keyPairRef r0 /\
            channelRef r = None /\ hasJoined r = hasJoined r0 /\ world r = world r0).
  { destruct (H (mount w)) as (H1 & H2 & H3 & H4 & H5 & H6 & H7); [reflexivity|].
    rewrite H1, H2, H3, H4, H5, H6, H7. repeat split. }
  induction evs as [|ev evs IH]; intros r0 Hch; [cbn; auto 10|].
  cbn [existsb] in Hevs. apply orb_false_elim in Hevs. destruct Hevs as [Hev Hevs].
  change (run (ev :: evs) r0) with (run evs (step ev r0)). cbv zeta.
  assert (Hstep : step ev r0 = r0 \/ exists text, step ev r0 = setMessageInput text r0).
  { destruct ev as [nickname| |b|text|]; cbn [step is_join] in *;
      try discriminate; rewrite ?Hch; auto.
    - right. eauto.
    - left. unfold handleSendMessage. rewrite Hch.
      now destruct (trim (messageInput r0)). }
  destruct Hstep as [->|[text ->]]; [now apply IH|].
  destruct (IH Hevs (setMessageInput text r0) Hch) as (H1 & H2 & H3 & H4 & H5 & H6 & H7).
  rewrite H1, H2, H3, H4, H5, H6, H7. repeat split.
Qed.

(** The recipients of the ciphertexts are the peers of the key table. *)
Lemma sealed_for_recipients (messageContent : jsstring)
  (recipientKeys : list (jsstring * CryptoKey))
  (encryptedMessages : list RecipientCiphertext) :
  Forall2 (sealed_for messageContent) recipientKeys encryptedMessages ->
  map recipientId encryptedMessages = JsMap.keys recipientKeys.
Proof.
  unfold JsMap.keys.
  induction 1 as [|e m es ms [He _] _ IH]; [reflexivity|].
  cbn [map]. now rewrite He, IH.
Qed.

Lemma step_userId (ev : Event) (r : Room) : userId (step ev r) = userId r.
Proof.
  destruct ev as [nickname| |[payload|payload]|text|]; cbn [step].
  - apply handleJoinRoom_table.
  - now destruct (channelRef r).
  - destruct (channelRef r) as [channel|]; [|reflexivity].
    apply on_public_key_table.
  - destruct (channelRef r) as [channel|]; [|reflexivity].
    apply on_message_table.
  - reflexivity.
  - apply handleSendMessage_table.
Qed.

(** What a step keeps: the table in order, the broadcasts addressed as
    they must be, and own and received lines told apart. *)
Lemma step_keeps_addressing (uid : jsstring) (ev : Event) (r : Room) :
  userId r = uid -> table_ok r ->
  Forall (addressed_to_peers uid) (sent r) ->
  Forall (fun m => isOwn m = true <-> senderId m = uid) (messages r) ->
  userId (step ev r) = uid /\ table_ok (step ev r) /\
  Forall (addressed_to_peers uid) (sent (step ev r)) /\
  Forall (fun m => isOwn m = true <-> senderId m = uid) (messages (step ev r)).
Proof.
  intros Hu Hok Hs Hm.
  split; [now rewrite step_userId|]. split; [now apply step_preserves_table_ok|].
  destruct ev as [nickname| |[payload|payload]|text|]; cbn [step].
  - destruct (handleJoinRoom_frame nickname r) as [-> ->]. auto.
  - destruct (channelRef r); [|auto]. cbn. split; [|exact Hm].
    apply Forall_app. split; [exact Hs|]. constructor; [exact Hu|constructor].
  - destruct (channelRef r) as [channel|]; [|auto].
    destruct (on_public_key_sent (closure_publicKey channel) payload r)
      as (-> & _ & _ & [->| ->]); split; auto.
    apply Forall_app. split; [exact Hs|]. constructor; [exact Hu|constructor].
  - destruct (channelRef r) as [channel|]; [|auto].
    destruct (on_message_sent payload r) as (-> & _ & _ & _ & [->|[Hother [text ->]]]);
      split; auto.
    apply Forall_app. split; [exact Hm|]. constructor; [|constructor].
    cbn [received isOwn senderId]. split; [discriminate|].
    intros E. exfalso. apply Hother. congruence.
  - auto.
  - destruct (trim (messageInput r)) as [|u content] eqn:Htrim.
    { unfold handleSendMessage. rewrite Htrim. auto. }
    destruct (channelRef r) as [channel|] eqn:Hch.
    2:{ unfold handleSendMessage. rewrite Htrim, Hch. auto. }
    destruct (isSending r) eqn:Hsending.
    { unfold handleSendMessage. rewrite Htrim, Hch, Hsending. auto. }
    assert (Hinput : trim (messageInput r) <> []) by (rewrite Htrim; discriminate).
    destruct (handleSendMessage_proceeds Hok Hch Hsending Hinput)
      as (msgs & w' & E & ->).
    cbn [sent messages]. split.
    + apply Forall_app. split; [exact Hs|].
      destruct (sharedKeysRef r) as [|entry rest] eqn:Htable; [constructor|].
      constructor; [|constructor].
      destruct Hok as (Hnd & Hself & Hkeys). rewrite Htable in Hnd, Hself, Hkeys.
      destruct (encrypt_for_each_usable (trim (messageInput r))
                  (snd (randomUUID (world r))) Hkeys) as (msgs' & w'' & E' & _ & Hall).
      unfold JsMap.entries in E, E'. rewrite E in E'. injection E' as <- <-.
      pose proof (sealed_for_recipients Hall) as Hids.
      cbn [outgoing_message addressed_to_peers p_senderId p_encrypted
           p_encryptedMessages].
      split; [exact Hu|]. split; [reflexivity|].
      exists msgs. split; [reflexivity|]. rewrite Hids, <- Hu.
      split; [|split; assumption].
      intros ->. inversion Hall.
    + apply Forall_app. split; [exact Hm|]. constructor; [|constructor].
      cbn [own_message isOwn senderId]. split; auto.
Qed.

Lemma run_keeps_addressing (uid : jsstring) (evs : list Event) (r : Room) :
  userId r = uid -> table_ok r ->
  Forall (addressed_to_peers uid) (sent r) ->
  Forall (fun m => isOwn m = true <-> senderId m = uid) (messages r) ->
  Forall (addressed_to_peers uid) (sent (run evs r)) /\
  Forall (fun m => isOwn m = true <-> senderId m = uid) (messages (run evs r)).
Proof.
  revert r. induction evs as [|ev evs IH]; intros r Hu Hok Hs Hm; [now split|].
  change (run (ev :: evs) r) with (run evs (step ev r)).
  destruct (step_keeps_addressing ev Hu Hok Hs Hm) as (Hu' & Hok' & Hs' & Hm').
  now apply IH.
Qed.

(** X24: whatever happens, every broadcast the participant has sent is under
    its own id; every message broadcast is in the current format, has at
    least one ciphertext, one per recipient, and none for the sender. *)
Theorem sent_is_addressed_to_peers (w : World) (evs : list Event) :
  Forall (addressed_to_peers (userId (mount w))) (sent (run evs (mount w))).
Proof.
  apply run_keeps_addressing; try reflexivity; try apply mount_table_ok;
    unfold mount; destruct (generateUserId w); constructor.
Qed.

(** X25: whatever happens, the lines marked as the participant's own are
    those under its id: no broadcast can put a line into the conversation
    as the participant's own, or under the participant's id. *)
Theorem own_lines_are_own (w : World) (evs : list Event) :
  Forall (fun m => isOwn m = true <-> senderId m = userId (mount w))
         (messages (run evs (mount w))).
Proof.
  apply run_keeps_addressing; try reflexivity; try apply mount_table_ok;
    unfold mount; destruct (generateUserId w); constructor.
Qed.

End Reachable.

(* ================================================================== *)
(** * The room: the key exchange *)

Section KeyExchange.
Context {P : Primitives}.

Lemma handleSendMessage_frame (r : Room) :
  let r' := handleSendMessage r in
  nicknameRef r' = nicknameRef r /\ keyPairRef r' = keyPairRef r /\
  (sent r' = sent r \/ exists payload, sent r' = sent r ++ [MessageEvent payload]).
Proof.
  cbv zeta. unfold handleSendMessage.
  destruct (trim (messageInput r)) as [|u content]; [auto|].
  destruct (channelRef r); [|auto].
  destruct (isSending r); [auto|].
  cbn [world setMessageInput setIsSending].
  destruct (randomUUID (world r)) as [messageId w1].
  cbn [world set_world setMessageInput setIsSending appendMessage sharedKeysRef
       JsMap.entries userId nicknameRef Date_now clock].
  destruct (sharedKeysRef r) as [|entry rest]; [room_fields; auto|].
  destruct (encrypt_for_each (u :: content) (entry :: rest) w1) as [[msgs|e] w'];
    room_fields; eauto.
Qed.

(** X26: after one join, every key announcement the participant sends, on
    subscribing and in every reply, is under its id and its nickname and
    carries the public key of the key pair it holds. *)
Theorem announcements_carry_own_key (nickname : jsstring) (w : World)
  (evs : list Event) :
  nickname_ok nickname -> existsb is_join evs = false ->
  let r := run (Join nickname :: evs) (mount w) in
  let keyPair := key_pair_of_scalar (fst (getRandomValues 32 (world (mount w)))) in
  keyPairRef r = Some keyPair /\
  Forall (announces (userId (mount w)) (trim nickname) keyPair) (sent r).
Proof.
  intros Hok Hevs r keyPair. subst r.
  change (run (Join nickname :: evs) (mount w))
    with (run evs (handleJoinRoom nickname (mount w))).
  set (uid := userId (mount w)).
  enough (H : forall r0,
            userId r0 = uid -> nicknameRef r0 = trim nickname ->
            keyPairRef r0 = Some keyPair ->
            channelRef r0 =
              Some {| closure_publicKey :=
                        {| key := Array_from (key_data (publicKey keyPair)) |} |} ->
            Forall (announces uid (trim nickname) keyPair) (sent r0) ->
            keyPairRef (run evs r0) = Some keyPair /\
            Forall (announces uid (trim nickname) keyPair) (sent (run evs r0))).
  { apply H; rewrite handleJoinRoom_accepts by exact Hok; cbv zeta; try reflexivity.
    cbn [sent]. unfold mount. destruct (generateUserId w). constructor. }
  clear Hok. induction evs as [|ev evs IH]; intros r0 Hu Hn Hk Hc Hs; [now split|].
  cbn [existsb] in Hevs. apply orb_false_elim in Hevs. destruct Hevs as [Hev Hevs].
  change (run (ev :: evs) r0) with (run evs (step ev r0)).
  assert (Hannounce : announces uid (trim nickname) keyPair
            (PublicKeyEvent
               {| pk_userId := userId r0; pk_nickname := nicknameRef r0;
                  pk_publicKey := {| key := Array_from (key_data (publicKey keyPair)) |};
                  pk_timestamp := clock (world r0) |})).
  { cbn. now rewrite Hu, Hn. }
  apply (IH Hevs).
  - now rewrite step_userId.
  - destruct ev as [n| |[payload|payload]|text|]; cbn [step is_join] in *;
      try discriminate; rewrite ?Hc; cbn [closure_publicKey]; try exact Hn.
    + now destruct (on_public_key_sent
                      {| key := Array_from (key_data (publicKey keyPair)) |} payload r0)
        as (_ & -> & _).
    + now destruct (on_message_sent payload r0) as (_ & -> & _).
    + now destruct (handleSendMessage_frame r0) as (-> & _).
  - destruct ev as [n| |[payload|payload]|text|]; cbn [step is_join] in *;
      try discriminate; rewrite ?Hc; cbn [closure_publicKey]; try exact Hk.
    + now destruct (on_public_key_table
                      {| key := Array_from (key_data (publicKey keyPair)) |} payload r0)
        as (_ & -> & _).
    + now destruct (on_message_sent payload r0) as (_ & _ & -> & _).
    + now destruct (handleSendMessage_frame r0) as (_ & -> & _).
  - now rewrite step_keeps_channel.
  - destruct ev as [n| |[payload|payload]|text|]; cbn [step is_join] in *;
      try discriminate; rewrite ?Hc; cbn [closure_publicKey]; try exact Hs.
    + unfold on_subscribed. room_fields. cbn [closure_publicKey].
      apply Forall_app. split; [exact Hs|]. constructor; [exact Hannounce|constructor].
    + destruct (on_public_key_sent
                  {| key := Array_from (key_data (publicKey keyPair)) |} payload r0)
        as (_ & _ & _ & [->| ->]); [exact Hs|].
      apply Forall_app. split; [exact Hs|]. constructor; [exact Hannounce|constructor].
    + now destruct (on_message_sent payload r0) as (-> & _).
    + destruct (handleSendMessage_frame r0) as (_ & _ & [->|[payload ->]]);
        [exact Hs|].
      apply Forall_app. split; [exact Hs|]. constructor; [exact I|constructor].
Qed.


Lemma valid_key_pair_drawn (w : World) :
  valid_key_pair (key_pair_of_scalar (fst (getRandomValues 32 w))).
Proof. exists w, (snd (getRandomValues 32 w)). apply generateKeyPair_shape. Qed.

Lemma importPublicKey_announced (scalar : bytes) :
  X25519_length ->
  importPublicKey {| key := Array_from (X25519 scalar base_point) |}
  = Ok (as_imported (publicKey (key_pair_of_scalar scalar))).
Proof.
  intros Hlen. unfold importPublicKey, importKey_raw_X25519. cbn [key].
  rewrite Uint8Array_of_Array_from, Hlen. reflexivity.
Qed.

Lemma step_public_key (payload : PublicKeyBroadcast) (r : Room) (channel : Channel) :
  channelRef r = Some channel ->
  step (Incoming (PublicKeyEvent payload)) r
  = on_public_key (closure_publicKey channel) payload r.
Proof. intros H. cbn [step]. now rewrite H. Qed.

(** X27: two participants who have joined exchange keys in three
    broadcasts.  The announcement of the one who joined last is answered by
    the other, the answer is answered in turn, and that second answer is
    not answered again; then each holds one key, for the other, and the two
    keys are the same key. *)
Theorem key_exchange_converges (nicknameA nicknameB : jsstring) (wA wB : World) :
  X25519_commutes -> X25519_length ->
  nickname_ok nicknameA -> nickname_ok nicknameB ->
  let A := joined nicknameA wA in
  let B := joined nicknameB wB in
  let a := fst (getRandomValues 32 (world (mount wA))) in
  let b := fst (getRandomValues 32 (world (mount wB))) in
  userId A <> userId B ->
  forallb is_zero (X25519 a (X25519 b base_point)) = false ->
  exists announcementB replyA replyB sharedKey,
    sent B = [announcementB] /\
    sent (step (Incoming announcementB) A) = sent A ++ [replyA] /\
    sent (step (Incoming replyA) B) = sent B ++ [replyB] /\
    sent (step (Incoming replyB) (step (Incoming announcementB) A))
      = sent (step (Incoming announcementB) A) /\
    sharedKeysRef (step (Incoming replyB) (step (Incoming announcementB) A))
      = [(userId B, sharedKey)] /\
    sharedKeysRef (step (Incoming replyA) B) = [(userId A, sharedKey)] /\
    key_data sharedKey = X25519 a (X25519 b base_point).
Proof.
  intros Hcomm Hlen HokA HokB A B a b Hids Hnz.
  pose proof (joined_state wA HokA) as EA. pose proof (joined_state wB HokB) as EB.
  cbv zeta in EA, EB. fold A in EA. fold B in EB. fold a in EA. fold b in EB.
  set (pkA := {| key := Array_from (X25519 a base_point) |}) in *.
  set (pkB := {| key := Array_from (X25519 b base_point) |}) in *.
  assert (HAu : userId A = userId (mount wA)) by (rewrite EA; reflexivity).
  assert (HBu : userId B = userId (mount wB)) by (rewrite EB; reflexivity).
  assert (HAn : nicknameRef A = trim nicknameA) by (rewrite EA; reflexivity).
  assert (HBn : nicknameRef B = trim nicknameB) by (rewrite EB; reflexivity).
  assert (HAk : keyPairRef A = Some (key_pair_of_scalar a)) by (rewrite EA; reflexivity).
  assert (HBk : keyPairRef B = Some (key_pair_of_scalar b)) by (rewrite EB; reflexivity).
  assert (HAc : channelRef A = Some {| closure_publicKey := pkA |})
    by (rewrite EA; reflexivity).
  assert (HBc : channelRef B = Some {| closure_publicKey := pkB |})
    by (rewrite EB; reflexivity).
  assert (HAt : sharedKeysRef A = []) by (rewrite EA; reflexivity).
  assert (HBt : sharedKeysRef B = []) by (rewrite EB; reflexivity).
  assert (HBs : sent B =
            [PublicKeyEvent {| pk_userId := userId B; pk_nickname := nicknameRef B;
                               pk_publicKey := pkB; pk_timestamp := clock wB |}])
    by (rewrite EB; reflexivity).
  clearbody A B. clear EA EB.
  set (K := raw_secret_key (privateKey (key_pair_of_scalar a))
              (publicKey (key_pair_of_scalar b))).
  assert (DAB : deriveSharedKey (privateKey (key_pair_of_scalar a))
                  (as_imported (publicKey (key_pair_of_scalar b))) = Ok K).
  { rewrite deriveSharedKey_as_imported.
    apply deriveSharedKey_succeeds;
      [exact Hlen | apply (valid_key_pair_drawn (world (mount wA)))
      | apply (valid_key_pair_drawn (world (mount wB))) | exact Hnz]. }
  assert (DBA : deriveSharedKey (privateKey (key_pair_of_scalar b))
                  (as_imported (publicKey (key_pair_of_scalar a))) = Ok K).
  { rewrite deriveSharedKey_as_imported, <- (deriveSharedKey_of_scalars a b Hcomm).
    rewrite <- deriveSharedKey_as_imported. exact DAB. }
  set (payloadB := {| pk_userId := userId B; pk_nickname := nicknameRef B;
                      pk_publicKey := pkB; pk_timestamp := clock wB |}) in *.
  set (payloadA := {| pk_userId := userId A; pk_nickname := nicknameRef A;
                      pk_publicKey := pkA; pk_timestamp := clock (world A) |}).
  set (payloadB' := {| pk_userId := userId B; pk_nickname := nicknameRef B;
                       pk_publicKey := pkB; pk_timestamp := clock (world B) |}).
  exists (PublicKeyEvent payloadB), (PublicKeyEvent payloadA),
    (PublicKeyEvent payloadB'), K.
  (* A takes the announcement of B. *)
  rewrite (step_public_key payloadB A HAc). cbn [closure_publicKey].
  destruct (@on_public_key_accepts P pkA payloadB A (key_pair_of_scalar a)
              (as_imported (publicKey (key_pair_of_scalar b))) K)
    as (HA1t & HA1s & HA1u & HA1n & HA1k & HA1c & _);
    [cbn [pk_userId payloadB]; congruence
    |apply importPublicKey_announced; exact Hlen | exact HAk | exact DAB |].
  set (A1 := on_public_key pkA payloadB A) in *.
  cbn [pk_userId payloadB] in HA1t, HA1s. rewrite HAt in HA1t, HA1s.
  cbn [JsMap.get JsMap.set] in HA1t, HA1s.
  (* B takes the reply of A. *)
  rewrite (step_public_key payloadA B HBc). cbn [closure_publicKey].
  destruct (@on_public_key_accepts P pkB payloadA B (key_pair_of_scalar b)
              (as_imported (publicKey (key_pair_of_scalar a))) K)
    as (HB1t & HB1s & _);
    [cbn [pk_userId payloadA]; congruence
    |apply importPublicKey_announced; exact Hlen | exact HBk | exact DBA |].
  cbn [pk_userId payloadA] in HB1t, HB1s. rewrite HBt in HB1t, HB1s.
  cbn [JsMap.get JsMap.set] in HB1t, HB1s.
  (* A takes the reply of B. *)
  rewrite HAc in HA1c. rewrite HAk in HA1k.
  rewrite (step_public_key payloadB' A1 HA1c). cbn [closure_publicKey].
  destruct (@on_public_key_accepts P pkA payloadB' A1 (key_pair_of_scalar a)
              (as_imported (publicKey (key_pair_of_scalar b))) K)
    as (HA2t & HA2s & _);
    [cbn [pk_userId payloadB']; congruence
    |apply importPublicKey_announced; exact Hlen | exact HA1k | exact DAB |].
  cbn [pk_userId payloadB'] in HA2t, HA2s. rewrite HA1t in HA2t, HA2s.
  cbn [JsMap.get JsMap.set] in HA2t, HA2s. rewrite str_eqb_refl in HA2t, HA2s.
  rewrite app_nil_r in HA2s.
  repeat split; auto.
  subst K. cbn [raw_secret_key key_data key_pair_of_scalar publicKey privateKey].
    apply firstn_all2. rewrite Hlen. lia.
Qed.

End KeyExchange.

(* ================================================================== *)
(** * The home page *)

Lemma trimStart_spaces (spaces s : jsstring) :
  Forall (fun u => is_js_space u = true) spaces ->
  trimStart (spaces ++ s) = trimStart s.
Proof.
  induction 1 as [|u spaces Hu _ IH]; [reflexivity|].
  cbn [app trimStart]. now rewrite Hu.
Qed.

Lemma trimStart_id (s : jsstring) :
  match s with u :: _ => is_js_space u = false | [] => True end ->
  trimStart s = s.
Proof. destruct s as [|u rest]; [reflexivity|]. cbn. now intros ->. Qed.

(** Trimming removes the white space around a text that neither begins nor
    ends with white space. *)
Lemma trim_core (before core after : jsstring) :
  Forall (fun u => is_js_space u = true) before ->
  Forall (fun u => is_js_space u = true) after ->
  match core with u :: _ => is_js_space u = false | [] => True end ->
  match rev core with u :: _ => is_js_space u = false | [] => True end ->
  core <> [] ->
  trim (before ++ core ++ after) = core.
Proof.
  intros Hb Ha Hhd Hlast Hne. unfold trim.
  rewrite trimStart_spaces by exact Hb.
  rewrite (trimStart_id (core ++ after)).
  2:{ destruct core as [|u rest]; [congruence|exact Hhd]. }
  rewrite rev_app_distr, trimStart_spaces by now apply Forall_rev.
  rewrite trimStart_id by exact Hlast. apply rev_involutive.
Qed.

Lemma url_safe_not_space (c : N) :
  is_url_safe_char c = true -> is_js_space c = false.
Proof.
  unfold is_url_safe_char, is_js_space. intros H.
  repeat match type of H with
  | (_ || _) = true => apply orb_prop in H; destruct H as [H|H]
  | (_ && _) = true => apply andb_prop in H; destruct H as [H ?]
  end;
  repeat match goal with
  | H : (_ <=? _) = true |- _ => apply N.leb_le in H
  | H : (_ =? _) = true |- _ => apply N.eqb_eq in H
  end; leb_cases; reflexivity.
Qed.

(** A trimmed text begins with no white space. *)
Lemma trim_head (s : jsstring) (u : N) (rest : jsstring) :
  trim s = u :: rest -> is_js_space u = false.
Proof.
  unfold trim. intros E.
  destruct (trimStart_split (rev (trimStart s))) as (sp & Hsp & _).
  apply (f_equal (@rev _)) in Hsp. rewrite rev_involutive, rev_app_distr, E in Hsp.
  exact (trimStart_head _ Hsp).
Qed.

(** X29: the form of the home page goes to a room only for an id that is
    not blank; the id in the route is the id typed without the white space
    around it, and neither begins nor ends with white space. *)
Theorem home_join_navigates (s : Home.State) :
  let s' := Home.handleJoinRoom s in
  (trim (Home.roomId s) = [] ->
   Home.pushed s' = Home.pushed s /\ Home.error s' = Home.room_id_required) /\
  (trim (Home.roomId s) <> [] ->
   Home.pushed s' = Home.pushed s ++ [js "/room/" ++ trim (Home.roomId s)] /\
   Home.error s' = Home.no_error /\
   (forall u rest, trim (Home.roomId s) = u :: rest -> is_js_space u = false) /\
   (forall u rest, rev (trim (Home.roomId s)) = u :: rest -> is_js_space u = false)).
Proof.
  cbv zeta. unfold Home.handleJoinRoom. cbn [Home.roomId Home.setError].
  split.
  - intros ->. split; reflexivity.
  - intros Hne. destruct (trim (Home.roomId s)) as [|u0 rest0] eqn:E; [congruence|].
    split; [reflexivity|]. split; [reflexivity|]. split.
    + intros u rest H. rewrite <- E in H. exact (trim_head _ H).
    + intros u rest Hrev. unfold trim in E. rewrite <- E, rev_involutive in Hrev.
      exact (trimStart_head _ Hrev).
Qed.

(** X30: the id of a new room, pasted into the form with white space around
    it, leads to the room. *)
Theorem home_join_created_room (s : Home.State) (w : World) (before after : jsstring) :
  Forall (fun u => is_js_space u = true) before ->
  Forall (fun u => is_js_space u = true) after ->
  Home.roomId s = before ++ fst (new_roomId w) ++ after ->
  Home.pushed (Home.handleJoinRoom s)
  = Home.pushed s ++ [js "/room/" ++ fst (new_roomId w)].
Proof.
  intros Hb Ha E.
  assert (Hid : length (fst (new_roomId w)) = 43%nat /\
                Forall (fun c => is_url_safe_char c = true) (fst (new_roomId w))).
  { unfold new_roomId, randomBytes.
    pose proof (getRandomValues_length 32 w) as Hlen.
    destruct (getRandomValues 32 w) as [token w']. cbn [fst] in *.
    now apply roomId_of_url_safe. }
  destruct Hid as [Hlen Hsafe].
  assert (Htrim : trim (Home.roomId s) = fst (new_roomId w)).
  { rewrite E. apply trim_core; try assumption.
    - destruct (fst (new_roomId w)) as [|u rest]; [exact I|].
      inversion Hsafe; subst. now apply url_safe_not_space.
    - apply Forall_rev in Hsafe.
      destruct (rev (fst (new_roomId w))) as [|u rest]; [exact I|].
      inversion Hsafe; subst. now apply url_safe_not_space.
    - intros E0. rewrite E0 in Hlen. discriminate. }
  unfold Home.handleJoinRoom. cbn [Home.roomId Home.setError]. rewrite Htrim.
  destruct (fst (new_roomId w)) as [|u rest]; [discriminate|reflexivity].
Qed.

(* ================================================================== *)
(** * The further properties on the model *)

Lemma exportPublicKey_importPublicKey_witness :
  exists serialized,
    exportPublicKey (publicKey Model.alice) = Ok serialized /\
    length (key serialized) = 32%nat /\
    Forall (fun n => n < 256) (key serialized) /\
    importPublicKey serialized = Ok (as_imported (publicKey Model.alice)).
Proof.
  assert (H1 : type (publicKey Model.alice) = Public) by (vm_compute; reflexivity).
  assert (H2 : extractable (publicKey Model.alice) = true) by (vm_compute; reflexivity).
  assert (H3 : length (key_data (publicKey Model.alice)) = 32%nat)
    by (vm_compute; reflexivity).
  exact (@exportPublicKey_importPublicKey (publicKey Model.alice) H1 H2 H3).
Defined.

Lemma importPublicKey_length_witness :
  importPublicKey {| key := [1; 2; 3] |} = Throw PublicKeyImportFailed.
Proof.
  apply (proj1 (proj2 (@importPublicKey_length {| key := [1; 2; 3] |}))).
  cbn. discriminate.
Defined.

Lemma exportPublicKey_refuses_witness :
  exportPublicKey (privateKey Model.alice) = Throw PublicKeyExportFailed /\
  exportPublicKey Model.bob_imported = Throw PublicKeyExportFailed /\
  exportPublicKey Model.shared = Throw PublicKeyExportFailed.
Proof.
  assert (H1 : type (privateKey Model.alice) = Private) by (vm_compute; reflexivity).
  assert (H2 : importPublicKey {| key := Array_from (key_data (publicKey Model.bob)) |}
               = Ok Model.bob_imported) by (vm_compute; reflexivity).
  assert (H3 : deriveSharedKey (P := Model.primitives)
                 (privateKey Model.alice) (publicKey Model.bob) = Ok Model.shared)
    by (vm_compute; reflexivity).
  destruct (@exportPublicKey_refuses Model.primitives) as (R1 & R2 & R3).
  exact (conj (R1 _ H1) (conj (R2 _ _ H2) (R3 _ _ _ H3))).
Defined.

Lemma deriveSharedKey_refuses_witness :
  deriveSharedKey (P := Model.primitives) (privateKey Model.alice)
    {| type := Public; algorithm := Alg_X25519; extractable := false;
       usages := []; key_data := repeat x00 32 |}
  = Throw KeyDerivationFailed.
Proof.
  assert (H : forallb is_zero
                (@X25519 Model.primitives (key_data (privateKey Model.alice))
                   (repeat x00 32)) = true) by (vm_compute; reflexivity).
  exact (@deriveSharedKey_refuses Model.primitives (privateKey Model.alice)
           {| type := Public; algorithm := Alg_X25519; extractable := false;
              usages := []; key_data := repeat x00 32 |}
           (or_intror (or_intror (or_intror H)))).
Defined.

Lemma shared_key_over_the_wire_witness :
  exists fromA fromB theirA theirB sharedKey,
    exportPublicKey (publicKey Model.alice) = Ok fromA /\
    exportPublicKey (publicKey Model.bob) = Ok fromB /\
    importPublicKey fromA = Ok theirA /\
    importPublicKey fromB = Ok theirB /\
    deriveSharedKey (P := Model.primitives) (privateKey Model.alice) theirB
      = Ok sharedKey /\
    deriveSharedKey (P := Model.primitives) (privateKey Model.bob) theirA
      = Ok sharedKey /\
    key_data sharedKey =
      @X25519 Model.primitives (key_data (privateKey Model.alice))
        (key_data (publicKey Model.bob)).
Proof.
  assert (Hnz : forallb is_zero
                  (@X25519 Model.primitives (key_data (privateKey Model.alice))
                     (key_data (publicKey Model.bob))) = false)
    by (vm_compute; reflexivity).
  exact (@shared_key_over_the_wire Model.primitives Model.alice Model.bob
           model_X25519_commutes model_X25519_length
           model_alice_valid model_bob_valid Hnz).
Defined.

Lemma encryptMessage_wire_shape_witness :
  exists encrypted,
    fst (encryptMessage (P := Model.primitives) (js "hello") Model.shared Model.w0)
      = Ok encrypted /\
    length (iv encrypted) = 12%nat /\
    Forall (fun n => n < 256) (iv encrypted) /\
    Forall (fun n => n < 256) (ciphertext encrypted) /\
    length (ciphertext encrypted) = (length (TextEncoder_encode (js "hello")) + 16)%nat /\
    (length (js "hello") + 16 <= length (ciphertext encrypted)
     <= 3 * length (js "hello") + 16)%nat.
Proof.
  assert (Hunits : Forall (fun u => is_code_unit u = true) (js "hello"))
    by (repeat constructor).
  assert (Hkey : is_AES_GCM Model.shared && has_usage encrypt (usages Model.shared) = true)
    by (vm_compute; reflexivity).
  exact (@encryptMessage_wire_shape Model.primitives (js "hello") Model.shared Model.w0
           model_AES_GCM_tag_length Hunits Hkey).
Defined.

Lemma decryptMessage_refuses_witness :
  decryptMessage (P := Model.primitives) {| ciphertext := [1; 2; 3]; iv := [] |}
    Model.shared = Throw DecryptionFailed.
Proof.
  apply (proj1 (@decryptMessage_refuses Model.primitives
                  {| ciphertext := [1; 2; 3]; iv := [] |} Model.shared)).
  cbn. lia.
Defined.

Lemma decryptMessage_well_formed_witness :
  decryptMessage (P := Model.primitives) (encrypted Model.bob_ciphertext_for_alice)
    Model.shared = Ok (js "hi there") /\
  isWellFormed (js "hi there") = true.
Proof.
  assert (H : decryptMessage (P := Model.primitives)
                (encrypted Model.bob_ciphertext_for_alice) Model.shared
              = Ok (js "hi there")) by (vm_compute; reflexivity).
  exact (conj H (@decryptMessage_well_formed Model.primitives
                   (encrypted Model.bob_ciphertext_for_alice) Model.shared
                   (js "hi there") H)).
Defined.

Lemma round_trip_any_string_witness :
  round_trip (P := Model.primitives) [0xFEFF; 0xD800; 104] Model.shared Model.w0
  = Ok (strip_bom (toWellFormed [0xFEFF; 0xD800; 104])).
Proof.
  assert (HK : usable_key Model.shared = true) by (vm_compute; reflexivity).
  assert (Hunits : Forall (fun u => is_code_unit u = true) [0xFEFF; 0xD800; 104])
    by (repeat constructor).
  exact (@round_trip_any_string Model.primitives model_AES_GCM_correct
           model_AES_GCM_tag_length [0xFEFF; 0xD800; 104] Model.shared Model.w0
           HK Hunits).
Defined.

Lemma base64ToArrayBuffer_rejects_witness :
  In 95 (fst (new_roomId Model.w1)) /\
  base64ToArrayBuffer (fst (new_roomId Model.w1)) = None.
Proof.
  assert (Hin : In 95 (fst (new_roomId Model.w1))) by (vm_compute; tauto).
  assert (H1 : is_base64_char 95 = false) by reflexivity.
  assert (H2 : is_ascii_whitespace 95 = false) by reflexivity.
  assert (H3 : 95 <> 61) by discriminate.
  exact (conj Hin
           (@base64ToArrayBuffer_rejects (fst (new_roomId Model.w1)) 95 Hin H1 H2 H3)).
Defined.

Lemma new_roomId_distinct_witness :
  fst (randomBytes 32 Model.w0) <> fst (randomBytes 32 Model.w1) /\
  fst (new_roomId Model.w0) <> fst (new_roomId Model.w1).
Proof.
  assert (H : fst (randomBytes 32 Model.w0) <> fst (randomBytes 32 Model.w1))
    by (vm_compute; discriminate).
  exact (conj H (@new_roomId_distinct Model.w0 Model.w1 H)).
Defined.

Lemma handleJoinRoom_rejects_witness :
  handleJoinRoom (P := Model.primitives) (js "   ") (mount Model.w0)
    = setError nickname_required (mount Model.w0) /\
  handleJoinRoom (P := Model.primitives) (js "a nickname that is too long")
    (mount Model.w0) = setError nickname_too_long (mount Model.w0).
Proof.
  assert (H1 : trim (js "   ") = []) by reflexivity.
  assert (H2 : (20 < length (trim (js "a nickname that is too long")))%nat)
    by (vm_compute; repeat constructor).
  exact (conj
    (proj1 (@handleJoinRoom_rejects Model.primitives (js "   ") (mount Model.w0)) H1)
    (proj1 (proj2 (@handleJoinRoom_rejects Model.primitives
                     (js "a nickname that is too long") (mount Model.w0))) H2)).
Defined.

Lemma model_bob_nickname_ok : nickname_ok (js " Bob ").
Proof. split; vm_compute; [discriminate | repeat constructor]. Qed.

Lemma model_alice_nickname_ok : nickname_ok (js "Alice").
Proof. split; vm_compute; [discriminate | repeat constructor]. Qed.

Lemma joined_announces_witness :
  let r := joined (P := Model.primitives) (js " Bob ") Model.w1 in
  let scalar := fst (getRandomValues 32 (world (mount Model.w1))) in
  userId r = userId (mount Model.w1) /\ nicknameRef r = trim (js " Bob ") /\
  hasJoined r = true /\ error r = None /\
  keyPairRef r = Some (key_pair_of_scalar (P := Model.primitives) scalar) /\
  sent r =
    [PublicKeyEvent
       {| pk_userId := userId (mount Model.w1); pk_nickname := trim (js " Bob ");
          pk_publicKey :=
            {| key := Array_from (@X25519 Model.primitives scalar base_point) |};
          pk_timestamp := clock Model.w1 |}] /\
  console r =
    [log_keypair_generated
       (fingerprint_spec (P := Model.primitives)
          (@X25519 Model.primitives scalar base_point));
     log_connected] /\
  sharedKeysRef r = [] /\ messages r = [] /\
  consumed (world r) = (consumed Model.w1 + 16 + 32)%nat.
Proof.
  exact (@joined_announces Model.primitives (js " Bob ") Model.w1 model_bob_nickname_ok).
Defined.

Lemma handleSendMessage_guard_witness :
  handleSendMessage (P := Model.primitives) Model.alice_joined = Model.alice_joined.
Proof.
  assert (H : trim (messageInput Model.alice_joined) = [])
    by (vm_compute; reflexivity).
  exact (proj1 (@handleSendMessage_guard Model.primitives Model.alice_joined)
           (or_introl H)).
Defined.

Lemma handleSendMessage_nonces_witness :
  let r := Model.bob_typing in
  let r' := handleSendMessage (P := Model.primitives) r in
  exists encryptedMessages,
    sent r' = sent r ++ [outgoing_message r encryptedMessages] /\
    length encryptedMessages = JsMap.size (sharedKeysRef r) /\
    (forall (i : nat) (msg : RecipientCiphertext),
       nth_error encryptedMessages i = Some msg ->
       iv (encrypted msg) =
         Array_from (map (entropy (world r))
                       (seq (consumed (world r) + 16 + 12 * i) 12))) /\
    entropy (world r') = entropy (world r) /\
    consumed (world r') =
      (consumed (world r) + 16 + 12 * JsMap.size (sharedKeysRef r))%nat.
Proof.
  assert (Hch : channelRef Model.bob_typing = Some Model.bob_channel)
    by (vm_compute; reflexivity).
  assert (Hidle : isSending Model.bob_typing = false) by (vm_compute; reflexivity).
  assert (Htext : trim (messageInput Model.bob_typing) <> [])
    by (vm_compute; discriminate).
  assert (Hpeers : sharedKeysRef Model.bob_typing <> [])
    by (vm_compute; discriminate).
  exact (@handleSendMessage_nonces Model.primitives Model.bob_typing Model.bob_channel
           model_bob_typing_ok Hch Hidle Htext Hpeers).
Defined.

Lemma on_public_key_drops_witness :
  let payload :=
    {| pk_userId := js "mallory"; pk_nickname := js "Mallory";
       pk_publicKey := {| key := [1; 2; 3] |}; pk_timestamp := 0 |} in
  let r' :=
    on_public_key (P := Model.primitives) (closure_publicKey Model.alice_channel)
      payload Model.alice_keyed in
  unchanged Model.alice_keyed r' /\
  console r' = console Model.alice_keyed
                 ++ [log_public_key_received (js "Mallory");
                     err_key_exchange_failed PublicKeyImportFailed].
Proof.
  intros payload r'.
  assert (Hother : pk_userId payload <> userId Model.alice_keyed)
    by (vm_compute; discriminate).
  assert (Hlen : length (key (pk_publicKey payload)) <> 32%nat)
    by (vm_compute; discriminate).
  exact (proj1 (proj2 (@on_public_key_drops Model.primitives
                         (closure_publicKey Model.alice_channel) payload
                         Model.alice_keyed) Hother) Hlen).
Defined.

Lemma run_appends_witness :
  exists ms bs,
    messages (run (P := Model.primitives)
                ([Join (js " Bob "); Subscribed] ++ [Typed (js "hello"); Send])
                (mount Model.w1)) =
      messages (run (P := Model.primitives) [Join (js " Bob "); Subscribed]
                  (mount Model.w1)) ++ ms /\
    sent (run (P := Model.primitives)
            ([Join (js " Bob "); Subscribed] ++ [Typed (js "hello"); Send])
            (mount Model.w1)) =
      sent (run (P := Model.primitives) [Join (js " Bob "); Subscribed]
              (mount Model.w1)) ++ bs /\
    (length ms <= length [Typed (js "hello"); Send])%nat /\
    (length bs <= length [Typed (js "hello"); Send])%nat.
Proof.
  exact (@run_appends Model.primitives Model.w1 [Join (js " Bob "); Subscribed]
           [Typed (js "hello"); Send] eq_refl).
Defined.

Lemma before_joining_witness :
  let r :=
    run (P := Model.primitives)
      [Typed (js "hello"); Send; Incoming (PublicKeyEvent Model.bob_announcement);
       Subscribed] (mount Model.w0) in
  sent r = [] /\ messages r = [] /\ sharedKeysRef r = [] /\
  keyPairRef r = None /\ channelRef r = None /\ hasJoined r = false /\
  world r = world (mount Model.w0).
Proof.
  exact (@before_joining Model.primitives Model.w0
           [Typed (js "hello"); Send; Incoming (PublicKeyEvent Model.bob_announcement);
            Subscribed] eq_refl).
Defined.

Lemma announcements_carry_own_key_witness :
  let r :=
    run (P := Model.primitives)
      (Join (js "Alice")
       :: [Subscribed; Incoming (PublicKeyEvent Model.bob_announcement)])
      (mount Model.w0) in
  let keyPair :=
    key_pair_of_scalar (P := Model.primitives)
      (fst (getRandomValues 32 (world (mount Model.w0)))) in
  keyPairRef r = Some keyPair /\
  Forall (announces (userId (mount Model.w0)) (trim (js "Alice")) keyPair) (sent r).
Proof.
  exact (@announcements_carry_own_key Model.primitives (js "Alice") Model.w0
           [Subscribed; Incoming (PublicKeyEvent Model.bob_announcement)]
           model_alice_nickname_ok eq_refl).
Defined.

Lemma key_exchange_converges_witness :
  let A := joined (P := Model.primitives) (js "Alice") Model.w0 in
  let B := joined (P := Model.primitives) (js " Bob ") Model.w1 in
  let a := fst (getRandomValues 32 (world (mount Model.w0))) in
  let b := fst (getRandomValues 32 (world (mount Model.w1))) in
  exists announcementB replyA replyB sharedKey,
    sent B = [announcementB] /\
    sent (step (P := Model.primitives) (Incoming announcementB) A) = sent A ++ [replyA] /\
    sent (step (P := Model.primitives) (Incoming replyA) B) = sent B ++ [replyB] /\
    sent (step (P := Model.primitives) (Incoming replyB)
            (step (P := Model.primitives) (Incoming announcementB) A))
      = sent (step (P := Model.primitives) (Incoming announcementB) A) /\
    sharedKeysRef (step (P := Model.primitives) (Incoming replyB)
                     (step (P := Model.primitives) (Incoming announcementB) A))
      = [(userId B, sharedKey)] /\
    sharedKeysRef (step (P := Model.primitives) (Incoming replyA) B)
      = [(userId A, sharedKey)] /\
    key_data sharedKey =
      @X25519 Model.primitives a (@X25519 Model.primitives b base_point).
Proof.
  assert (Hids : userId (joined (P := Model.primitives) (js "Alice") Model.w0)
                 <> userId (joined (P := Model.primitives) (js " Bob ") Model.w1))
    by (vm_compute; discriminate).
  assert (Hnz : forallb is_zero
                  (@X25519 Model.primitives
                     (fst (getRandomValues 32 (world (mount Model.w0))))
                     (@X25519 Model.primitives
                        (fst (getRandomValues 32 (world (mount Model.w1))))
                        base_point)) = false)
    by (vm_compute; reflexivity).
  exact (@key_exchange_converges Model.primitives (js "Alice") (js " Bob ")
           Model.w0 Model.w1 model_X25519_commutes model_X25519_length
           model_alice_nickname_ok model_bob_nickname_ok Hids Hnz).
Defined.

Lemma home_join_created_room_witness :
  let s :=
    {| Home.isCreating := false;
       Home.roomId := js "  " ++ fst (new_roomId Model.w0) ++ js " ";
       Home.error := Home.no_error; Home.pushed := [] |} in
  Home.pushed (Home.handleJoinRoom s)
  = Home.pushed s ++ [js "/room/" ++ fst (new_roomId Model.w0)].
Proof.
  intros s.
  assert (Hb : Forall (fun u => is_js_space u = true) (js "  "))
    by (repeat constructor).
  assert (Ha : Forall (fun u => is_js_space u = true) (js " "))
    by (repeat constructor).
  exact (@home_join_created_room s Model.w0 (js "  ") (js " ") Hb Ha eq_refl).
Defined.
